(** * Streaming session runtime of the chat client

    A shallow embedding of [src/app/(main)/chat/[chatId]/runtime.ts]:
    the tool-call reconciler used by the two progress callbacks, the two
    content assemblers, the history conversion ([apiToolCallToPart],
    [dedupeToolCalls]) and the [run] generator of [createChatAdapter] in
    its two modes, as a step function over the events of the JavaScript
    event loop. *)

From Stdlib Require Import List String Ascii Bool Arith Lia ZArith.
From Stdlib Require Import DecimalString DecimalNat.
Import ListNotations.
Open Scope string_scope.
Open Scope list_scope.

Set Warnings "-register-all".

(** ** JavaScript values *)

(** A JSON value. [undefined] is not a JSON value: a property that may be
    [undefined] is an [option]. *)
Inductive JsVal :=
| VNull
| VBool (b : bool)
| VNum (n : Z)
| VStr (s : string)
| VArr (items : list JsVal)
| VObj (fields : list (string * JsVal)).

(** [typeof v === "object" && v !== null] *)
Definition is_object (v : JsVal) : bool :=
  match v with
  | VArr _ | VObj _ => true
  | _ => false
  end.

(** Property read [o.k] on the property list of an object. *)
Fixpoint obj_get (k : string) (fs : list (string * JsVal)) : option JsVal :=
  match fs with
  | [] => None
  | (k', v) :: rest => if String.eqb k k' then Some v else obj_get k rest
  end.

(** [{...o, k: v}]: an existing property keeps its place, a new one goes
    last. *)
Fixpoint obj_set (k : string) (v : JsVal) (fs : list (string * JsVal))
  : list (string * JsVal) :=
  match fs with
  | [] => [(k, v)]
  | (k', v') :: rest =>
      if String.eqb k k' then (k, v) :: rest else (k', v') :: obj_set k v rest
  end.

(** Truthiness of a string: the empty string is falsy. *)
Definition truthy (s : string) : bool := negb (String.eqb s "").

(** Truthiness of [string | null | undefined]. *)
Definition truthy_opt (s : option string) : bool :=
  match s with
  | Some t => truthy t
  | None => false
  end.

(** ** White space

    A JavaScript string is held as the bytes of its UTF-8 encoding, as
    Rocq reads a string literal: a code point below 128 is one byte,
    U+00A0 is the two bytes 194 160, U+2028 the three bytes 226 128 168.
    Equality and emptiness of strings are those of JavaScript under
    this encoding.

    [String.prototype.trim] removes the code points of WhiteSpace and
    LineTerminator of ECMAScript from both ends. They are told here by
    the bytes of their encoding. *)

(** One byte: U+0009 tab, U+000A line feed, U+000B vertical tab, U+000C
    form feed, U+000D carriage return, U+0020 space. *)
Definition is_space1 (a : ascii) : bool :=
  let n := nat_of_ascii a in
  (Nat.eqb n 9 || Nat.eqb n 10 || Nat.eqb n 11 || Nat.eqb n 12
   || Nat.eqb n 13 || Nat.eqb n 32)%bool.

(** Two bytes: U+00A0 no-break space, 194 160. *)
Definition is_space2 (a b : ascii) : bool :=
  (Nat.eqb (nat_of_ascii a) 194 && Nat.eqb (nat_of_ascii b) 160)%bool.

(** Three bytes: U+1680, 225 154 128; U+2000 to U+200A, 226 128 128 to
    226 128 138; U+2028 and U+2029, 226 128 168 and 226 128 169;
    U+202F, 226 128 175; U+205F, 226 129 159; U+3000, 227 128 128;
    U+FEFF, 239 187 191. *)
Definition is_space3 (a b c : ascii) : bool :=
  let x := nat_of_ascii a in
  let y := nat_of_ascii b in
  let z := nat_of_ascii c in
  (Nat.eqb x 225 && Nat.eqb y 154 && Nat.eqb z 128
   || Nat.eqb x 226 && Nat.eqb y 128
      && (Nat.leb 128 z && Nat.leb z 138 || Nat.eqb z 168 || Nat.eqb z 169
          || Nat.eqb z 175)
   || Nat.eqb x 226 && Nat.eqb y 129 && Nat.eqb z 159
   || Nat.eqb x 227 && Nat.eqb y 128 && Nat.eqb z 128
   || Nat.eqb x 239 && Nat.eqb y 187 && Nat.eqb z 191)%bool.

(** The bytes of one white-space code point. *)
Definition js_space (w : list ascii) : bool :=
  match w with
  | [a] => is_space1 a
  | [a; b] => is_space2 a b
  | [a; b; c] => is_space3 a b c
  | _ => false
  end.

(** The white space at the start of a string removed. *)
Fixpoint drop_spaces (l : list ascii) : list ascii :=
  match l with
  | [] => []
  | a :: l1 =>
      if is_space1 a then drop_spaces l1
      else
        match l1 with
        | [] => l
        | b :: l2 =>
            if is_space2 a b then drop_spaces l2
            else
              match l2 with
              | [] => l
              | c :: l3 => if is_space3 a b c then drop_spaces l3 else l
              end
        end
  end.

(** The same from the end, on the bytes in reverse order. *)
Fixpoint drop_spaces_reversed (l : list ascii) : list ascii :=
  match l with
  | [] => []
  | a :: l1 =>
      if is_space1 a then drop_spaces_reversed l1
      else
        match l1 with
        | [] => l
        | b :: l2 =>
            if is_space2 b a then drop_spaces_reversed l2
            else
              match l2 with
              | [] => l
              | c :: l3 =>
                  if is_space3 c b a then drop_spaces_reversed l3 else l
              end
        end
  end.

(** [s.trim()] *)
Definition trim (s : string) : string :=
  string_of_list_ascii
    (rev
       (drop_spaces_reversed (rev (drop_spaces (list_ascii_of_string s))))).

(** U+00A0, U+2028 and U+FEFF as strings. *)
Definition no_break_space : string :=
  String (ascii_of_nat 194) (String (ascii_of_nat 160) "").

Definition line_separator : string :=
  String (ascii_of_nat 226)
    (String (ascii_of_nat 128) (String (ascii_of_nat 168) "")).

Definition byte_order_mark : string :=
  String (ascii_of_nat 239)
    (String (ascii_of_nat 187) (String (ascii_of_nat 191) "")).

(** A string made of white space only. *)
Definition blank (s : string) : Prop :=
  exists ws : list (list ascii),
    forallb js_space ws = true
    /\ list_ascii_of_string s = List.concat ws.

(** ** Tool-call payloads *)

(** [tool_call_details]: absent, [null] or an object. *)
Inductive Details :=
| DUndefined
| DNull
| DObject (fields : list (string * JsVal)).

(** The fields the code reads from a payload ([ToolCall] of ChatService).
    [None] is a property that is missing. *)
Record ToolCall := mkToolCall {
  call_id : option string;
  tool_name : option string;
  tool_call_details : Details;
  event_type : option string;
  tool_response : option JsVal;
  is_complete : option bool
}.

(** What [JSON.parse] returns, as far as the destructuring of the payload
    sees it: [null], or a value whose properties can be read. *)
Inductive Parsed :=
| ParsedNull
| ParsedObject (tc : ToolCall).

(** An element of the [tool_calls] array of a progress callback:
    a string still to be parsed, or a value. *)
Inductive RawToolCall :=
| RawString (s : string)
| RawValue (v : Parsed).

(** Functions the runtime imports and that are not part of this file:
    the JSON built-ins ([JSON_parse] gives [None] where [JSON.parse]
    throws, [JSON_stringify v] is [JSON.stringify(v, null, 2)]) and
    [isMultimodalEnabled] of [@/lib/utils]. *)
Class Externals := {
  JSON_parse : string -> option Parsed;
  JSON_stringify : JsVal -> string;
  isMultimodalEnabled : bool
}.

(** [ToolCallResult] *)
Record ToolCallResult := mkResult {
  res_event_type : option string;
  res_response : option JsVal;
  res_details : Details
}.

(** [StreamingToolCallPart]; its [type] is always ["tool-call"]. *)
Record StreamingToolCallPart := mkPart {
  toolCallId : option string;
  toolName : option string;
  args : JsVal;
  argsText : string;
  streamState : option ToolCallResult;
  result : option ToolCallResult;
  isError : option bool
}.

(** ** An insertion-ordered [Map] *)

Definition key_eqb (a b : option string) : bool :=
  match a, b with
  | Some x, Some y => String.eqb x y
  | None, None => true
  | _, _ => false
  end.

Section OrderedMap.
Variable V : Type.

Definition JsMap := list (option string * V).

Fixpoint map_get (k : option string) (m : JsMap) : option V :=
  match m with
  | [] => None
  | (k', v) :: rest => if key_eqb k k' then Some v else map_get k rest
  end.

(** [Map.prototype.set]: an existing key keeps its position. *)
Fixpoint map_set (k : option string) (v : V) (m : JsMap) : JsMap :=
  match m with
  | [] => [(k, v)]
  | (k', v') :: rest =>
      if key_eqb k k' then (k, v) :: rest else (k', v') :: map_set k v rest
  end.

Definition map_keys (m : JsMap) : list (option string) := map fst m.

(** [Array.from(m.values())] *)
Definition map_values (m : JsMap) : list V := map snd m.

End OrderedMap.

Arguments map_get {V} k m.
Arguments map_set {V} k v m.
Arguments map_keys {V} m.
Arguments map_values {V} m.

Definition ToolCallMap := JsMap StreamingToolCallPart.

(** ** ToolCallReconciler *)

(** [tool_call_details?.arguments] *)
Definition details_arguments (d : Details) : option JsVal :=
  match d with
  | DObject fs => obj_get "arguments" fs
  | _ => None
  end.

(** [event_type === "result" || event_type === "error"] *)
Definition is_result_or_error (e : option string) : bool :=
  match e with
  | Some s => (String.eqb s "result" || String.eqb s "error")%bool
  | None => false
  end.

(** [event_type === "error"] *)
Definition is_error (e : option string) : bool :=
  match e with
  | Some s => String.eqb s "error"
  | None => false
  end.

(** The terminal class of [dedupeToolCalls]. *)
Definition is_final_event (e : option string) : bool :=
  match e with
  | Some s =>
      (String.eqb s "result" || String.eqb s "delegation_result"
       || String.eqb s "error")%bool
  | None => false
  end.

Section Reconciler.
Context `{Externals}.

(** The [try] part up to the destructuring: [None] when [JSON.parse]
    throws or the value is [null]. *)
Definition destructure (raw : RawToolCall) : option ToolCall :=
  match raw with
  | RawString s =>
      match JSON_parse s with
      | Some (ParsedObject tc) => Some tc
      | _ => None
      end
  | RawValue (ParsedObject tc) => Some tc
  | RawValue ParsedNull => None
  end.

(** [typeof rawArgs === "object" && rawArgs !== null ? rawArgs : {}] *)
Definition args_of (rawArgs : option JsVal) : JsVal :=
  match rawArgs with
  | Some v => if is_object v then v else VObj []
  | None => VObj []
  end.

(** The record used when the map has none for the identifier. *)
Definition fresh_part (tc : ToolCall) (rawArgs : option JsVal)
  : StreamingToolCallPart :=
  {| toolCallId := call_id tc;
     toolName := tool_name tc;
     args := args_of rawArgs;
     argsText :=
       match rawArgs with
       | Some (VStr s) => s
       | Some VNull | None => JSON_stringify (VObj [])
       | Some v => JSON_stringify v
       end;
     streamState := None;
     result := None;
     isError := None |}.

(** The body of [tool_calls.forEach] after the destructuring; the same
    text in the callback of [streamMessage] and of [resumeWithCursor]. *)
Definition mergeToolCall (m : ToolCallMap) (tc : ToolCall) : ToolCallMap :=
  let rawArgs := details_arguments (tool_call_details tc) in
  let previous :=
    match map_get (call_id tc) m with
    | Some p => p
    | None => fresh_part tc rawArgs
    end in
  let argsValue :=
    match rawArgs with
    | None => args previous
    | Some _ => args_of rawArgs
    end in
  let argsTextValue :=
    match rawArgs with
    | None => argsText previous
    | Some (VStr s) => s
    | Some v => JSON_stringify v
    end in
  let state :=
    {| res_event_type := event_type tc;
       res_response := tool_response tc;
       res_details := tool_call_details tc |} in
  let terminal := is_result_or_error (event_type tc) in
  let next :=
    {| toolCallId := toolCallId previous;
       toolName := tool_name tc;
       args := argsValue;
       argsText := argsTextValue;
       streamState := Some state;
       result := if terminal then Some state else None;
       isError := Some (if terminal then is_error (event_type tc) else false) |} in
  map_set (call_id tc) next m.

(** One iteration of [tool_calls.forEach]: a payload that throws is
    logged and leaves the map as it is. *)
Definition applyToolCall (m : ToolCallMap) (raw : RawToolCall) : ToolCallMap :=
  match destructure raw with
  | Some tc => mergeToolCall m tc
  | None => m
  end.

(** [tool_calls.forEach(...)] *)
Definition applyToolCalls (m : ToolCallMap) (raws : list RawToolCall)
  : ToolCallMap :=
  fold_left applyToolCall raws m.

(** ** History conversion *)

Definition apiToolCallToPart (tc : ToolCall) : StreamingToolCallPart :=
  let rawArgs := details_arguments (tool_call_details tc) in
  {| toolCallId := call_id tc;
     toolName := tool_name tc;
     args := args_of rawArgs;
     argsText :=
       match rawArgs with
       | Some (VStr s) => s
       | Some VNull | None => JSON_stringify (VObj [])
       | Some v => JSON_stringify v
       end;
     streamState := None;
     result :=
       Some {| res_event_type := event_type tc;
               res_response := tool_response tc;
               res_details :=
                 match tool_call_details tc with
                 | DObject fs =>
                     DObject
                       (obj_set "summary"
                          match obj_get "summary" fs with
                          | Some VNull | None => VStr ""
                          | Some v => v
                          end fs)
                 | _ => DObject [("summary", VStr "")]
                 end |};
     isError := Some false |}.

End Reconciler.

(** [a ?? b] on a property that may be missing. *)
Definition nullish {A} (a b : option A) : option A :=
  match a with
  | Some _ => a
  | None => b
  end.

(** The object written by [dedupeToolCalls] for a later final event:
    [{...existing, ...tc, tool_response, tool_call_details, is_complete}]. *)
Definition merge_final (existing tc : ToolCall) : ToolCall :=
  {| call_id := nullish (call_id tc) (call_id existing);
     tool_name := nullish (tool_name tc) (tool_name existing);
     tool_call_details :=
       match tool_call_details tc with
       | DObject fs => DObject fs
       | _ => tool_call_details existing
       end;
     event_type := nullish (event_type tc) (event_type existing);
     tool_response := tool_response tc;
     is_complete := nullish (is_complete tc) (is_complete existing) |}.

Definition dedupe_step (byId : JsMap ToolCall) (tc : ToolCall) : JsMap ToolCall :=
  match map_get (call_id tc) byId with
  | None => map_set (call_id tc) tc byId
  | Some existing =>
      if is_final_event (event_type tc)
      then map_set (call_id tc) (merge_final existing tc) byId
      else byId
  end.

Definition dedupeToolCalls (toolCalls : list ToolCall) : list ToolCall :=
  map_values (fold_left dedupe_step toolCalls []).

(** ** ContentAssembler *)

(** An element of the [content] array of a yielded chunk. *)
Inductive ContentPart :=
| Reasoning (text : string)
| ToolCallPart (part : StreamingToolCallPart)
| Text (text : string).

(** The [content] of a chunk [{ content }]. *)
Definition ContentUpdate := list ContentPart.

(** The array literal of the two [yield]s of [streamAsyncIterable]. *)
Definition render_stream (accumulatedThinking : option string)
  (accumulatedToolCalls : ToolCallMap) (accumulatedText : string)
  : ContentUpdate :=
  (match accumulatedThinking with
   | Some t => if truthy t then [Reasoning t] else []
   | None => []
   end)
  ++ map ToolCallPart (map_values accumulatedToolCalls)
  ++ (if truthy accumulatedText then [Text accumulatedText] else []).

(** [tool.toolCallId && tool.toolName] *)
Definition has_id_and_name (p : StreamingToolCallPart) : bool :=
  (truthy_opt (toolCallId p) && truthy_opt (toolName p))%bool.

(** The [content] built by [pushToQueue]. *)
Definition render_resume (accumulatedText : string)
  (toolCallsMap : ToolCallMap) (accumulatedThinking : option string)
  : ContentUpdate :=
  (match accumulatedThinking with
   | Some t => if truthy (trim t) then [Reasoning t] else []
   | None => []
   end)
  ++ map ToolCallPart (filter has_id_and_name (map_values toolCallsMap))
  ++ [Text accumulatedText].

(** ** The adapter's shared references *)

Record StreamingState := mkStreamingState {
  sessionId : option string;
  currentCursor : string;
  isStreaming : bool;
  isReconnecting : bool;
  reconnectAttempts : nat
}.

Record ResumeSessionInfo := mkResumeSessionInfo {
  resume_sessionId : string;
  resume_cursor : string
}.

(** The three [MutableRefObject]s handed to [createChatAdapter]. *)
Record Refs := mkRefs {
  isBackgroundTaskActiveRef : bool;
  streamingStateRef : StreamingState;
  resumeSessionRef : option ResumeSessionInfo
}.

Definition set_isStreaming (b : bool) (r : Refs) : Refs :=
  {| isBackgroundTaskActiveRef := isBackgroundTaskActiveRef r;
     streamingStateRef :=
       {| sessionId := sessionId (streamingStateRef r);
          currentCursor := currentCursor (streamingStateRef r);
          isStreaming := b;
          isReconnecting := isReconnecting (streamingStateRef r);
          reconnectAttempts := reconnectAttempts (streamingStateRef r) |};
     resumeSessionRef := resumeSessionRef r |}.

Definition set_sessionId (s : option string) (r : Refs) : Refs :=
  {| isBackgroundTaskActiveRef := isBackgroundTaskActiveRef r;
     streamingStateRef :=
       {| sessionId := s;
          currentCursor := currentCursor (streamingStateRef r);
          isStreaming := isStreaming (streamingStateRef r);
          isReconnecting := isReconnecting (streamingStateRef r);
          reconnectAttempts := reconnectAttempts (streamingStateRef r) |};
     resumeSessionRef := resumeSessionRef r |}.

Definition set_currentCursor (c : string) (r : Refs) : Refs :=
  {| isBackgroundTaskActiveRef := isBackgroundTaskActiveRef r;
     streamingStateRef :=
       {| sessionId := sessionId (streamingStateRef r);
          currentCursor := c;
          isStreaming := isStreaming (streamingStateRef r);
          isReconnecting := isReconnecting (streamingStateRef r);
          reconnectAttempts := reconnectAttempts (streamingStateRef r) |};
     resumeSessionRef := resumeSessionRef r |}.

Definition clear_resumeSession (r : Refs) : Refs :=
  {| isBackgroundTaskActiveRef := isBackgroundTaskActiveRef r;
     streamingStateRef := streamingStateRef r;
     resumeSessionRef := None |}.

(** ** The thread messages given to [run] *)

Definition File := string.

Inductive Role := User | Assistant | System.

Inductive MessagePart :=
| TextPart (text : string)
| ImagePart (image : string)
| OtherPart.

Record Attachment := mkAttachment {
  attachment_type : string;
  attachment_file : option File
}.

Record ThreadMessage := mkMessage {
  role : Role;
  content : list MessagePart;
  attachments : list Attachment
}.

(** [messages[messages.length - 1]] *)
Definition last_message (messages : list ThreadMessage) : option ThreadMessage :=
  last (map Some messages) None.

(** [content.find((c) => c.type === "text")], as the text found. *)
Fixpoint find_text (parts : list MessagePart) : option string :=
  match parts with
  | [] => None
  | TextPart t :: _ => Some t
  | _ :: rest => find_text rest
  end.

(** The files of the image attachments that carry one. *)
Fixpoint image_files (atts : list Attachment) : list File :=
  match atts with
  | [] => []
  | a :: rest =>
      match attachment_file a with
      | Some f =>
          if String.eqb (attachment_type a) "image"
          then f :: image_files rest
          else image_files rest
      | None => image_files rest
      end
  end.

(** ** Observable behaviour *)

Inductive Err :=
| AbortError
| BackendError (message : string)
| BackgroundTaskActive
| NoUserMessage
| MessageMustContainText.

(** The calls the adapter makes on [ChatService]. *)
Inductive BackendCall :=
| StreamMessage (chatId text : string) (selectedNodes : list JsVal)
    (images : list File) (session : option string)
| ResumeWithCursor (chatId session cursor : string)
| StopMessage (chatId : string).

(** What happens during a run, in the order it happens: what the adapter
    does (calls, the chunks yielded, how the sequence ends) and, as marks,
    what is done to it (the signal fires, the backend call settles). *)
Inductive Obs :=
| Called (c : BackendCall)
| Yielded (u : ContentUpdate)
| Threw (e : Err)
| Returned
| Cancelled
| BackendSettled.

(** [thinking?: string | null] *)
Inductive Thinking :=
| ThinkingUndefined
| ThinkingNull
| ThinkingText (t : string).

(** What the event loop runs while a run is alive: a call of the
    progress callback that [run] gave to [ChatService] (normal mode also
    gets [citations], which it does not read), the promise of the
    backend call being fulfilled or rejected, the [abort] event of the
    signal (the model takes [abortSignal] to be given, as the runtime
    gives it), and [Tick], a turn of the generator: the consumer has
    asked for the next chunk and the generator runs on to its next
    [yield] or [await], unless the promise it awaits is still pending.
    Any number of the other events may come between two turns. *)
Inductive Event :=
| OnUpdate (message : string) (tool_calls : list RawToolCall)
    (thinking : Thinking)
| Resolve (session : string)
| Reject (error : Err)
| AbortSignal
| Tick.

(** [if (thinking !== undefined) accumulatedThinking = thinking ?? null] *)
Definition update_thinking (thinking : Thinking) (acc : option string)
  : option string :=
  match thinking with
  | ThinkingUndefined => acc
  | ThinkingNull => None
  | ThinkingText t => Some t
  end.

(** ** Normal mode: [streamAsyncIterable] *)

(** State of a promise made by [new Promise]. *)
Inductive PState :=
| Pending
| Fulfilled (v : bool)
| Rejected (e : Err).

(** State of [streamPromise]. *)
Inductive StreamPromise :=
| StreamPending
| StreamResolved (session : string)
| StreamRejected (e : Err).

(** Where the generator is suspended. At [AtRace current outcome] it
    awaits [Promise.race([waitForUpdate, streamPromise.then(...)])]:
    [current] tells whether the variable [waitForUpdate] still holds the
    promise given to the race, [outcome] is how the race settled
    ([Some None] fulfilled, [Some (Some e)] rejected with [e]), set by
    the first of its two promises to settle. *)
Inductive StreamPos :=
| AtRace (current : bool) (outcome : option (option Err))
| AtYield
| AtFinalYield
| Finished.

(** The variables of [streamAsyncIterable]. [resolveNext] and
    [rejectStream] are always the resolvers of the promise held by
    [waitForUpdate]; [listening] tells whether [handleAbort] is
    registered on the signal. *)
Record Stream := mkStream {
  accumulatedText : string;
  accumulatedThinking : option string;
  accumulatedToolCalls : ToolCallMap;
  hasUpdate : bool;
  aborted : bool;
  streamFinished : bool;
  waitForUpdate : PState;
  streamPromise : StreamPromise;
  listening : bool;
  pos : StreamPos
}.

Definition set_pos (p : StreamPos) (s : Stream) : Stream :=
  mkStream (accumulatedText s) (accumulatedThinking s)
    (accumulatedToolCalls s) (hasUpdate s) (aborted s) (streamFinished s)
    (waitForUpdate s) (streamPromise s) (listening s) p.

Definition set_hasUpdate (b : bool) (s : Stream) : Stream :=
  mkStream (accumulatedText s) (accumulatedThinking s)
    (accumulatedToolCalls s) b (aborted s) (streamFinished s)
    (waitForUpdate s) (streamPromise s) (listening s) (pos s).

Definition set_aborted (b : bool) (s : Stream) : Stream :=
  mkStream (accumulatedText s) (accumulatedThinking s)
    (accumulatedToolCalls s) (hasUpdate s) b (streamFinished s)
    (waitForUpdate s) (streamPromise s) (listening s) (pos s).

Definition set_streamFinished (b : bool) (s : Stream) : Stream :=
  mkStream (accumulatedText s) (accumulatedThinking s)
    (accumulatedToolCalls s) (hasUpdate s) (aborted s) b
    (waitForUpdate s) (streamPromise s) (listening s) (pos s).

Definition set_waitForUpdate (p : PState) (s : Stream) : Stream :=
  mkStream (accumulatedText s) (accumulatedThinking s)
    (accumulatedToolCalls s) (hasUpdate s) (aborted s) (streamFinished s)
    p (streamPromise s) (listening s) (pos s).

Definition set_streamPromise (p : StreamPromise) (s : Stream) : Stream :=
  mkStream (accumulatedText s) (accumulatedThinking s)
    (accumulatedToolCalls s) (hasUpdate s) (aborted s) (streamFinished s)
    (waitForUpdate s) p (listening s) (pos s).

Definition set_listening (b : bool) (s : Stream) : Stream :=
  mkStream (accumulatedText s) (accumulatedThinking s)
    (accumulatedToolCalls s) (hasUpdate s) (aborted s) (streamFinished s)
    (waitForUpdate s) (streamPromise s) b (pos s).

Definition set_accumulated (text : string) (thinking : option string)
  (calls : ToolCallMap) (s : Stream) : Stream :=
  mkStream text thinking calls (hasUpdate s) (aborted s) (streamFinished s)
    (waitForUpdate s) (streamPromise s) (listening s) (pos s).

(** A promise of the race settles: the race takes the first outcome. *)
Definition settle_race (o : option Err) (p : StreamPos) : StreamPos :=
  match p with
  | AtRace c None => AtRace c (Some o)
  | _ => p
  end.

(** [resolveNext(v)] *)
Definition resolveNext (v : bool) (s : Stream) : Stream :=
  match waitForUpdate s with
  | Pending =>
      let s' := set_waitForUpdate (Fulfilled v) s in
      match pos s with
      | AtRace true None => set_pos (AtRace true (Some None)) s'
      | _ => s'
      end
  | _ => s
  end.

(** [rejectStream(e)] *)
Definition rejectStream (e : Err) (s : Stream) : Stream :=
  match waitForUpdate s with
  | Pending =>
      let s' := set_waitForUpdate (Rejected e) s in
      match pos s with
      | AtRace true None => set_pos (AtRace true (Some (Some e))) s'
      | _ => s'
      end
  | _ => s
  end.

(** [waitForUpdate = new Promise(...)]: the variable holds a new promise,
    a race under way keeps the old one. *)
Definition new_waitForUpdate (s : Stream) : Stream :=
  let s' := set_waitForUpdate Pending s in
  match pos s with
  | AtRace _ o => set_pos (AtRace false o) s'
  | _ => s'
  end.

(** [accumulatedThinking || accumulatedToolCalls.size > 0 || accumulatedText] *)
Definition hasContent (s : Stream) : bool :=
  (truthy_opt (accumulatedThinking s)
   || negb (Nat.eqb (List.length (accumulatedToolCalls s)) 0)
   || truthy (accumulatedText s))%bool.

Definition stream_content (s : Stream) : ContentUpdate :=
  render_stream (accumulatedThinking s) (accumulatedToolCalls s)
    (accumulatedText s).

(** [handleAbort] *)
Definition handleAbort (chatId : string) (s : Stream) : Stream * list Obs :=
  if aborted s then (s, [])
  else
    (rejectStream AbortError (resolveNext false (set_aborted true s)),
     [Called (StopMessage chatId)]).

(** The [finally] block. *)
Definition stream_finally (rf : Refs) (s : Stream) : Refs * Stream :=
  (set_isStreaming false rf, set_pos Finished (set_listening false s)).

(** From the end of the [while] loop to the end of the generator. *)
Definition after_loop (rf : Refs) (s : Stream) : Refs * Stream * list Obs :=
  if (negb (aborted s) && hasContent s)%bool
  then (rf, set_pos AtFinalYield s, [Yielded (stream_content s)])
  else
    let (rf', s') := stream_finally rf s in
    (rf', s', [Returned]).

(** The test of the [while] loop and, when it holds, the start of the
    next [await Promise.race(...)]: a promise that has settled already
    settles the race, [waitForUpdate] before [streamPromise.then(...)]. *)
Definition loop_top (rf : Refs) (s : Stream) : Refs * Stream * list Obs :=
  if (negb (streamFinished s) && negb (aborted s))%bool
  then
    let o :=
      match waitForUpdate s with
      | Fulfilled _ => Some None
      | Rejected e => Some (Some e)
      | Pending =>
          match streamPromise s with
          | StreamPending => None
          | StreamResolved _ => Some None
          | StreamRejected e => Some (Some e)
          end
      end in
    let s' :=
      match streamPromise s with
      | StreamResolved _ => set_streamFinished true s
      | _ => s
      end in
    (rf, set_pos (AtRace true o) s', [])
  else after_loop rf s.

(** A turn of the generator. An error that leaves [streamAsyncIterable]
    reaches the [catch] of [run], which ends the sequence quietly when
    the signal has fired. *)
Definition stream_tick (signal : bool) (rf : Refs) (s : Stream)
  : Refs * Stream * list Obs :=
  match pos s with
  | AtRace _ None => (rf, s, [])
  | AtRace _ (Some None) =>
      if aborted s then after_loop rf s
      else if hasUpdate s
      then (rf, set_pos AtYield (set_hasUpdate false s),
            [Yielded (stream_content s)])
      else loop_top rf s
  | AtRace _ (Some (Some e)) =>
      let (rf', s') := stream_finally rf s in
      if aborted s then (rf', s', [Returned])
      else if signal then (rf', s', [Returned])
      else (rf', s', [Threw e])
  | AtYield => loop_top rf s
  | AtFinalYield =>
      let (rf', s') := stream_finally rf s in
      (rf', s', [Returned])
  | Finished => (rf, s, [])
  end.

Section Adapter.
Context `{Externals}.

(** The progress callback given to [ChatService.streamMessage]. *)
Definition stream_onUpdate (signal : bool) (message : string)
  (tool_calls : list RawToolCall) (thinking : Thinking) (s : Stream)
  : Stream :=
  if (signal || aborted s)%bool then s
  else
    let s1 :=
      set_accumulated message
        (update_thinking thinking (accumulatedThinking s))
        (applyToolCalls (accumulatedToolCalls s) tool_calls) s in
    new_waitForUpdate (resolveNext true (set_hasUpdate true s1)).

(** [streamPromise] is fulfilled: the [.then] handler stores the session,
    and the [streamPromise.then(() => { streamFinished = true })] of the
    loop runs and fulfils its promise of the race. *)
Definition stream_onResolve (session : string) (rf : Refs) (s : Stream)
  : Refs * Stream * list Obs :=
  match streamPromise s with
  | StreamPending =>
      let s1 := set_streamPromise (StreamResolved session) s in
      let s2 := set_streamFinished true s1 in
      (set_isStreaming false (set_sessionId (Some session) rf),
       set_pos (settle_race None (pos s2)) s2,
       [BackendSettled])
  | _ => (rf, s, [])
  end.

(** [streamPromise] is rejected: the [.catch] handler. *)
Definition stream_onReject (e : Err) (rf : Refs) (s : Stream)
  : Refs * Stream * list Obs :=
  match streamPromise s with
  | StreamPending =>
      let s1 := if aborted s then s else rejectStream e s in
      let s2 := set_streamPromise (StreamRejected e) s1 in
      (set_isStreaming false rf,
       set_pos (settle_race (Some e) (pos s2)) s2,
       [BackendSettled])
  | _ => (rf, s, [])
  end.

(** The signal fires. *)
Definition stream_onAbort (chatId : string) (s : Stream) : Stream * list Obs :=
  if listening s then handleAbort chatId s else (s, []).

(** The generator as [run] first runs it, up to its first [await]. With
    the signal already fired it calls [handleAbort] and returns before
    the [try]. *)
Definition stream_start (chatId text : string) (selectedNodes : list JsVal)
  (images : list File) (signal : bool) (rf : Refs) : Stream * list Obs :=
  let s0 :=
    mkStream "" None [] false false false Pending StreamPending false
      Finished in
  if signal
  then
    let (s1, o) := handleAbort chatId s0 in
    (s1, o ++ [Returned])
  else
    (set_pos (AtRace true None) (set_listening true s0),
     [Called
        (StreamMessage chatId text selectedNodes images
           (match sessionId (streamingStateRef rf) with
            | Some i => if truthy i then Some i else None
            | None => None
            end))]).

(** ** Resume mode *)

(** Where the resume loop is suspended. *)
Inductive ResumePos :=
| AtWait
| AtQueueYield
| ResumeFinished.

(** The variables of the resume branch. [resolve] tells whether the
    variable of that name holds a resolver; [awaited] is the state of
    the promise made last by the loop, the one that resolver settles:
    [None] pending, [Some None] resolved with [null], [Some (Some c)]
    resolved with the chunk [c]. *)
Record Resume := mkResume {
  queue : list ContentUpdate;
  resolve : bool;
  awaited : option (option ContentUpdate);
  finished : bool;
  resumeToolCalls : ToolCallMap;
  resumeThinking : option string;
  resumePos : ResumePos
}.

(** Calling the resolver held by [resolve]. *)
Definition resolve_awaited (v : option ContentUpdate) (r : Resume) : Resume :=
  match awaited r with
  | None =>
      mkResume (queue r) (resolve r) (Some v) (finished r)
        (resumeToolCalls r) (resumeThinking r) (resumePos r)
  | Some _ => r
  end.

(** [pushToQueue] *)
Definition pushToQueue (accumulatedText : string)
  (toolCallsMap : ToolCallMap) (accumulatedThinking : option string)
  (r : Resume) : Resume :=
  let chunk := render_resume accumulatedText toolCallsMap accumulatedThinking in
  if resolve r
  then
    let r' := resolve_awaited (Some chunk) r in
    mkResume (queue r') false (awaited r') (finished r')
      (resumeToolCalls r') (resumeThinking r') (resumePos r')
  else
    mkResume (queue r ++ [chunk]) (resolve r) (awaited r) (finished r)
      (resumeToolCalls r) (resumeThinking r) (resumePos r).

(** The progress callback given to [ChatService.resumeWithCursor]. *)
Definition resume_onUpdate (message : string)
  (tool_calls : list RawToolCall) (thinking : Thinking) (r : Resume)
  : Resume :=
  let th := update_thinking thinking (resumeThinking r) in
  let calls := applyToolCalls (resumeToolCalls r) tool_calls in
  pushToQueue message calls th
    (mkResume (queue r) (resolve r) (awaited r) (finished r) calls th
       (resumePos r)).

(** The [.then] and the [.catch] handler, which do the same. *)
Definition resume_onSettled (r : Resume) : Resume * list Obs :=
  if finished r then (r, [])
  else
    let r1 :=
      mkResume (queue r) (resolve r) (awaited r) true (resumeToolCalls r)
        (resumeThinking r) (resumePos r) in
    (if resolve r1 then resolve_awaited None r1 else r1, [BackendSettled]).

(** One pass of [while (true)] from its top. *)
Definition resume_loop (r : Resume) : Resume * list Obs :=
  match queue r with
  | c :: rest =>
      (mkResume rest (resolve r) (awaited r) (finished r)
         (resumeToolCalls r) (resumeThinking r) AtQueueYield,
       [Yielded c])
  | [] =>
      if finished r
      then
        (mkResume [] (resolve r) (awaited r) (finished r)
           (resumeToolCalls r) (resumeThinking r) ResumeFinished,
         [Returned])
      else
        (mkResume [] true None (finished r) (resumeToolCalls r)
           (resumeThinking r) AtWait,
         [])
  end.

(** A turn of the generator in resume mode. *)
Definition resume_tick (r : Resume) : Resume * list Obs :=
  match resumePos r with
  | AtWait =>
      match awaited r with
      | None => (r, [])
      | Some None =>
          (mkResume (queue r) (resolve r) (awaited r) (finished r)
             (resumeToolCalls r) (resumeThinking r) ResumeFinished,
           [Returned])
      | Some (Some c) =>
          (mkResume (queue r) (resolve r) (awaited r) (finished r)
             (resumeToolCalls r) (resumeThinking r) AtQueueYield,
           [Yielded c])
      end
  | AtQueueYield => resume_loop r
  | ResumeFinished => (r, [])
  end.

(** The resume branch up to its first [await]. *)
Definition resume_start : Resume :=
  fst (resume_loop (mkResume [] false None false [] None AtWait)).

(** ** [run] *)

Inductive Mode :=
| NotRunning
| Streaming (s : Stream)
| Resuming (r : Resume).

(** A run of the adapter made for [chatId]: the references it shares,
    whether its signal has fired, what has happened so far and the state
    of its generator. *)
Record Run := mkRun {
  chatId : string;
  refs : Refs;
  signal : bool;
  trace : list Obs;
  mode : Mode
}.

(** [run({ messages, abortSignal, context })] up to its first [await];
    [selectedNodes] is [runConfig?.custom?.selectedNodes || []] and
    [signal] tells whether the signal has fired already. *)
Definition run_start (chat : string) (rf : Refs)
  (messages : list ThreadMessage) (selectedNodes : list JsVal)
  (signal : bool) : Run :=
  match resumeSessionRef rf with
  | Some rs =>
      mkRun chat (clear_resumeSession rf) signal
        [Called
           (ResumeWithCursor chat (resume_sessionId rs) (resume_cursor rs))]
        (Resuming resume_start)
  | None =>
      if isBackgroundTaskActiveRef rf
      then mkRun chat rf signal [Threw BackgroundTaskActive] NotRunning
      else
        match last_message messages with
        | None => mkRun chat rf signal [Threw NoUserMessage] NotRunning
        | Some lastMessage =>
            match role lastMessage with
            | User =>
                match find_text (content lastMessage) with
                | None =>
                    mkRun chat rf signal [Threw MessageMustContainText]
                      NotRunning
                | Some text =>
                    let images :=
                      if isMultimodalEnabled
                      then image_files (attachments lastMessage)
                      else [] in
                    let rf' :=
                      set_sessionId None
                        (set_currentCursor "0-0" (set_isStreaming true rf)) in
                    let (s, o) :=
                      stream_start chat text selectedNodes images signal rf' in
                    mkRun chat rf' signal o (Streaming s)
                end
            | _ => mkRun chat rf signal [Threw NoUserMessage] NotRunning
            end
        end
  end.

(** One event of the event loop. *)
Definition step (r : Run) (e : Event) : Run :=
  match mode r with
  | NotRunning =>
      match e with
      | AbortSignal =>
          if signal r then r
          else mkRun (chatId r) (refs r) true (trace r ++ [Cancelled]) NotRunning
      | _ => r
      end
  | Streaming s =>
      match e with
      | OnUpdate message tool_calls thinking =>
          mkRun (chatId r) (refs r) (signal r) (trace r)
            (Streaming (stream_onUpdate (signal r) message tool_calls thinking s))
      | Resolve session =>
          let '(rf, s', o) := stream_onResolve session (refs r) s in
          mkRun (chatId r) rf (signal r) (trace r ++ o) (Streaming s')
      | Reject err =>
          let '(rf, s', o) := stream_onReject err (refs r) s in
          mkRun (chatId r) rf (signal r) (trace r ++ o) (Streaming s')
      | AbortSignal =>
          if signal r then r
          else
            let (s', o) := stream_onAbort (chatId r) s in
            mkRun (chatId r) (refs r) true (trace r ++ Cancelled :: o)
              (Streaming s')
      | Tick =>
          let '(rf, s', o) := stream_tick (signal r) (refs r) s in
          mkRun (chatId r) rf (signal r) (trace r ++ o) (Streaming s')
      end
  | Resuming q =>
      match e with
      | OnUpdate message tool_calls thinking =>
          mkRun (chatId r) (refs r) (signal r) (trace r)
            (Resuming (resume_onUpdate message tool_calls thinking q))
      | Resolve _ | Reject _ =>
          let (q', o) := resume_onSettled q in
          mkRun (chatId r) (refs r) (signal r) (trace r ++ o) (Resuming q')
      | AbortSignal =>
          if signal r then r
          else
            mkRun (chatId r) (refs r) true (trace r ++ [Cancelled])
              (Resuming q)
      | Tick =>
          let (q', o) := resume_tick q in
          mkRun (chatId r) (refs r) (signal r) (trace r ++ o) (Resuming q')
      end
  end.

(** The run after a schedule of events. *)
Definition run_events (r : Run) (events : list Event) : Run :=
  fold_left step events r.

End Adapter.

(** ** Reading a trace *)

Definition yields (t : list Obs) : list ContentUpdate :=
  flat_map (fun o => match o with Yielded u => [u] | _ => [] end) t.

Definition calls (t : list Obs) : list BackendCall :=
  flat_map (fun o => match o with Called c => [c] | _ => [] end) t.

Definition is_stop (c : BackendCall) : bool :=
  match c with
  | StopMessage _ => true
  | _ => false
  end.

Definition stop_count (t : list Obs) : nat :=
  List.length (filter is_stop (calls t)).

(** What a trace holds after its first [Cancelled] mark. *)
Fixpoint after_cancel (t : list Obs) : list Obs :=
  match t with
  | [] => []
  | Cancelled :: rest => rest
  | _ :: rest => after_cancel rest
  end.

(** What a trace holds after its first [BackendSettled] mark. *)
Fixpoint after_settled (t : list Obs) : list Obs :=
  match t with
  | [] => []
  | BackendSettled :: rest => rest
  | _ :: rest => after_settled rest
  end.

(** ** Reconciling a whole stream *)

Section Stream.
Context `{Externals}.

(** The payloads of a list of raw ones that are applied, in order. *)
Definition applied (raws : list RawToolCall) : list ToolCall :=
  flat_map
    (fun raw => match destructure raw with Some tc => [tc] | None => [] end)
    raws.

(** The map after the raw events of a stream, each the [tool_calls] of
    one callback, starting from the empty map of a new run. *)
Definition reconcile (events : list (list RawToolCall)) : ToolCallMap :=
  fold_left applyToolCalls events [].

End Stream.

(** The identifiers of a list in the order each is first seen. *)
Fixpoint first_seen (ids : list (option string)) : list (option string) :=
  match ids with
  | [] => []
  | k :: rest =>
      k :: filter (fun k' => negb (key_eqb k' k)) (first_seen rest)
  end.

(** Whether an identifier is among those of a list. *)
Definition seen (ks : list (option string)) (k : option string) : bool :=
  existsb (key_eqb k) ks.

(** Every record sits under its own identifier. *)
Definition keyed_by_id (m : ToolCallMap) : Prop :=
  forall k p, map_get k m = Some p -> toolCallId p = k.

(** ** The accumulated state along a schedule *)

(** The arguments of one call of a progress callback. *)
Record Update := mkUpdate {
  update_message : string;
  update_tool_calls : list RawToolCall;
  update_thinking_arg : Thinking
}.

(** The calls of the progress callback in a schedule, in order. *)
Definition updates_of (events : list Event) : list Update :=
  flat_map
    (fun e =>
       match e with
       | OnUpdate message tool_calls thinking =>
           [mkUpdate message tool_calls thinking]
       | _ => []
       end)
    events.

(** What a progress callback accumulates: the text, the thinking and
    the tool-call map. *)
Record Accumulated := mkAccumulated {
  acc_text : string;
  acc_thinking : option string;
  acc_calls : ToolCallMap
}.

Section Accumulate.
Context `{Externals}.

(** The assignments a progress callback makes for one update. *)
Definition accumulate (a : Accumulated) (u : Update) : Accumulated :=
  {| acc_text := update_message u;
     acc_thinking := update_thinking (update_thinking_arg u) (acc_thinking a);
     acc_calls := applyToolCalls (acc_calls a) (update_tool_calls u) |}.

(** The accumulated state after a list of updates, from the start of a
    run. *)
Definition accumulated_after (us : list Update) : Accumulated :=
  fold_left accumulate us (mkAccumulated "" None []).

(** The chunk [pushToQueue] builds from an accumulated state. *)
Definition resume_chunk (a : Accumulated) : ContentUpdate :=
  render_resume (acc_text a) (acc_calls a) (acc_thinking a).

(** The chunk [streamAsyncIterable] yields from an accumulated state. *)
Definition stream_chunk (a : Accumulated) : ContentUpdate :=
  render_stream (acc_thinking a) (acc_calls a) (acc_text a).

(** The chunks [pushToQueue] builds for a list of updates, one each. *)
Fixpoint chunks_from (a : Accumulated) (us : list Update)
  : list ContentUpdate :=
  match us with
  | [] => []
  | u :: rest => resume_chunk (accumulate a u) :: chunks_from (accumulate a u) rest
  end.

End Accumulate.

(** A schedule in which the backend call has not settled and the signal
    has not fired: progress callbacks and turns of the generator only. *)
Definition is_progress (e : Event) : bool :=
  match e with
  | OnUpdate _ _ _ | Tick => true
  | _ => false
  end.

(** [hasContent] on an accumulated state. *)
Definition has_content (a : Accumulated) : bool :=
  (truthy_opt (acc_thinking a)
   || negb (Nat.eqb (List.length (acc_calls a)) 0)
   || truthy (acc_text a))%bool.

Definition is_yield_or_call (o : Obs) : bool :=
  match o with
  | Called _ | Yielded _ => true
  | _ => false
  end.

(** The accumulated state held by the variables of a generator. *)
Definition stream_accumulated (s : Stream) : Accumulated :=
  mkAccumulated (accumulatedText s) (accumulatedThinking s)
    (accumulatedToolCalls s).

(** A chunk built by [render] from the state accumulated after a prefix
    of the updates [us]. *)
Definition chunk_of_prefix `{Externals} (render : Accumulated -> ContentUpdate)
  (us : list Update) (c : ContentUpdate) : Prop :=
  exists seen_updates rest,
    us = seen_updates ++ rest
    /\ c = render (accumulated_after seen_updates).

(** The chunks a resume loop holds and has not yielded: the one its
    awaited promise was resolved with, then the queue. *)
Definition pending_chunks (q : Resume) : list ContentUpdate :=
  match resumePos q, awaited q with
  | AtWait, Some (Some c) => c :: queue q
  | _, _ => queue q
  end.

(** What holds of a run in normal mode after the updates [us]: its
    variables hold the state accumulated after a prefix of them, all of
    them unless the run was cancelled, and every chunk yielded so far
    is the chunk of such a prefix. *)
Definition stream_invariant `{Externals} (us : list Update) (r : Run) : Prop :=
  exists s,
    mode r = Streaming s
    /\ (exists seen_updates rest,
           us = seen_updates ++ rest
           /\ stream_accumulated s = accumulated_after seen_updates
           /\ (signal r = false -> aborted s = false -> rest = []))
    /\ (forall u, In u (yields (trace r)) ->
                  chunk_of_prefix stream_chunk us u).

(** The same for a run in resume mode, where every update is
    accumulated; the chunks held back are chunks of prefixes too. *)
Definition resume_invariant `{Externals} (us : list Update) (r : Run) : Prop :=
  exists q,
    mode r = Resuming q
    /\ resumeToolCalls q = acc_calls (accumulated_after us)
    /\ resumeThinking q = acc_thinking (accumulated_after us)
    /\ (forall c,
           In c (yields (trace r)) \/ In c (queue q)
           \/ awaited q = Some (Some c) ->
           chunk_of_prefix resume_chunk us c).

(** A run in normal mode that is under way: the signal has not fired,
    the backend call has not settled, and the generator is suspended in
    its loop. *)
Definition progressing (r : Run) : Prop :=
  exists s,
    mode r = Streaming s
    /\ signal r = false
    /\ aborted s = false
    /\ streamFinished s = false
    /\ streamPromise s = StreamPending
    /\ waitForUpdate s = Pending
    /\ (pos s = AtYield
        \/ exists c, pos s = AtRace c None \/ pos s = AtRace c (Some None))
    /\ forallb is_yield_or_call (trace r) = true.

(** A run in resume mode that is under way, after the updates [us]:
    the chunks yielded and those held back are the chunks of the
    updates, in order. *)
Definition resume_progressing `{Externals} (us : list Update) (r : Run) : Prop :=
  exists q,
    mode r = Resuming q
    /\ finished q = false
    /\ resumeToolCalls q = acc_calls (accumulated_after us)
    /\ resumeThinking q = acc_thinking (accumulated_after us)
    /\ yields (trace r) ++ pending_chunks q
       = chunks_from (mkAccumulated "" None []) us
    /\ forallb is_yield_or_call (trace r) = true
    /\ match resumePos q with
       | AtWait =>
           match awaited q with
           | None => resolve q = true /\ queue q = []
           | Some (Some _) => resolve q = false
           | Some None => False
           end
       | AtQueueYield => resolve q = false
       | ResumeFinished => False
       end.

(** Whether an event settles the backend call. *)
Definition is_settle (e : Event) : bool :=
  match e with
  | Resolve _ | Reject _ => true
  | _ => false
  end.

(** ** Sample inputs *)

(** An instance of the externals for running the model on the samples
    below. The samples give their payloads as values, which are not
    parsed, and what the printer writes plays no role in them. *)
Definition sample_externals : Externals :=
  {| JSON_parse := fun _ => None;
     JSON_stringify := fun _ => "{}";
     isMultimodalEnabled := false |}.

Definition payload (id type : string) (response : option JsVal) : ToolCall :=
  {| call_id := Some id;
     tool_name := Some "search";
     tool_call_details := DUndefined;
     event_type := Some type;
     tool_response := response;
     is_complete := None |}.

Definition raw (id type : string) (response : option JsVal) : RawToolCall :=
  RawValue (ParsedObject (payload id type response)).

(** [{id: "a", type: "call"}] and [{id: "a", type: "result", response: "42"}] *)
Definition call_a : RawToolCall :=
  RawValue
    (ParsedObject
       {| call_id := Some "a";
          tool_name := None;
          tool_call_details := DUndefined;
          event_type := Some "call";
          tool_response := None;
          is_complete := None |}).

Definition result_a : RawToolCall :=
  RawValue
    (ParsedObject
       {| call_id := Some "a";
          tool_name := None;
          tool_call_details := DUndefined;
          event_type := Some "result";
          tool_response := Some (VStr "42");
          is_complete := None |}).

Definition idle_refs : Refs :=
  {| isBackgroundTaskActiveRef := false;
     streamingStateRef := mkStreamingState None "0-0" false false 0;
     resumeSessionRef := None |}.

Definition user_says (text : string) : list ThreadMessage :=
  [mkMessage User [TextPart text] []].

(** A run in normal mode for the message ["hi"] in the chat ["c1"]. *)
Definition sample_stream_run : Run :=
  @run_start sample_externals "c1" idle_refs (user_says "hi") [] false.

(** A run that resumes the session ["s1"] at the cursor ["5-0"]. *)
Definition sample_resume_run : Run :=
  @run_start sample_externals "c1"
    (mkRefs true (mkStreamingState None "0-0" false false 0)
       (Some (mkResumeSessionInfo "s1" "5-0")))
    (user_says "hi") [] false.

(** ** Loaded history: [convertToThreadMessage] and the history adapter *)

(** An element of the [content] of a thread message: the parts of a
    yielded chunk, and images. *)
Inductive ThreadPart :=
| PartText (text : string)
| PartImage (image : string)
| PartToolCall (part : StreamingToolCallPart)
| PartReasoning (text : string).

(** [status] of an attachment. *)
Inductive AttachmentStatus :=
| RequiresAction
| Complete.

(** [PendingAttachment] and [CompleteAttachment]; [None] is a property
    that is missing. *)
Record UiAttachment := mkUiAttachment {
  ui_id : string;
  ui_type : string;
  ui_name : string;
  ui_contentType : string;
  ui_status : AttachmentStatus;
  ui_file : option File;
  ui_content : option (list ThreadPart)
}.

(** An element of [msg.attachments]. *)
Record BackendAttachment := mkBackendAttachment {
  backend_attachment_type : string;
  download_url : option string
}.

(** [BackendMessage], as far as [convertToThreadMessage] reads it. *)
Record BackendMessage := mkBackendMessage {
  message_id : string;
  sender : string;
  message_text : option string;
  has_attachments : bool;
  message_attachments : option (list BackendAttachment);
  message_thinking : option string;
  message_tool_calls : option (list ToolCall);
  created_at : option string
}.

(** [createdAt]: the date parsed from [created_at], or the time of the
    conversion. *)
Inductive CreatedAt :=
| DateOf (created : string)
| Now.

(** The [ThreadMessage] built for the history. Of an assistant message
    [status] is [{ type: "complete", reason: "stop" }], here [true]; a
    user message has none. The [metadata], constant per role, is left
    out. *)
Record HistoryMessage := mkHistoryMessage {
  history_id : string;
  history_role : Role;
  history_content : list ThreadPart;
  history_attachments : list UiAttachment;
  history_complete : bool;
  history_createdAt : CreatedAt
}.

(** [`${n}`] for an index. *)
Definition decimal (n : nat) : string :=
  NilEmpty.string_of_uint (Nat.to_uint n).

(** [attachment.attachment_type === "image" && attachment.download_url],
    as the URL when the test holds. *)
Definition image_url (a : BackendAttachment) : option string :=
  if String.eqb (backend_attachment_type a) "image"
  then match download_url a with
       | Some u => if truthy u then Some u else None
       | None => None
       end
  else None.

(** The URLs of [imageAttachments], in order. *)
Fixpoint image_urls (atts : list BackendAttachment) : list string :=
  match atts with
  | [] => []
  | a :: rest =>
      match image_url a with
      | Some u => u :: image_urls rest
      | None => image_urls rest
      end
  end.

(** The attachments pushed by [imageAttachments.forEach], from the
    index [index] on. *)
Fixpoint history_image_attachments (id : string) (index : nat)
  (urls : list string) : list UiAttachment :=
  match urls with
  | [] => []
  | u :: rest =>
      {| ui_id := id ++ "-attachment-" ++ decimal index;
         ui_type := "image";
         ui_name := "Image " ++ decimal (index + 1);
         ui_contentType := "image/*";
         ui_status := Complete;
         ui_file := None;
         ui_content := Some [PartImage u] |}
      :: history_image_attachments id (S index) rest
  end.

(** [s || ""] *)
Definition or_empty (s : option string) : string :=
  match s with
  | Some t => t
  | None => ""
  end.

Section History.
Context `{Externals}.

Definition convertToThreadMessage (msg : BackendMessage) : HistoryMessage :=
  let createdAt :=
    match created_at msg with
    | Some c => if truthy c then DateOf c else Now
    | None => Now
    end in
  if String.eqb (sender msg) "user"
  then
    let urls :=
      match message_attachments msg with
      | Some atts =>
          if (isMultimodalEnabled && has_attachments msg
              && negb (Nat.eqb (List.length atts) 0))%bool
          then image_urls atts
          else []
      | None => []
      end in
    {| history_id := message_id msg;
       history_role := User;
       history_content :=
         PartText (or_empty (message_text msg)) :: map PartImage urls;
       history_attachments :=
         history_image_attachments (message_id msg) 0 urls;
       history_complete := false;
       history_createdAt := createdAt |}
  else
    {| history_id := message_id msg;
       history_role := Assistant;
       history_content :=
         (match message_thinking msg with
          | Some t => if truthy (trim t) then [PartReasoning t] else []
          | None => []
          end)
         ++ (match message_tool_calls msg with
             | Some tcs =>
                 if negb (Nat.eqb (List.length tcs) 0)
                 then map (fun tc => PartToolCall (apiToolCallToPart tc))
                        (dedupeToolCalls tcs)
                 else []
             | None => []
             end)
         ++ [PartText (or_empty (message_text msg))];
       history_attachments := [];
       history_complete := true;
       history_createdAt := createdAt |}.

(** [converted.map((message, index) => ({ message, parentId }))], with
    [previous] the identifier of the message before [converted]. *)
Fixpoint with_parents (previous : option string)
  (converted : list HistoryMessage)
  : list (HistoryMessage * option string) :=
  match converted with
  | [] => []
  | m :: rest => (m, previous) :: with_parents (Some (history_id m)) rest
  end.

(** [load()] of the history adapter for [chatId]; [loaded] is what
    [ChatService.loadMessages(chatId, 0, 1000)] resolves with, [None]
    when it rejects. It is asked for only when [chatId] is not empty. *)
Definition history_load (chatId : string)
  (loaded : option (list BackendMessage))
  : list (HistoryMessage * option string) :=
  if truthy chatId
  then match loaded with
       | Some messages => with_parents None (map convertToThreadMessage messages)
       | None => []
       end
  else [].

End History.

(** ** The attachments adapter *)

(** [Map.prototype.delete] *)
Fixpoint map_delete {V : Type} (k : option string) (m : JsMap V) : JsMap V :=
  match m with
  | [] => []
  | (k', v) :: rest =>
      if key_eqb k k' then rest else (k', v) :: map_delete k rest
  end.

(** The state of one adapter: its [objectUrls] map, keyed by attachment
    identifier, and the URLs given to [URL.revokeObjectURL] so far. *)
Record AttachmentStore := mkAttachmentStore {
  objectUrls : JsMap string;
  revoked : list string
}.

(** [add({ file })]: [objectUrl] is what [URL.createObjectURL(file)]
    returns and [attachmentId] what [crypto.randomUUID()] returns;
    [name] and [contentType] are [file.name] and [file.type]. *)
Definition attachment_add (file : File) (name contentType : string)
  (objectUrl attachmentId : string) (st : AttachmentStore)
  : AttachmentStore * UiAttachment :=
  (mkAttachmentStore (map_set (Some attachmentId) objectUrl (objectUrls st))
     (revoked st),
   {| ui_id := attachmentId;
      ui_type := "image";
      ui_name := name;
      ui_contentType := contentType;
      ui_status := RequiresAction;
      ui_file := Some file;
      ui_content := Some [PartImage objectUrl] |}).

(** The revocation shared by [remove] and [send]. *)
Definition revoke_url (id : string) (st : AttachmentStore) : AttachmentStore :=
  match map_get (Some id) (objectUrls st) with
  | Some url =>
      if truthy url
      then mkAttachmentStore (map_delete (Some id) (objectUrls st))
             (revoked st ++ [url])
      else st
  | None => st
  end.

Definition attachment_remove (a : UiAttachment) (st : AttachmentStore)
  : AttachmentStore :=
  revoke_url (ui_id a) st.

Definition attachment_send (a : UiAttachment) (st : AttachmentStore)
  : AttachmentStore * UiAttachment :=
  (revoke_url (ui_id a) st,
   {| ui_id := ui_id a;
      ui_type := ui_type a;
      ui_name := ui_name a;
      ui_contentType := ui_contentType a;
      ui_status := Complete;
      ui_file := ui_file a;
      ui_content :=
        Some match ui_content a with
             | Some c => c
             | None => []
             end |}).

(** A call on the adapter. *)
Inductive AttachmentOp :=
| OpAdd (file : File) (name contentType objectUrl attachmentId : string)
| OpRemove (a : UiAttachment)
| OpSend (a : UiAttachment).

Definition attachment_op (st : AttachmentStore) (op : AttachmentOp)
  : AttachmentStore :=
  match op with
  | OpAdd file name contentType objectUrl attachmentId =>
      fst (attachment_add file name contentType objectUrl attachmentId st)
  | OpRemove a => attachment_remove a st
  | OpSend a => fst (attachment_send a st)
  end.

(** The URLs and the identifiers the [add] calls of a list were given. *)
Definition created_urls (ops : list AttachmentOp) : list string :=
  flat_map
    (fun op => match op with OpAdd _ _ _ u _ => [u] | _ => [] end) ops.

Definition created_ids (ops : list AttachmentOp) : list string :=
  flat_map
    (fun op => match op with OpAdd _ _ _ _ i => [i] | _ => [] end) ops.

(** ** Resume detection: [resumeActiveSession] and [checkAndResume] *)

(** [SessionInfo] of [@/lib/types/session], as far as it is read. *)
Record SessionInfo := mkSessionInfo {
  info_sessionId : string;
  info_cursor : option string;
  info_status : string
}.

(** A message of the thread, with its identifier. *)
Record ThreadItem := mkThreadItem {
  item_id : string;
  item_message : ThreadMessage
}.

(** What the detector does to the world around it, in order: it writes
    [resumeSessionRef.current], it calls [setIsBackgroundTaskActive], it
    asks the backend for the active session, it calls
    [thread.startRun]. *)
Inductive DetectorAction :=
| SetResumeSession (request : option ResumeSessionInfo)
| SetBackgroundTask (active : bool)
| DetectActiveSession (chatId : string)
| StartRun (messageId : string).

(** [resumeActiveSession(sessionInfo, runtime)] of the hook made for
    [chatId]. [thread] is [None] when [runtime.thread] is missing, and
    else the messages of the thread once the wait for the history is
    over; [startRunOk] tells whether [thread.startRun] resolves. *)
Definition resumeActiveSession (chatId : string) (sessionInfo : SessionInfo)
  (thread : option (list ThreadItem)) (startRunOk : bool)
  : list DetectorAction :=
  if truthy chatId
  then
    SetResumeSession
      (Some
         {| resume_sessionId := info_sessionId sessionInfo;
            resume_cursor :=
              match info_cursor sessionInfo with
              | Some c => if truthy c then c else "0-0"
              | None => "0-0"
              end |})
    :: SetBackgroundTask true
    :: match thread with
       | None => [SetBackgroundTask false]
       | Some messages =>
           match last (map Some messages) None with
           | Some lastMsg =>
               match role (item_message lastMsg) with
               | User =>
                   if startRunOk
                   then [StartRun (item_id lastMsg); SetBackgroundTask false]
                   else [StartRun (item_id lastMsg); SetResumeSession None;
                         SetBackgroundTask false]
               | _ => [SetBackgroundTask false]
               end
           | None => [SetBackgroundTask false]
           end
       end
  else [].

(** [checkAndResume()]. [detected] is what
    [ChatService.detectActiveSession(chatId)] gives: [None] when it
    rejects, [Some None] when there is no session. [mounted] and
    [mountedLater] tell whether the component is mounted after the
    detection and after the wait for the history. *)
Definition checkAndResume (chatId : string)
  (detected : option (option SessionInfo)) (mounted : bool)
  (thread : option (list ThreadItem)) (mountedLater : bool)
  (startRunOk : bool) : list DetectorAction :=
  if truthy chatId
  then
    DetectActiveSession chatId
    :: match detected with
       | Some (Some activeSession) =>
           if mounted
           then
             if String.eqb (info_status activeSession) "active"
             then
               match thread with
               | Some _ =>
                   if mountedLater
                   then resumeActiveSession chatId activeSession thread
                          startRunOk
                   else []
               | None => []
               end
             else []
           else []
       | _ => []
       end
  else [].

(** What an action leaves in the references of the adapter; the ref of
    the background task follows the state set by
    [setIsBackgroundTaskActive] through its effect. *)
Definition detector_apply (rf : Refs) (a : DetectorAction) : Refs :=
  match a with
  | SetResumeSession request =>
      mkRefs (isBackgroundTaskActiveRef rf) (streamingStateRef rf) request
  | SetBackgroundTask active =>
      mkRefs active (streamingStateRef rf) (resumeSessionRef rf)
  | _ => rf
  end.

Definition is_start_run (a : DetectorAction) : bool :=
  match a with
  | StartRun _ => true
  | _ => false
  end.

(** ** The pending message of the new-chat page *)

Inductive PendingAction :=
| ComposerSetText (text : string)
| ComposerSend
| ToastError
| ClearPendingMessage.

(** How the [try] of [sendPendingMessage] goes once the composer is
    there. *)
Inductive SendOutcome :=
| SendResolves
| SetTextThrows
| SendRejects.

(** One run of the effect of [usePendingMessageHandler]: the new value
    of [hasSentPendingMessage.current] and what is done. [thread] and
    [composer] tell whether [runtime.thread] and [thread.composer] are
    there. *)
Definition pending_message_effect (pendingMessage : option string)
  (chatId : string) (hasSent : bool) (thread composer : bool)
  (outcome : SendOutcome) : bool * list PendingAction :=
  match pendingMessage with
  | Some text =>
      if (truthy text && truthy chatId && negb hasSent)%bool
      then
        (true,
         if thread
         then
           if composer
           then
             match outcome with
             | SendResolves =>
                 [ComposerSetText text; ComposerSend; ClearPendingMessage]
             | SetTextThrows =>
                 [ComposerSetText text; ToastError; ClearPendingMessage]
             | SendRejects =>
                 [ComposerSetText text; ComposerSend; ToastError;
                  ClearPendingMessage]
             end
           else [ClearPendingMessage]
         else [ClearPendingMessage])
      else (hasSent, [])
  | None => (hasSent, [])
  end.

Definition is_clear (a : PendingAction) : bool :=
  match a with
  | ClearPendingMessage => true
  | _ => false
  end.

Definition is_send (a : PendingAction) : bool :=
  match a with
  | ComposerSend => true
  | _ => false
  end.

(** ** More ways to read a trace *)

(** The end of the sequence: it returns or it throws. *)
Definition is_end (o : Obs) : bool :=
  match o with
  | Returned | Threw _ => true
  | _ => false
  end.

(** What a trace holds after the first end of the sequence. *)
Fixpoint after_end (t : list Obs) : list Obs :=
  match t with
  | [] => []
  | o :: rest => if is_end o then rest else after_end rest
  end.

(** A mark of something done to the run, not by it. *)
Definition is_mark (o : Obs) : bool :=
  match o with
  | Cancelled | BackendSettled => true
  | _ => false
  end.

(** The last payload of a list that carries the identifier [k]. *)
Fixpoint last_for (k : option string) (tcs : list ToolCall) : option ToolCall :=
  match tcs with
  | [] => None
  | tc :: rest =>
      match last_for k rest with
      | Some later => Some later
      | None => if key_eqb (call_id tc) k then Some tc else None
      end
  end.

(** The first payload of a list that carries the identifier [k], and
    the payloads for [k] that come after it. *)
Fixpoint first_for (k : option string) (tcs : list ToolCall)
  : option (ToolCall * list ToolCall) :=
  match tcs with
  | [] => None
  | tc :: rest =>
      if key_eqb (call_id tc) k
      then Some (tc, filter (fun t => key_eqb (call_id t) k) rest)
      else first_for k rest
  end.

(** The record has arguments that are an object. *)
Definition has_object_args (p : StreamingToolCallPart) : bool :=
  is_object (args p).

(** What [dedupeToolCalls] makes of the entry [current] of an
    identifier when a later payload [tc] for it comes. *)
Definition absorb (current tc : ToolCall) : ToolCall :=
  if is_final_event (event_type tc) then merge_final current tc else current.

(** A payload whose event type is not final for [dedupeToolCalls]. *)
Definition not_final (tc : ToolCall) : bool :=
  negb (is_final_event (event_type tc)).

(** Whether a payload carries the identifier [k]. *)
Definition carries (k : option string) (tc : ToolCall) : bool :=
  key_eqb k (call_id tc).

(** Whether the generator of normal mode is still in its [while] loop. *)
Definition in_loop (p : StreamPos) : bool :=
  match p with
  | AtRace _ _ | AtYield => true
  | AtFinalYield | Finished => false
  end.

(** Whether the generator of normal mode has ended. *)
Definition is_finished (p : StreamPos) : bool :=
  match p with
  | Finished => true
  | _ => false
  end.

(** Whether the generator of a run has ended; a run that threw before
    it made one counts as ended. *)
Definition generator_ended (r : Run) : bool :=
  match mode r with
  | NotRunning => true
  | Streaming s => (is_finished (pos s) && negb (listening s))%bool
  | Resuming q =>
      match resumePos q with
      | ResumeFinished => true
      | _ => false
      end
  end.

(** The chunks a run in normal mode may still owe for the updates it
    has: one when [hasUpdate] is set inside the loop. *)
Definition owed (s : Stream) : nat :=
  if (in_loop (pos s) && hasUpdate s)%bool then 1 else 0.

(** The chunks a run may have yielded beyond one per update: the final
    one, outside the loop. *)
Definition final_allowance (s : Stream) : nat :=
  if in_loop (pos s) then 0 else 1.

(** The chunks a resume loop holds in its queue or in the promise it
    awaits. *)
Definition held (q : Resume) : nat :=
  List.length (queue q)
  + match awaited q, resumePos q with
    | Some (Some _), AtWait => 1
    | _, _ => 0
    end.

(** The [StopMessage] calls of a run so far are one when its generator
    has run [handleAbort], and none else. *)
Definition stops_match (r : Run) : Prop :=
  match mode r with
  | Streaming s => stop_count (trace r) = if aborted s then 1 else 0
  | _ => stop_count (trace r) = 0
  end.

(** Whether the sequence of a run has ended. *)
Definition has_ended (t : list Obs) : bool := existsb is_end t.

(** After the end of its sequence a run has done nothing, and its
    generator has ended. *)
Definition ends_once (r : Run) : Prop :=
  forallb is_mark (after_end (trace r)) = true
  /\ (has_ended (trace r) = true -> generator_ended r = true).

(** The chunks yielded so far against the number of updates so far. *)
Definition chunks_bounded (updates : nat) (r : Run) : Prop :=
  match mode r with
  | NotRunning => yields (trace r) = []
  | Streaming s =>
      List.length (yields (trace r)) + owed s <= updates + final_allowance s
  | Resuming q => List.length (yields (trace r)) + held q <= updates
  end.

(** Whether an event is a call of the progress callback. *)
Definition is_update (e : Event) : bool :=
  match e with
  | OnUpdate _ _ _ => true
  | _ => false
  end.

(** * Properties *)

(** ** White space *)

Ltac bytes_to_prop H :=
  repeat first
    [ rewrite orb_true_iff in H
    | rewrite andb_true_iff in H
    | rewrite Nat.eqb_eq in H
    | rewrite Nat.leb_le in H ].

Ltac not_space :=
  apply not_true_iff_false;
  let G := fresh "G" in
  intro G; bytes_to_prop G; lia.

Lemma is_space2_first (a b : ascii) :
  is_space2 a b = true -> is_space1 a = false.
Proof.
  unfold is_space1, is_space2. cbv zeta. intro S. bytes_to_prop S. not_space.
Qed.

Lemma is_space3_first (a b c : ascii) :
  is_space3 a b c = true -> is_space1 a = false /\ is_space2 a b = false.
Proof.
  unfold is_space1, is_space2, is_space3. cbv zeta. intro S.
  bytes_to_prop S. split; not_space.
Qed.

Lemma drop_spaces_space (w l : list ascii) :
  js_space w = true -> drop_spaces (w ++ l) = drop_spaces l.
Proof.
  destruct w as [|a [|b [|c [|d w]]]]; try discriminate; simpl; intro S.
  - now rewrite S.
  - now rewrite (is_space2_first _ _ S), S.
  - destruct (is_space3_first _ _ _ S) as [S1 S2]. now rewrite S1, S2, S.
Qed.

Lemma drop_spaces_blank (ws : list (list ascii)) :
  forallb js_space ws = true -> drop_spaces (List.concat ws) = [].
Proof.
  induction ws as [|w ws IH]; simpl; [reflexivity|].
  intro F. apply andb_true_iff in F. destruct F as [Fw F].
  rewrite drop_spaces_space by exact Fw. now apply IH.
Qed.

(** What [drop_spaces] removes is white space. *)
Lemma drop_spaces_prefix (n : nat) (l : list ascii) :
  List.length l <= n ->
  exists ws,
    forallb js_space ws = true /\ l = List.concat ws ++ drop_spaces l.
Proof.
  revert l. induction n as [|n IH]; intros l L.
  - destruct l; [|simpl in L; lia]. now exists [].
  - destruct l as [|a l1]; [now exists []|]. simpl in L. simpl drop_spaces.
    destruct (is_space1 a) eqn:S1.
    { destruct (IH l1) as [ws [F E]]; [lia|].
      exists ([a] :: ws). simpl. rewrite S1, F. split; [reflexivity|].
      now rewrite <- E. }
    destruct l1 as [|b l2]; [now exists []|]. simpl in L.
    destruct (is_space2 a b) eqn:S2.
    { destruct (IH l2) as [ws [F E]]; [lia|].
      exists ([a; b] :: ws). simpl. rewrite S2, F. split; [reflexivity|].
      now rewrite <- E. }
    destruct l2 as [|c l3]; [now exists []|]. simpl in L.
    destruct (is_space3 a b c) eqn:S3; [|now exists []].
    destruct (IH l3) as [ws [F E]]; [lia|].
    exists ([a; b; c] :: ws). simpl. rewrite S3, F. split; [reflexivity|].
    now rewrite <- E.
Qed.

Lemma drop_spaces_reversed_prefix (n : nat) (l : list ascii) :
  List.length l <= n ->
  exists ws,
    forallb js_space ws = true
    /\ l = List.concat (map (@rev ascii) ws) ++ drop_spaces_reversed l.
Proof.
  revert l. induction n as [|n IH]; intros l L.
  - destruct l; [|simpl in L; lia]. now exists [].
  - destruct l as [|a l1]; [now exists []|]. simpl in L.
    simpl drop_spaces_reversed.
    destruct (is_space1 a) eqn:S1.
    { destruct (IH l1) as [ws [F E]]; [lia|].
      exists ([a] :: ws). simpl. rewrite S1, F. split; [reflexivity|].
      now rewrite <- E. }
    destruct l1 as [|b l2]; [now exists []|]. simpl in L.
    destruct (is_space2 b a) eqn:S2.
    { destruct (IH l2) as [ws [F E]]; [lia|].
      exists ([b; a] :: ws). simpl. rewrite S2, F. split; [reflexivity|].
      now rewrite <- E. }
    destruct l2 as [|c l3]; [now exists []|]. simpl in L.
    destruct (is_space3 c b a) eqn:S3; [|now exists []].
    destruct (IH l3) as [ws [F E]]; [lia|].
    exists ([c; b; a] :: ws). simpl. rewrite S3, F. split; [reflexivity|].
    now rewrite <- E.
Qed.

Lemma rev_concat_rev (ws : list (list ascii)) :
  rev (List.concat (map (@rev ascii) ws)) = List.concat (rev ws).
Proof.
  induction ws as [|w ws IH]; simpl; [reflexivity|].
  rewrite rev_app_distr, IH, rev_involutive, concat_app. simpl.
  now rewrite app_nil_r.
Qed.

Lemma forallb_rev {A : Type} (f : A -> bool) (l : list A) :
  forallb f (rev l) = forallb f l.
Proof.
  induction l as [|x l IH]; simpl; [reflexivity|].
  rewrite forallb_app, IH. simpl. rewrite andb_true_r. apply andb_comm.
Qed.

(** What [trim] decides in the code, whether anything is left of the
    string: nothing is left exactly of the strings made of white space
    only, the empty string among them. *)
Lemma trim_blank (s : string) : trim s = "" <-> blank s.
Proof.
  unfold trim, blank. split.
  - intro T.
    destruct (drop_spaces_prefix _ (list_ascii_of_string s) (le_n _))
      as [ws1 [F1 E1]].
    destruct (drop_spaces_reversed_prefix _
                (rev (drop_spaces (list_ascii_of_string s))) (le_n _))
      as [ws2 [F2 E2]].
    assert (D : drop_spaces_reversed
                  (rev (drop_spaces (list_ascii_of_string s))) = []).
    { destruct (drop_spaces_reversed
                  (rev (drop_spaces (list_ascii_of_string s))))
        as [|x r]; [reflexivity|].
      simpl in T. destruct (rev r ++ [x]) eqn:R; [|discriminate T].
      now destruct (rev r). }
    rewrite D, app_nil_r in E2.
    apply (f_equal (@rev ascii)) in E2.
    rewrite rev_involutive, rev_concat_rev in E2.
    exists (ws1 ++ rev ws2). split.
    + now rewrite forallb_app, F1, forallb_rev, F2.
    + now rewrite concat_app, <- E2.
  - intros [ws [F E]]. rewrite E, drop_spaces_blank by exact F. reflexivity.
Qed.

Lemma truthy_trim (s : string) : truthy (trim s) = false <-> blank s.
Proof.
  rewrite <- trim_blank. unfold truthy. rewrite negb_false_iff.
  apply String.eqb_eq.
Qed.

(** The white space beyond ASCII is white space: a no-break space, a
    line separator and a byte-order mark around tabs and spaces leave
    nothing, and around a word they leave the word. *)
Lemma trim_unicode_spaces :
  blank (no_break_space ++ "  " ++ line_separator ++ byte_order_mark)%string
  /\ trim (byte_order_mark ++ " a b " ++ no_break_space ++ line_separator)%string
     = "a b".
Proof.
  split; [|reflexivity].
  apply trim_blank. reflexivity.
Qed.

(** ** The ordered map *)

Lemma key_eqb_true (a b : option string) : key_eqb a b = true <-> a = b.
Proof.
  destruct a as [x|], b as [y|]; simpl; split; intro E;
    try discriminate; try reflexivity.
  - apply String.eqb_eq in E. now subst.
  - injection E as ->. apply String.eqb_refl.
Qed.

Lemma key_eqb_refl (a : option string) : key_eqb a a = true.
Proof. now apply key_eqb_true. Qed.

Lemma key_eqb_false (a b : option string) : key_eqb a b = false <-> a <> b.
Proof.
  split.
  - intros E ->. rewrite key_eqb_refl in E. discriminate.
  - intro N. destruct (key_eqb a b) eqn:E; [|reflexivity].
    apply key_eqb_true in E. contradiction.
Qed.

Section MapFacts.
Variable V : Type.
Implicit Types (m : JsMap V) (k : option string) (v : V).

Lemma map_get_set_same m k v : map_get k (map_set k v m) = Some v.
Proof.
  induction m as [|[k' v'] m IH]; simpl.
  - now rewrite key_eqb_refl.
  - destruct (key_eqb k k') eqn:E; simpl.
    + now rewrite key_eqb_refl.
    + now rewrite E.
Qed.

Lemma map_get_set_other m k k' v :
  k <> k' -> map_get k (map_set k' v m) = map_get k m.
Proof.
  intro N. induction m as [|[k0 v0] m IH]; simpl.
  - apply key_eqb_false in N. now rewrite N.
  - destruct (key_eqb k' k0) eqn:E; simpl.
    + apply key_eqb_true in E. subst k0.
      apply key_eqb_false in N. now rewrite N.
    + now rewrite IH.
Qed.

Lemma map_get_in_keys m k : map_get k m <> None <-> In k (map_keys m).
Proof.
  induction m as [|[k' v'] m IH]; simpl.
  - tauto.
  - destruct (key_eqb k k') eqn:E.
    + apply key_eqb_true in E. subst. split; [auto | discriminate].
    + apply key_eqb_false in E. rewrite IH. split; [auto|].
      intros [E'|I]; [congruence | exact I].
Qed.

Lemma map_get_none_keys m k : map_get k m = None <-> ~ In k (map_keys m).
Proof.
  rewrite <- map_get_in_keys. destruct (map_get k m); split; try congruence.
  intro N. exfalso. apply N. discriminate.
Qed.

Lemma map_keys_set_present m k v :
  In k (map_keys m) -> map_keys (map_set k v m) = map_keys m.
Proof.
  induction m as [|[k' v'] m IH]; simpl; [tauto|].
  intros I. destruct (key_eqb k k') eqn:E; simpl.
  - apply key_eqb_true in E. now subst.
  - apply key_eqb_false in E. f_equal. apply IH.
    destruct I as [E'|I]; [congruence | exact I].
Qed.

Lemma map_keys_set_absent m k v :
  ~ In k (map_keys m) -> map_keys (map_set k v m) = map_keys m ++ [k].
Proof.
  induction m as [|[k' v'] m IH]; simpl; [reflexivity|].
  intros N. destruct (key_eqb k k') eqn:E; simpl.
  - apply key_eqb_true in E. subst. exfalso. apply N. now left.
  - f_equal. apply IH. intro I. apply N. now right.
Qed.

Lemma map_keys_set_in m k k' v :
  In k (map_keys (map_set k' v m)) <-> k = k' \/ In k (map_keys m).
Proof.
  destruct (map_get k' m) eqn:G.
  - assert (I : In k' (map_keys m)) by (apply map_get_in_keys; congruence).
    rewrite map_keys_set_present by exact I. split; [auto|].
    intros [->|I']; assumption.
  - apply map_get_none_keys in G. rename G into N.
    rewrite map_keys_set_absent by exact N. rewrite in_app_iff. simpl.
    split; [intros [I|[E|[]]]; auto | intros [E|I]; auto].
Qed.

Lemma map_keys_set_nodup m k v :
  NoDup (map_keys m) -> NoDup (map_keys (map_set k v m)).
Proof.
  intro ND.
  destruct (map_get k m) eqn:G.
  - rewrite map_keys_set_present; [exact ND|].
    apply map_get_in_keys. congruence.
  - apply map_get_none_keys in G. rewrite map_keys_set_absent by exact G.
    apply NoDup_app; [exact ND | repeat constructor; auto | ].
    intros x Ix [<-|[]]. contradiction.
Qed.

End MapFacts.

Arguments map_get_set_same {V} m k v.
Arguments map_get_set_other {V} m k k' v.
Arguments map_get_in_keys {V} m k.
Arguments map_get_none_keys {V} m k.
Arguments map_keys_set_present {V} m k v.
Arguments map_keys_set_absent {V} m k v.
Arguments map_keys_set_in {V} m k k' v.
Arguments map_keys_set_nodup {V} m k v.

(** ** The reconciler *)

Section ReconcilerFacts.
Context `{Externals}.

(** What [mergeToolCall] leaves under the identifier of its payload. *)
Lemma mergeToolCall_get (m : ToolCallMap) (tc : ToolCall) :
  exists p,
    map_get (call_id tc) (mergeToolCall m tc) = Some p
    /\ streamState p
       = Some (mkResult (event_type tc) (tool_response tc)
                 (tool_call_details tc))
    /\ result p
       = (if is_result_or_error (event_type tc) then streamState p else None)
    /\ isError p
       = Some (if is_result_or_error (event_type tc)
               then is_error (event_type tc) else false)
    /\ toolCallId p
       = match map_get (call_id tc) m with
         | Some q => toolCallId q
         | None => call_id tc
         end.
Proof.
  unfold mergeToolCall. eexists. split; [apply map_get_set_same|].
  simpl. repeat split. destruct (map_get (call_id tc) m); reflexivity.
Qed.

Lemma mergeToolCall_other (m : ToolCallMap) (tc : ToolCall) k :
  call_id tc <> k -> map_get k (mergeToolCall m tc) = map_get k m.
Proof.
  intro N. unfold mergeToolCall. apply map_get_set_other. congruence.
Qed.

Lemma mergeToolCall_keys_in (m : ToolCallMap) (tc : ToolCall) k :
  In k (map_keys (mergeToolCall m tc)) <-> k = call_id tc \/ In k (map_keys m).
Proof. unfold mergeToolCall. apply map_keys_set_in. Qed.

Lemma mergeToolCall_nodup (m : ToolCallMap) (tc : ToolCall) :
  NoDup (map_keys m) -> NoDup (map_keys (mergeToolCall m tc)).
Proof. unfold mergeToolCall. apply map_keys_set_nodup. Qed.

(** Applying raw payloads is merging the ones that are applied. *)
Lemma applyToolCalls_applied (raws : list RawToolCall) (m : ToolCallMap) :
  applyToolCalls m raws = fold_left mergeToolCall (applied raws) m.
Proof.
  unfold applyToolCalls, applied. revert m.
  induction raws as [|r raws IH]; intro m; simpl; [reflexivity|].
  rewrite fold_left_app, IH. unfold applyToolCall.
  destruct (destructure r); reflexivity.
Qed.

Lemma applied_app (a b : list RawToolCall) :
  applied (a ++ b) = applied a ++ applied b.
Proof. unfold applied. apply flat_map_app. Qed.

Lemma reconcile_from (events : list (list RawToolCall)) (m : ToolCallMap) :
  fold_left applyToolCalls events m
  = fold_left mergeToolCall (applied (List.concat events)) m.
Proof.
  revert m. induction events as [|e events IH]; intro m; simpl.
  - reflexivity.
  - rewrite IH, applied_app, fold_left_app, applyToolCalls_applied.
    reflexivity.
Qed.

Lemma reconcile_applied (events : list (list RawToolCall)) :
  reconcile events = fold_left mergeToolCall (applied (List.concat events)) [].
Proof. apply reconcile_from. Qed.

Lemma reconcile_snoc (events : list (list RawToolCall)) (e : list RawToolCall) :
  reconcile (events ++ [e]) = applyToolCalls (reconcile events) e.
Proof. unfold reconcile. now rewrite fold_left_app. Qed.

Lemma merge_all_other (tcs : list ToolCall) (m : ToolCallMap) k :
  (forall tc, In tc tcs -> call_id tc <> k) ->
  map_get k (fold_left mergeToolCall tcs m) = map_get k m.
Proof.
  revert m. induction tcs as [|tc tcs IH]; intros m A; simpl; [reflexivity|].
  rewrite IH by (intros; apply A; now right).
  apply mergeToolCall_other, A. now left.
Qed.

Lemma merge_all_nodup (tcs : list ToolCall) (m : ToolCallMap) :
  NoDup (map_keys m) -> NoDup (map_keys (fold_left mergeToolCall tcs m)).
Proof.
  revert m. induction tcs as [|tc tcs IH]; intros m ND; simpl; [exact ND|].
  apply IH, mergeToolCall_nodup, ND.
Qed.

Lemma merge_all_keys_in (tcs : list ToolCall) (m : ToolCallMap) k :
  In k (map_keys (fold_left mergeToolCall tcs m))
  <-> In k (map_keys m) \/ exists tc, In tc tcs /\ call_id tc = k.
Proof.
  revert m. induction tcs as [|tc tcs IH]; intro m; simpl.
  - split; [auto | intros [I|[tc [[] _]]]; exact I].
  - rewrite IH, mergeToolCall_keys_in. split.
    + intros [[E|I]|[tc' [I E]]]; eauto.
    + intros [I|[tc' [[E|I] E']]]; subst; eauto.
Qed.

Lemma mergeToolCall_keyed (m : ToolCallMap) (tc : ToolCall) :
  keyed_by_id m -> keyed_by_id (mergeToolCall m tc).
Proof.
  intros K k p G.
  destruct (key_eqb (call_id tc) k) eqn:E.
  - apply key_eqb_true in E. subst k.
    destruct (mergeToolCall_get m tc) as [q [Gq [_ [_ [_ Tq]]]]].
    rewrite Gq in G. injection G as <-. rewrite Tq.
    destruct (map_get (call_id tc) m) eqn:G'; [now apply K | reflexivity].
  - apply key_eqb_false in E. rewrite mergeToolCall_other in G by exact E.
    now apply K.
Qed.

Lemma merge_all_keyed (tcs : list ToolCall) (m : ToolCallMap) :
  keyed_by_id m -> keyed_by_id (fold_left mergeToolCall tcs m).
Proof.
  revert m. induction tcs as [|tc tcs IH]; intros m K; simpl; [exact K|].
  apply IH, mergeToolCall_keyed, K.
Qed.

End ReconcilerFacts.

(** ** First-seen order *)

Lemma seen_in ks k : seen ks k = true <-> In k ks.
Proof.
  unfold seen. rewrite existsb_exists. split.
  - intros [x [I E]]. apply key_eqb_true in E. now subst.
  - intro I. exists k. split; [exact I | apply key_eqb_refl].
Qed.

Lemma seen_not_in ks k : seen ks k = false <-> ~ In k ks.
Proof.
  rewrite <- seen_in. destruct (seen ks k); split; congruence.
Qed.

Lemma filter_unseen_present ks k (l : list (option string)) :
  In k ks ->
  filter (fun x => negb (seen ks x)) (filter (fun x => negb (key_eqb x k)) l)
  = filter (fun x => negb (seen ks x)) l.
Proof.
  intro I. induction l as [|x l IH]; simpl; [reflexivity|].
  destruct (key_eqb x k) eqn:E; simpl.
  - apply key_eqb_true in E. subst x.
    apply seen_in in I. rewrite I. simpl. exact IH.
  - now rewrite IH.
Qed.

Lemma filter_unseen_absent ks k (l : list (option string)) :
  filter (fun x => negb (seen (ks ++ [k]) x)) l
  = filter (fun x => negb (seen ks x)) (filter (fun x => negb (key_eqb x k)) l).
Proof.
  induction l as [|x l IH]; simpl; [reflexivity|].
  unfold seen at 1. rewrite existsb_app. simpl. rewrite orb_false_r.
  fold (seen ks x). destruct (key_eqb x k) eqn:E; simpl.
  - rewrite orb_true_r. simpl. exact IH.
  - rewrite orb_false_r. destruct (seen ks x); simpl; now rewrite IH.
Qed.

Lemma first_seen_in ids k : In k (first_seen ids) <-> In k ids.
Proof.
  induction ids as [|x ids IH]; simpl; [tauto|].
  rewrite filter_In, IH. split.
  - intros [E|[I _]]; auto.
  - intros [E|I]; [now left|].
    destruct (key_eqb k x) eqn:E.
    + apply key_eqb_true in E. now left.
    + right. now split.
Qed.

Lemma first_seen_nodup ids : NoDup (first_seen ids).
Proof.
  induction ids as [|x ids IH]; simpl; constructor.
  - rewrite filter_In. intros [_ E]. now rewrite key_eqb_refl in E.
  - now apply NoDup_filter.
Qed.

Section FirstSeen.
Context `{Externals}.

Lemma merge_all_keys (tcs : list ToolCall) (m : ToolCallMap) :
  map_keys (fold_left mergeToolCall tcs m)
  = map_keys m
    ++ filter (fun k => negb (seen (map_keys m) k))
         (first_seen (map call_id tcs)).
Proof.
  revert m. induction tcs as [|tc tcs IH]; intro m; simpl.
  - now rewrite app_nil_r.
  - rewrite IH. unfold mergeToolCall.
    set (next := mkPart _ _ _ _ _ _ _).
    destruct (seen (map_keys m) (call_id tc)) eqn:S; simpl.
    + apply seen_in in S.
      rewrite map_keys_set_present by exact S.
      now rewrite filter_unseen_present.
    + apply seen_not_in in S.
      rewrite map_keys_set_absent by exact S.
      rewrite <- app_assoc. simpl. now rewrite filter_unseen_absent.
Qed.

(** The records of a reconciled stream come in the order their
    identifiers are first seen. *)
Lemma reconcile_keys (events : list (list RawToolCall)) :
  map_keys (reconcile events)
  = first_seen (map call_id (applied (List.concat events))).
Proof.
  rewrite reconcile_applied, merge_all_keys. simpl.
  induction (first_seen _) as [|x l IH]; simpl; [reflexivity|].
  now rewrite IH.
Qed.

End FirstSeen.

(** ** Event-type classification (C1) *)

(** C1. The claim holds for ["result"] and ["error"] and fails for
    ["delegation_result"]: a payload of that type, applied to any map by
    the merge that both progress callbacks run, leaves its record
    pending (no terminal result, error flag off), so that the chunk
    yielded for it in normal mode and in resume mode shows a pending
    call; [dedupeToolCalls] takes the same type as final, as it takes
    ["result"], and unlike a type that is not final. *)
Theorem delegation_result_is_left_pending `{Externals} :
  forall (m : ToolCallMap) (response : option JsVal),
    (exists p : StreamingToolCallPart,
        map_get (Some "a")
          (applyToolCall m (raw "a" "delegation_result" response))
        = Some p
        /\ result p = None
        /\ isError p = Some false)
    /\ (exists p : StreamingToolCallPart,
           yields
             (trace
                (@run_events sample_externals sample_stream_run
                   [OnUpdate "" [raw "a" "delegation_result" response]
                      ThinkingUndefined; Tick]))
           = [[ToolCallPart p]]
           /\ result p = None)
    /\ (exists p : StreamingToolCallPart,
           yields
             (trace
                (@run_events sample_externals sample_resume_run
                   [OnUpdate "" [raw "a" "delegation_result" response]
                      ThinkingUndefined; Tick]))
           = [[ToolCallPart p; Text ""]]
           /\ result p = None)
    /\ dedupeToolCalls
         [payload "a" "call" None; payload "a" "delegation_result" response]
       = [payload "a" "delegation_result" response]
    /\ dedupeToolCalls
         [payload "a" "call" None; payload "a" "result" response]
       = [payload "a" "result" response]
    /\ dedupeToolCalls
         [payload "a" "call" None; payload "a" "progress" response]
       = [payload "a" "call" None].
Proof.
  intros m response. split; [|split; [|split; [|split; [|split]]]].
  - unfold applyToolCall, raw. simpl destructure.
    destruct (mergeToolCall_get m (payload "a" "delegation_result" response))
      as [p [G [_ [R [E _]]]]].
    exists p. simpl in G, R, E. now repeat split.
  - eexists. split; reflexivity.
  - eexists. split; reflexivity.
  - reflexivity.
  - reflexivity.
  - reflexivity.
Qed.

(** The part of the classification that holds: what a payload leaves in
    its record, for every event type. *)
Lemma stream_classification `{Externals} (m : ToolCallMap) (tc : ToolCall) :
  exists p,
    map_get (call_id tc) (mergeToolCall m tc) = Some p
    /\ (event_type tc = Some "result" ->
        result p = streamState p /\ result p <> None
        /\ isError p = Some false)
    /\ (event_type tc = Some "error" ->
        result p = streamState p /\ result p <> None
        /\ isError p = Some true)
    /\ (event_type tc <> Some "result" -> event_type tc <> Some "error" ->
        result p = None /\ isError p = Some false).
Proof.
  destruct (mergeToolCall_get m tc) as [p [G [S [R [E _]]]]].
  exists p. split; [exact G|].
  split; [|split].
  - intro T. rewrite T in R, E. simpl in R, E.
    split; [exact R | split; [rewrite R, S; discriminate | exact E]].
  - intro T. rewrite T in R, E. simpl in R, E.
    split; [exact R | split; [rewrite R, S; discriminate | exact E]].
  - intros N1 N2.
    assert (F : is_result_or_error (event_type tc) = false).
    { destruct (event_type tc) as [s|]; simpl; [|reflexivity].
      apply orb_false_iff. split; apply String.eqb_neq; congruence. }
    rewrite F in R, E. now split.
Qed.

(** ** Monotonicity (C2) *)

(** C2, as stated, fails: the record of ["a"] holds a terminal result
    after a ["result"] event, and a later ["call"] event for ["a"] puts
    it back to pending. *)
Lemma terminal_record_reverted_by_same_id :
  ~ (forall (m : ToolCallMap) (later : RawToolCall) k p,
        map_get k m = Some p -> result p <> None ->
        exists q,
          map_get k (@applyToolCall sample_externals m later) = Some q
          /\ result q <> None).
Proof.
  intro C.
  destruct (C (@applyToolCalls sample_externals [] [result_a]) call_a
              (Some "a")
              (mkPart (Some "a") None (VObj []) "{}"
                 (Some (mkResult (Some "result") (Some (VStr "42")) DUndefined))
                 (Some (mkResult (Some "result") (Some (VStr "42")) DUndefined))
                 (Some false)))
    as [q [G R]].
  - reflexivity.
  - discriminate.
  - vm_compute in G. injection G as <-. now apply R.
Qed.

Lemma not_final_not_terminal (e : option string) :
  is_final_event e = false -> is_result_or_error e = false.
Proof.
  destruct e as [s|]; simpl; [|reflexivity].
  destruct (String.eqb s "result"), (String.eqb s "error"),
    (String.eqb s "delegation_result"); simpl; congruence.
Qed.

(** C2, amended. Once the record of a call identifier holds a terminal
    result, later events for other identifiers leave that record as it
    is; a later event of the same identifier whose type is not final
    (none of ["result"], ["delegation_result"], ["error"]) clears its
    result and its error flag. *)
Theorem terminal_record_kept_by_other_ids `{Externals} :
  forall (m : ToolCallMap) k p (later : list RawToolCall),
    map_get k m = Some p ->
    result p <> None ->
    (forall tc, In tc (applied later) -> call_id tc <> k) ->
    map_get k (applyToolCalls m later) = Some p
    /\ forall tc,
         call_id tc = k ->
         is_final_event (event_type tc) = false ->
         exists q,
           map_get k (mergeToolCall (applyToolCalls m later) tc) = Some q
           /\ result q = None
           /\ isError q = Some false.
Proof.
  intros m k p later G _ A. split.
  - rewrite applyToolCalls_applied, merge_all_other; assumption.
  - intros tc <- F. apply not_final_not_terminal in F.
    destruct (mergeToolCall_get (applyToolCalls m later) tc)
      as [q [Gq [_ [R [E _]]]]].
    rewrite F in R, E. now exists q.
Qed.

Lemma terminal_record_kept_by_other_ids_witness :
  map_get (Some "a")
    (@applyToolCalls sample_externals
       (@applyToolCalls sample_externals [] [result_a])
       [raw "b" "call" None; raw "c" "progress" None])
  = map_get (Some "a") (@applyToolCalls sample_externals [] [result_a])
  /\ exists q,
       map_get (Some "a")
         (@mergeToolCall sample_externals
            (@applyToolCalls sample_externals
               (@applyToolCalls sample_externals [] [result_a])
               [raw "b" "call" None; raw "c" "progress" None])
            (payload "a" "call" None))
       = Some q
       /\ result q = None
       /\ isError q = Some false.
Proof.
  assert (N : result
                (mkPart (Some "a") None (VObj []) "{}"
                   (Some (mkResult (Some "result") (Some (VStr "42"))
                            DUndefined))
                   (Some (mkResult (Some "result") (Some (VStr "42"))
                            DUndefined))
                   (Some false))
              <> None) by discriminate.
  assert (O : forall tc,
             In tc
               (@applied sample_externals
                  [raw "b" "call" None; raw "c" "progress" None]) ->
             call_id tc <> Some "a").
  { simpl. intros tc [<-|[<-|[]]]; simpl; discriminate. }
  split.
  - exact
      (proj1
         (@terminal_record_kept_by_other_ids sample_externals
            (@applyToolCalls sample_externals [] [result_a]) (Some "a") _
            [raw "b" "call" None; raw "c" "progress" None] eq_refl N O)).
  - exact
      (proj2
         (@terminal_record_kept_by_other_ids sample_externals
            (@applyToolCalls sample_externals [] [result_a]) (Some "a") _
            [raw "b" "call" None; raw "c" "progress" None] eq_refl N O)
         (payload "a" "call" None) eq_refl eq_refl).
Defined.

(** ** One record per identifier (C3) *)

(** C3. After any sequence of raw events the map holds one record per
    call identifier: its keys do not repeat, they are the identifiers of
    the payloads applied, and each record carries the identifier it is
    stored under. A record with a terminal result is left as it is by a
    later event whose payloads all carry other identifiers. The two
    events for ["a"] give one record, whose terminal result has the
    response ["42"]. *)
Theorem reconcile_one_record_per_identifier `{Externals} :
  forall events : list (list RawToolCall),
    (NoDup (map_keys (reconcile events))
     /\ (forall k,
            In k (map_keys (reconcile events))
            <-> exists tc,
                In tc (applied (List.concat events)) /\ call_id tc = k)
     /\ keyed_by_id (reconcile events))
    /\ (forall k p res (later : list RawToolCall),
           map_get k (reconcile events) = Some p ->
           result p = Some res ->
           (forall tc, In tc (applied later) -> call_id tc <> k) ->
           map_get k (reconcile (events ++ [later])) = Some p)
    /\ (exists p,
           reconcile [[call_a]; [result_a]] = [(Some "a", p)]
           /\ option_map res_response (result p) = Some (Some (VStr "42"))
           /\ isError p = Some false).
Proof.
  intro events. split; [|split].
  - rewrite reconcile_applied. split; [|split].
    + apply merge_all_nodup. constructor.
    + intro k. rewrite merge_all_keys_in. simpl. tauto.
    + apply merge_all_keyed. intros k p G. discriminate.
  - intros k p res later G _ A.
    rewrite reconcile_snoc, applyToolCalls_applied, merge_all_other;
      assumption.
  - eexists. split; [reflexivity|]. split; reflexivity.
Qed.

Lemma reconcile_one_record_per_identifier_witness :
  map_get (Some "a")
    (@reconcile sample_externals
       ([[call_a]; [result_a]] ++ [[raw "b" "call" None]]))
  = map_get (Some "a") (@reconcile sample_externals [[call_a]; [result_a]]).
Proof.
  refine
    (proj1
       (proj2
          (@reconcile_one_record_per_identifier sample_externals
             [[call_a]; [result_a]]))
       (Some "a") _ _ [raw "b" "call" None] eq_refl eq_refl _).
  simpl. intros tc [<-|[]]. simpl. discriminate.
Defined.

(** ** History-loaded tool calls (C10) *)

(** C10. [apiToolCallToPart] gives every tool call the error flag
    [false], whatever its event type, while the merge of the streaming
    callbacks sets the flag for an ["error"] event. *)
Theorem history_tool_call_never_error `{Externals} :
  forall tc : ToolCall,
    isError (apiToolCallToPart tc) = Some false
    /\ forall m : ToolCallMap,
         event_type tc = Some "error" ->
         exists p,
           map_get (call_id tc) (mergeToolCall m tc) = Some p
           /\ isError p = Some true.
Proof.
  intro tc. split; [reflexivity|].
  intros m T.
  destruct (stream_classification m tc) as [p [G [_ [E _]]]].
  exists p. split; [exact G | now apply E].
Qed.

Lemma history_tool_call_never_error_witness :
  isError (@apiToolCallToPart sample_externals (payload "a" "error" None))
  = Some false
  /\ exists p,
       map_get (Some "a")
         (@mergeToolCall sample_externals [] (payload "a" "error" None))
       = Some p
       /\ isError p = Some true.
Proof.
  split.
  - exact (proj1
             (@history_tool_call_never_error sample_externals
                (payload "a" "error" None))).
  - exact (proj2
             (@history_tool_call_never_error sample_externals
                (payload "a" "error" None)) [] eq_refl).
Defined.

(** ** Reading traces *)

Lemma calls_app (a b : list Obs) : calls (a ++ b) = calls a ++ calls b.
Proof. apply flat_map_app. Qed.

Lemma yields_app (a b : list Obs) : yields (a ++ b) = yields a ++ yields b.
Proof. apply flat_map_app. Qed.

Lemma stop_count_app (a b : list Obs) :
  stop_count (a ++ b) = stop_count a + stop_count b.
Proof.
  unfold stop_count. now rewrite calls_app, filter_app, length_app.
Qed.

Lemma run_events_app `{Externals} (r : Run) (a b : list Event) :
  run_events r (a ++ b) = run_events (run_events r a) b.
Proof. apply fold_left_app. Qed.

(** ** Resume dispatch (C8) *)

Section ResumeDispatch.
Context `{Externals}.

(** In resume mode an event changes neither the references nor the list
    of backend calls. *)
Lemma resuming_step (r : Run) (q : Resume) (e : Event) :
  mode r = Resuming q ->
  exists q',
    mode (step r e) = Resuming q'
    /\ refs (step r e) = refs r
    /\ chatId (step r e) = chatId r
    /\ calls (trace (step r e)) = calls (trace r).
Proof.
  intro M. unfold step. rewrite M.
  destruct e as [message tool_calls thinking|session|err| |]; simpl.
  - eexists. repeat split.
  - destruct (resume_onSettled q) as [q' o] eqn:S. simpl.
    exists q'. repeat split. rewrite calls_app.
    unfold resume_onSettled in S.
    destruct (finished q); injection S as <- <-; simpl;
      now rewrite app_nil_r.
  - destruct (resume_onSettled q) as [q' o] eqn:S. simpl.
    exists q'. repeat split. rewrite calls_app.
    unfold resume_onSettled in S.
    destruct (finished q); injection S as <- <-; simpl;
      now rewrite app_nil_r.
  - destruct (signal r); simpl.
    + exists q. now repeat split.
    + exists q. repeat split. rewrite calls_app. simpl. now rewrite app_nil_r.
  - destruct (resume_tick q) as [q' o] eqn:T. simpl.
    exists q'. repeat split. rewrite calls_app.
    assert (C : calls o = []).
    { unfold resume_tick, resume_loop in T.
      destruct (resumePos q); [destruct (awaited q) as [[c|]|] | | ];
        try (injection T as <- <-; reflexivity).
      destruct (queue q); [destruct (finished q)|];
        injection T as <- <-; reflexivity. }
    rewrite C. now rewrite app_nil_r.
Qed.

Lemma resuming_events (events : list Event) (r : Run) (q : Resume) :
  mode r = Resuming q ->
  exists q',
    mode (run_events r events) = Resuming q'
    /\ refs (run_events r events) = refs r
    /\ chatId (run_events r events) = chatId r
    /\ calls (trace (run_events r events)) = calls (trace r).
Proof.
  revert r q. induction events as [|e events IH]; intros r q M; simpl.
  - now exists q.
  - destruct (resuming_step r q e M) as [q1 [M1 [R1 [I1 C1]]]].
    destruct (IH (step r e) q1 M1) as [q2 [M2 [R2 [I2 C2]]]].
    exists q2. repeat split; congruence.
Qed.

Lemma run_start_resume chat rf rs messages nodes sig :
  resumeSessionRef rf = Some rs ->
  run_start chat rf messages nodes sig
  = mkRun chat (clear_resumeSession rf) sig
      [Called (ResumeWithCursor chat (resume_sessionId rs) (resume_cursor rs))]
      (Resuming resume_start).
Proof. intro R. unfold run_start. now rewrite R. Qed.

(** A run started without a pending request makes no resume call. *)
Lemma run_start_no_resume chat rf messages nodes sig :
  resumeSessionRef rf = None ->
  forall c session cursor,
    In c (calls (trace (run_start chat rf messages nodes sig))) ->
    c <> ResumeWithCursor chat session cursor.
Proof.
  intros R c session cursor. unfold run_start. rewrite R.
  destruct (isBackgroundTaskActiveRef rf); simpl; [tauto|].
  destruct (last_message messages) as [m|]; simpl; [|tauto].
  destruct (role m); simpl; try tauto.
  destruct (find_text (content m)) as [text|]; simpl; [|tauto].
  unfold stream_start, handleAbort. destruct sig; simpl.
  - intros [<-|[]]. discriminate.
  - intros [<-|[]]. discriminate.
Qed.

End ResumeDispatch.

(** C8. A run that finds a pending resume request clears it, calls
    [resumeWithCursor] with the conversation, the session and the cursor
    of the request, and makes no other backend call whatever happens
    next, so the text of the user message is not sent; a later run that
    starts from the references it leaves does not resume again. *)
Theorem resume_request_consumed_once `{Externals} :
  forall chat rf rs messages nodes sig events,
    resumeSessionRef rf = Some rs ->
    let r := run_events (run_start chat rf messages nodes sig) events in
    resumeSessionRef (refs r) = None
    /\ calls (trace r)
       = [ResumeWithCursor chat (resume_sessionId rs) (resume_cursor rs)]
    /\ (forall text nodes' images session,
           ~ In (StreamMessage chat text nodes' images session)
               (calls (trace r)))
    /\ (forall messages' nodes' sig' c session cursor,
           In c (calls (trace (run_start chat (refs r) messages' nodes' sig'))) ->
           c <> ResumeWithCursor chat session cursor).
Proof.
  intros chat rf rs messages nodes sig events R r.
  assert (S := run_start_resume chat rf rs messages nodes sig R).
  destruct (resuming_events events (run_start chat rf messages nodes sig)
              resume_start) as [q [M [Rf [I C]]]].
  { now rewrite S. }
  fold r in M, Rf, I, C. rewrite S in Rf, C. simpl in Rf, C.
  assert (N : resumeSessionRef (refs r) = None) by now rewrite Rf.
  split; [exact N|]. split; [exact C|]. split.
  - intros text nodes' images session. rewrite C.
    intros [E|[]]. discriminate.
  - intros messages' nodes' sig' c session cursor.
    now apply run_start_no_resume.
Qed.

Lemma resume_request_consumed_once_witness :
  calls
    (trace
       (@run_events sample_externals sample_resume_run
          [OnUpdate "he" [] ThinkingUndefined; Tick; Resolve "s1"; Tick]))
  = [ResumeWithCursor "c1" "s1" "5-0"].
Proof.
  exact
    (proj1
       (proj2
          (@resume_request_consumed_once sample_externals "c1"
             (mkRefs true (mkStreamingState None "0-0" false false 0)
                (Some (mkResumeSessionInfo "s1" "5-0")))
             (mkResumeSessionInfo "s1" "5-0") (user_says "hi") [] false
             [OnUpdate "he" [] ThinkingUndefined; Tick; Resolve "s1"; Tick]
             eq_refl))).
Defined.

(** ** Overlapping runs (C7) *)

(** C7, as stated, fails: with [isStreaming] set by a first run that is
    still streaming, and no resume request pending, a second run for
    the message ["again"] is not rejected and calls [streamMessage]. *)
Lemma second_run_not_rejected_while_streaming :
  ~ (forall chat rf messages nodes sig,
        isStreaming (streamingStateRef rf) = true ->
        resumeSessionRef rf = None ->
        calls (trace (@run_start sample_externals chat rf messages nodes sig))
        = []).
Proof.
  intro C.
  specialize
    (C "c1" (mkRefs false (mkStreamingState None "0-0" true false 0) None)
       (user_says "again") [] false eq_refl eq_refl).
  discriminate C.
Qed.

Section Rejected.
Context `{Externals}.

Lemma not_running_step (r : Run) (e : Event) :
  mode r = NotRunning ->
  mode (step r e) = NotRunning
  /\ refs (step r e) = refs r
  /\ calls (trace (step r e)) = calls (trace r).
Proof.
  intro M. unfold step. rewrite M.
  destruct e; try now repeat split.
  destruct (signal r); cbn [mode refs trace]; [now repeat split|].
  repeat split. rewrite calls_app. simpl. now rewrite app_nil_r.
Qed.

Lemma not_running_events (events : list Event) (r : Run) :
  mode r = NotRunning ->
  mode (run_events r events) = NotRunning
  /\ refs (run_events r events) = refs r
  /\ calls (trace (run_events r events)) = calls (trace r).
Proof.
  revert r. induction events as [|e events IH]; intros r M; simpl.
  - now repeat split.
  - destruct (not_running_step r e M) as [M1 [R1 C1]].
    destruct (IH (step r e) M1) as [M2 [R2 C2]].
    repeat split; congruence.
Qed.

(** What [run] does never depends on [isStreaming]: the flag is written
    and not read. *)
Lemma run_start_ignores_isStreaming chat rf messages nodes sig (b : bool) :
  trace (run_start chat (set_isStreaming b rf) messages nodes sig)
  = trace (run_start chat rf messages nodes sig).
Proof.
  unfold run_start. simpl.
  destruct (resumeSessionRef rf); [reflexivity|].
  destruct (isBackgroundTaskActiveRef rf); [reflexivity|].
  destruct (last_message messages) as [m|]; [|reflexivity].
  destruct (role m); try reflexivity.
  destruct (find_text (content m)); [|reflexivity].
  unfold stream_start. simpl. destruct sig; reflexivity.
Qed.

End Rejected.

(** C7, amended. The gate is the background-task flag, which is set
    while a resume is under way: with that flag set and no resume
    request pending, [run] throws before it makes a backend call and
    makes none later, and it leaves the references as they were. *)
Theorem run_rejected_while_background_task `{Externals} :
  forall chat rf messages nodes sig events,
    resumeSessionRef rf = None ->
    isBackgroundTaskActiveRef rf = true ->
    let r := run_events (run_start chat rf messages nodes sig) events in
    trace (run_start chat rf messages nodes sig) = [Threw BackgroundTaskActive]
    /\ calls (trace r) = []
    /\ refs r = rf.
Proof.
  intros chat rf messages nodes sig events R B r.
  assert (S : run_start chat rf messages nodes sig
              = mkRun chat rf sig [Threw BackgroundTaskActive] NotRunning).
  { unfold run_start. now rewrite R, B. }
  destruct (not_running_events events (run_start chat rf messages nodes sig))
    as [_ [Rf C]].
  { now rewrite S. }
  fold r in Rf, C. rewrite S in Rf, C |- *. now repeat split.
Qed.

Lemma run_rejected_while_background_task_witness :
  trace
    (@run_start sample_externals "c1"
       (mkRefs true (mkStreamingState None "0-0" false false 0) None)
       (user_says "again") [] false)
  = [Threw BackgroundTaskActive].
Proof.
  exact
    (proj1
       (@run_rejected_while_background_task sample_externals "c1"
          (mkRefs true (mkStreamingState None "0-0" false false 0) None)
          (user_says "again") [] false [Tick] eq_refl eq_refl)).
Defined.

(** ** Cancellation (C6) *)

(** C6 fails for a run in resume mode. Such a run never calls
    [stopMessage], whatever the schedule. In the schedule below two
    updates arrive, then the signal fires: no stop call is made, and the
    two chunks are yielded after the cancellation. *)
Theorem resume_run_cancel_not_forwarded `{Externals} :
  forall chat rf rs messages nodes sig events,
    resumeSessionRef rf = Some rs ->
    stop_count (trace (run_events (run_start chat rf messages nodes sig) events))
    = 0
    /\ trace
         (@run_events sample_externals sample_resume_run
            [OnUpdate "he" [] ThinkingUndefined;
             OnUpdate "hello" [] ThinkingUndefined;
             AbortSignal; Tick; Tick; Resolve "s1"; Tick])
       = [Called (ResumeWithCursor "c1" "s1" "5-0"); Cancelled;
          Yielded [Text "he"]; Yielded [Text "hello"];
          BackendSettled; Returned].
Proof.
  intros chat rf rs messages nodes sig events R. split; [|reflexivity].
  assert (S := run_start_resume chat rf rs messages nodes sig R).
  destruct (resuming_events events (run_start chat rf messages nodes sig)
              resume_start) as [q [_ [_ [_ C]]]].
  { now rewrite S. }
  unfold stop_count. rewrite C, S. reflexivity.
Qed.

Lemma resume_run_cancel_not_forwarded_witness :
  stop_count
    (trace
       (@run_events sample_externals sample_resume_run
          [OnUpdate "he" [] ThinkingUndefined; AbortSignal; Tick]))
  = 0.
Proof.
  exact
    (proj1
       (@resume_run_cancel_not_forwarded sample_externals "c1"
          (mkRefs true (mkStreamingState None "0-0" false false 0)
             (Some (mkResumeSessionInfo "s1" "5-0")))
          (mkResumeSessionInfo "s1" "5-0") (user_says "hi") [] false
          [OnUpdate "he" [] ThinkingUndefined; AbortSignal; Tick] eq_refl)).
Defined.

(** ** The generator of normal mode, step by step *)

Ltac split_pairs :=
  repeat match goal with
         | E : (_, _) = (_, _) |- _ => injection E as ? ?; subst
         end.

Ltac break_lets :=
  repeat match goal with
         | |- context [match ?x with pair _ _ => _ end] => destruct x
         | E : context [match ?x with pair _ _ => _ end] |- _ => destruct x
         end.

Ltac case_flags :=
  repeat match goal with
         | |- context [if ?b then _ else _] => destruct b eqn:?
         | E : context [if ?b then _ else _] |- _ => destruct b eqn:?
         end.

Section StreamSteps.
Context `{Externals}.

Lemma stream_content_chunk (s : Stream) :
  stream_content s = stream_chunk (stream_accumulated s).
Proof. reflexivity. Qed.

Lemma hasContent_accumulated (s : Stream) :
  hasContent s = has_content (stream_accumulated s).
Proof. reflexivity. Qed.

(** A turn of the generator leaves the accumulated state and the
    [aborted] flag as they are; it yields at most the chunk of the
    accumulated state, and only when the run is not aborted; it makes no
    backend call; it throws only when neither [aborted] nor the signal
    is set. *)
Lemma stream_tick_obs (sig : bool) (rf rf' : Refs) (s s' : Stream) (o : list Obs) :
  stream_tick sig rf s = (rf', s', o) ->
  stream_accumulated s' = stream_accumulated s
  /\ aborted s' = aborted s
  /\ streamPromise s' = streamPromise s
  /\ (forall u, In u (yields o) -> u = stream_content s /\ aborted s = false)
  /\ calls o = []
  /\ (forall e, In (Threw e) o -> aborted s = false /\ sig = false)
  /\ ~ In Cancelled o
  /\ ~ In BackendSettled o.
Proof.
  destruct s as [text th tcs hu ab fin wait sp lis p].
  unfold stream_tick, loop_top, after_loop, stream_finally, stream_content,
    hasContent, stream_accumulated.
  simpl. intro T.
  destruct p as [c [[e|]|]| | |]; destruct ab, hu, fin, sig; simpl in T;
    case_flags; split_pairs; simpl;
    repeat split; intros; simpl in *;
    try (destruct sp; reflexivity);
    intuition (subst; try discriminate; try reflexivity; try congruence).
Qed.

End StreamSteps.

Section StreamEvents.
Context `{Externals}.

Lemma resolveNext_keeps (v : bool) (s : Stream) :
  stream_accumulated (resolveNext v s) = stream_accumulated s
  /\ aborted (resolveNext v s) = aborted s
  /\ hasUpdate (resolveNext v s) = hasUpdate s
  /\ streamFinished (resolveNext v s) = streamFinished s
  /\ streamPromise (resolveNext v s) = streamPromise s
  /\ listening (resolveNext v s) = listening s.
Proof.
  destruct s as [text th tcs hu ab fin wait sp lis p].
  unfold resolveNext. simpl.
  destruct wait; [destruct p as [[|] [o|]| | |]|..]; simpl; now repeat split.
Qed.

Lemma rejectStream_keeps (e : Err) (s : Stream) :
  stream_accumulated (rejectStream e s) = stream_accumulated s
  /\ aborted (rejectStream e s) = aborted s
  /\ hasUpdate (rejectStream e s) = hasUpdate s
  /\ streamFinished (rejectStream e s) = streamFinished s
  /\ streamPromise (rejectStream e s) = streamPromise s
  /\ listening (rejectStream e s) = listening s.
Proof.
  destruct s as [text th tcs hu ab fin wait sp lis p].
  unfold rejectStream. simpl.
  destruct wait; [destruct p as [[|] [o|]| | |]|..]; simpl; now repeat split.
Qed.

Lemma new_waitForUpdate_keeps (s : Stream) :
  stream_accumulated (new_waitForUpdate s) = stream_accumulated s
  /\ aborted (new_waitForUpdate s) = aborted s
  /\ hasUpdate (new_waitForUpdate s) = hasUpdate s
  /\ streamFinished (new_waitForUpdate s) = streamFinished s
  /\ streamPromise (new_waitForUpdate s) = streamPromise s
  /\ listening (new_waitForUpdate s) = listening s.
Proof.
  destruct s as [text th tcs hu ab fin wait sp lis p].
  unfold new_waitForUpdate. simpl.
  destruct p; simpl; now repeat split.
Qed.

(** The progress callback of normal mode: ignored once the signal has
    fired or the run is aborted, accumulated otherwise. *)
Lemma stream_onUpdate_obs (sig : bool) message tool_calls thinking (s : Stream) :
  aborted (stream_onUpdate sig message tool_calls thinking s) = aborted s
  /\ streamPromise (stream_onUpdate sig message tool_calls thinking s)
     = streamPromise s
  /\ listening (stream_onUpdate sig message tool_calls thinking s)
     = listening s
  /\ ((sig || aborted s)%bool = true ->
      stream_onUpdate sig message tool_calls thinking s = s)
  /\ ((sig || aborted s)%bool = false ->
      stream_accumulated (stream_onUpdate sig message tool_calls thinking s)
      = accumulate (stream_accumulated s)
          (mkUpdate message tool_calls thinking)).
Proof.
  unfold stream_onUpdate.
  destruct (sig || aborted s)%bool eqn:G.
  - repeat split; congruence.
  - match goal with
    | |- context [new_waitForUpdate ?x] =>
        destruct (new_waitForUpdate_keeps x) as [A1 [B1 [_ [_ [P1 L1]]]]]
    end.
    match goal with
    | |- context [resolveNext true ?x] =>
        destruct (resolveNext_keeps true x) as [A2 [B2 [_ [_ [P2 L2]]]]]
    end.
    rewrite A1, B1, P1, L1, A2, B2, P2, L2.
    destruct s; simpl. repeat split; congruence.
Qed.

Lemma stream_onResolve_obs session (rf rf' : Refs) (s s' : Stream) (o : list Obs) :
  stream_onResolve session rf s = (rf', s', o) ->
  stream_accumulated s' = stream_accumulated s
  /\ aborted s' = aborted s
  /\ listening s' = listening s
  /\ yields o = [] /\ calls o = []
  /\ ~ In Cancelled o
  /\ (forall e, ~ In (Threw e) o).
Proof.
  destruct s as [text th tcs hu ab fin wait sp lis p].
  unfold stream_onResolve. simpl.
  destruct sp; intro T; split_pairs; simpl; repeat split;
    try (destruct p as [c [o|]| | |]; reflexivity);
    intuition discriminate.
Qed.

Lemma stream_onReject_obs err (rf rf' : Refs) (s s' : Stream) (o : list Obs) :
  stream_onReject err rf s = (rf', s', o) ->
  stream_accumulated s' = stream_accumulated s
  /\ aborted s' = aborted s
  /\ listening s' = listening s
  /\ yields o = [] /\ calls o = []
  /\ ~ In Cancelled o
  /\ (forall e, ~ In (Threw e) o).
Proof.
  destruct s as [text th tcs hu ab fin wait sp lis p].
  unfold stream_onReject, rejectStream. simpl.
  destruct sp; intro T; split_pairs; simpl; repeat split;
    try (destruct ab, wait, p as [[|] [o|]| | |]; reflexivity);
    intuition discriminate.
Qed.

Lemma handleAbort_obs chat (s s' : Stream) (o : list Obs) :
  handleAbort chat s = (s', o) ->
  stream_accumulated s' = stream_accumulated s
  /\ aborted s' = true
  /\ listening s' = listening s
  /\ streamPromise s' = streamPromise s
  /\ yields o = []
  /\ stop_count o = (if aborted s then 0 else 1)
  /\ (forall e, ~ In (Threw e) o)
  /\ ~ In Cancelled o.
Proof.
  destruct s as [text th tcs hu ab fin wait sp lis p].
  unfold handleAbort, rejectStream, resolveNext. simpl.
  destruct ab; intro T; split_pairs; simpl.
  - repeat split; intuition discriminate.
  - destruct wait, p as [[|] [o|]| | |]; simpl; repeat split;
      intuition discriminate.
Qed.

End StreamEvents.

(** ** Every chunk is the chunk of a prefix of the stream *)

Section Chunks.
Context `{Externals}.

Lemma accumulated_after_snoc (us : list Update) (u : Update) :
  accumulated_after (us ++ [u]) = accumulate (accumulated_after us) u.
Proof. unfold accumulated_after. now rewrite fold_left_app. Qed.

Lemma chunk_of_prefix_more render (us more : list Update) c :
  chunk_of_prefix render us c -> chunk_of_prefix render (us ++ more) c.
Proof.
  intros [p [rest [E C]]]. exists p, (rest ++ more).
  split; [now rewrite E, app_assoc | exact C].
Qed.

Lemma chunk_of_prefix_all render (us : list Update) :
  chunk_of_prefix render us (render (accumulated_after us)).
Proof. exists us, []. now rewrite app_nil_r. Qed.

Lemma updates_of_app (a b : list Event) :
  updates_of (a ++ b) = updates_of a ++ updates_of b.
Proof. apply flat_map_app. Qed.

Lemma stream_invariant_step (us : list Update) (r : Run) (e : Event) :
  stream_invariant us r ->
  stream_invariant (us ++ updates_of [e]) (step r e).
Proof.
  intros [s [M [[p [rest [E [A F]]]] Y]]].
  unfold step. rewrite M.
  destruct e as [message tool_calls thinking|session|err| |];
    cbn [updates_of flat_map app]; rewrite ?app_nil_r.
  - (* the progress callback *)
    destruct (stream_onUpdate_obs (signal r) message tool_calls thinking s)
      as [B [_ [_ [Ig Ac]]]].
    eexists. split; [reflexivity|]. cbn [signal trace]. split.
    + destruct (signal r || aborted s)%bool eqn:G.
      * rewrite (Ig eq_refl). exists p, (rest ++ [mkUpdate message tool_calls thinking]).
        split; [now rewrite E, app_assoc|]. split; [exact A|].
        intros S Ab. apply orb_true_iff in G. destruct G; congruence.
      * apply orb_false_iff in G. destruct G as [S Ab].
        rewrite (F S Ab), app_nil_r in E. subst p.
        exists (us ++ [mkUpdate message tool_calls thinking]), [].
        split; [now rewrite app_nil_r|]. split; [|reflexivity].
        rewrite (Ac eq_refl), A.
        now rewrite accumulated_after_snoc.
    + intros u I. apply chunk_of_prefix_more. now apply Y.
  - destruct (stream_onResolve session (refs r) s) as [[rf' s'] o] eqn:T.
    destruct (stream_onResolve_obs _ _ _ _ _ _ T) as [A' [B' [_ [Yo _]]]].
    exists s'. split; [reflexivity|]. cbn [signal trace]. split.
    + exists p, rest. rewrite A', B'. now repeat split.
    + intros u. rewrite yields_app, Yo, app_nil_r. apply Y.
  - destruct (stream_onReject err (refs r) s) as [[rf' s'] o] eqn:T.
    destruct (stream_onReject_obs _ _ _ _ _ _ T) as [A' [B' [_ [Yo _]]]].
    exists s'. split; [reflexivity|]. cbn [signal trace]. split.
    + exists p, rest. rewrite A', B'. now repeat split.
    + intros u. rewrite yields_app, Yo, app_nil_r. apply Y.
  - destruct (signal r) eqn:S.
    + exists s. rewrite M. split; [reflexivity|]. split.
      * exists p, rest. rewrite S. repeat split; try assumption; discriminate.
      * exact Y.
    + destruct (stream_onAbort (chatId r) s) as [s' o] eqn:T.
      exists s'. split; [reflexivity|]. cbn [signal trace]. split.
      * exists p, rest. split; [exact E|]. split; [|discriminate].
        unfold stream_onAbort in T. destruct (listening s).
        -- destruct (handleAbort_obs _ _ _ _ T) as [A' _]. now rewrite A'.
        -- now split_pairs.
      * intro u. rewrite yields_app. cbn [yields flat_map app].
        fold (yields o).
        assert (Yo : yields o = []).
        { unfold stream_onAbort in T. destruct (listening s).
          - now destruct (handleAbort_obs _ _ _ _ T) as [_ [_ [_ [_ [Yo _]]]]].
          - now split_pairs. }
        rewrite Yo, app_nil_r. apply Y.
  - destruct (stream_tick (signal r) (refs r) s) as [[rf' s'] o] eqn:T.
    destruct (stream_tick_obs _ _ _ _ _ _ T) as [A' [B' [_ [Yo _]]]].
    exists s'. split; [reflexivity|]. cbn [signal trace]. split.
    + exists p, rest. rewrite A', B'. now repeat split.
    + intros u. rewrite yields_app, in_app_iff. intros [I|I]; [now apply Y|].
      destruct (Yo u I) as [-> _]. rewrite stream_content_chunk, A.
      exists p, rest. now split.
Qed.

Lemma stream_invariant_events (events : list Event) (us : list Update) (r : Run) :
  stream_invariant us r ->
  stream_invariant (us ++ updates_of events) (run_events r events).
Proof.
  revert us r. induction events as [|e events IH]; intros us r I.
  - simpl. now rewrite app_nil_r.
  - replace (updates_of (e :: events))
      with (updates_of [e] ++ updates_of events)
      by (rewrite <- updates_of_app; reflexivity).
    rewrite app_assoc. apply (IH _ (step r e)).
    now apply stream_invariant_step.
Qed.

Lemma resume_invariant_step (us : list Update) (r : Run) (e : Event) :
  resume_invariant us r ->
  resume_invariant (us ++ updates_of [e]) (step r e).
Proof.
  intros [q [M [C [Th Y]]]].
  unfold step. rewrite M.
  destruct e as [message tool_calls thinking|session|err| |];
    cbn [updates_of flat_map app]; rewrite ?app_nil_r.
  - eexists. split; [reflexivity|]. cbn [trace].
    rewrite accumulated_after_snoc.
    assert (K : render_resume message
                  (applyToolCalls (resumeToolCalls q) tool_calls)
                  (update_thinking thinking (resumeThinking q))
                = resume_chunk
                    (accumulated_after
                       (us ++ [mkUpdate message tool_calls thinking]))).
    { rewrite accumulated_after_snoc, C, Th. reflexivity. }
    unfold resume_onUpdate, pushToQueue, resolve_awaited. simpl.
    destruct (resolve q); [destruct (awaited q) as [[c0|]|] eqn:Aw|]; simpl;
      (split; [now rewrite C|]); (split; [now rewrite Th|]);
      intros c [I|[I|I]];
      try (apply chunk_of_prefix_more; apply Y; auto; fail).
    + injection I as <-. rewrite K. apply chunk_of_prefix_all.
    + apply in_app_iff in I. destruct I as [I|[<-|[]]].
      * apply chunk_of_prefix_more, Y. auto.
      * rewrite K. apply chunk_of_prefix_all.
  - destruct (resume_onSettled q) as [q' o] eqn:T.
    exists q'. split; [reflexivity|]. cbn [trace].
    unfold resume_onSettled, resolve_awaited in T.
    destruct (finished q); [|destruct (resolve q); [destruct (awaited q) eqn:Aw|]];
      split_pairs; simpl; (split; [exact C|]); (split; [exact Th|]);
      intros c; rewrite yields_app; simpl; rewrite ?app_nil_r;
      intros [I|[I|I]]; try (apply Y; auto; fail).
    discriminate.
  - destruct (resume_onSettled q) as [q' o] eqn:T.
    exists q'. split; [reflexivity|]. cbn [trace].
    unfold resume_onSettled, resolve_awaited in T.
    destruct (finished q); [|destruct (resolve q); [destruct (awaited q) eqn:Aw|]];
      split_pairs; simpl; (split; [exact C|]); (split; [exact Th|]);
      intros c; rewrite yields_app; simpl; rewrite ?app_nil_r;
      intros [I|[I|I]]; try (apply Y; auto; fail).
    discriminate.
  - destruct (signal r).
    + exists q. rewrite M. now repeat split.
    + exists q. split; [reflexivity|]. cbn [trace].
      split; [exact C|]. split; [exact Th|].
      intros c. rewrite yields_app. simpl. rewrite app_nil_r. apply Y.
  - destruct (resume_tick q) as [q' o] eqn:T.
    exists q'. split; [reflexivity|]. cbn [trace].
    unfold resume_tick, resume_loop in T.
    destruct (resumePos q);
      [destruct (awaited q) as [[c0|]|] eqn:Aw
      |destruct (queue q) as [|c0 rest] eqn:Q; [destruct (finished q)|]
      |];
      split_pairs; simpl; (split; [exact C|]); (split; [exact Th|]);
      intros c; rewrite yields_app; simpl; rewrite ?app_nil_r;
      try rewrite in_app_iff; simpl;
      intuition (subst; try discriminate; try (apply Y; auto; fail)).
    + congruence.
    + apply Y. right. left. now left.
    + apply Y. right. left. now right.
Qed.

Lemma resume_invariant_events (events : list Event) (us : list Update) (r : Run) :
  resume_invariant us r ->
  resume_invariant (us ++ updates_of events) (run_events r events).
Proof.
  revert us r. induction events as [|e events IH]; intros us r I.
  - simpl. now rewrite app_nil_r.
  - replace (updates_of (e :: events))
      with (updates_of [e] ++ updates_of events)
      by (rewrite <- updates_of_app; reflexivity).
    rewrite app_assoc. apply (IH _ (step r e)).
    now apply resume_invariant_step.
Qed.

End Chunks.

Section StartStates.
Context `{Externals}.

Lemma not_running_yields (events : list Event) (r : Run) :
  mode r = NotRunning ->
  yields (trace (run_events r events)) = yields (trace r).
Proof.
  revert r. induction events as [|e events IH]; intros r M; [reflexivity|].
  simpl. rewrite IH.
  - unfold step. rewrite M. destruct e; try reflexivity.
    destruct (signal r); [reflexivity|]. cbn [trace].
    rewrite yields_app. simpl. now rewrite app_nil_r.
  - now apply not_running_step.
Qed.

(** A run without a resume request either throws at once or starts the
    generator of normal mode. *)
Lemma run_start_normal chat rf messages nodes sig :
  resumeSessionRef rf = None ->
  (mode (run_start chat rf messages nodes sig) = NotRunning
   /\ yields (trace (run_start chat rf messages nodes sig)) = [])
  \/ stream_invariant [] (run_start chat rf messages nodes sig).
Proof.
  intro R. unfold run_start. rewrite R.
  destruct (isBackgroundTaskActiveRef rf); [now left|].
  destruct (last_message messages) as [m|]; [|now left].
  destruct (role m); try now left.
  destruct (find_text (content m)) as [text|]; [|now left].
  right. unfold stream_start, handleAbort. destruct sig; simpl.
  - eexists. split; [reflexivity|]. split.
    + exists [], []. now repeat split.
    + intros u [].
  - eexists. split; [reflexivity|]. split.
    + exists [], []. now repeat split.
    + intros u [].
Qed.

Lemma run_start_resuming chat rf rs messages nodes sig :
  resumeSessionRef rf = Some rs ->
  resume_invariant [] (run_start chat rf messages nodes sig).
Proof.
  intro R. rewrite (run_start_resume _ _ _ _ _ _ R).
  eexists. split; [reflexivity|]. simpl. repeat split.
  intros c [[]|[[]|[=]]].
Qed.

(** Every chunk a run yields is the chunk of the state accumulated
    after a prefix of its updates, built as its mode builds chunks. *)
Lemma yields_are_chunks chat rf messages nodes sig events u :
  In u (yields (trace (run_events (run_start chat rf messages nodes sig) events))) ->
  chunk_of_prefix
    (match resumeSessionRef rf with
     | None => stream_chunk
     | Some _ => resume_chunk
     end)
    (updates_of events) u.
Proof.
  intro I. destruct (resumeSessionRef rf) as [rs|] eqn:R.
  - destruct (resume_invariant_events events []
                (run_start chat rf messages nodes sig)
                (run_start_resuming _ _ _ _ _ _ R))
      as [q [_ [_ [_ Y]]]].
    apply Y. now left.
  - destruct (run_start_normal chat rf messages nodes sig R) as [[M Y0]|Inv].
    + rewrite (not_running_yields events _ M), Y0 in I. destruct I.
    + destruct (stream_invariant_events events [] _ Inv) as [s [_ [_ Y]]].
      now apply Y.
Qed.

Lemma accumulated_calls (us : list Update) :
  acc_calls (accumulated_after us) = reconcile (map update_tool_calls us).
Proof.
  induction us as [|u us IH] using rev_ind; [reflexivity|].
  rewrite accumulated_after_snoc, map_app. cbn [map].
  rewrite reconcile_snoc, <- IH.
  reflexivity.
Qed.

Lemma keyed_values (m : ToolCallMap) :
  NoDup (map_keys m) -> keyed_by_id m ->
  map toolCallId (map_values m) = map_keys m.
Proof.
  induction m as [|[k v] m IH]; intros ND K; [reflexivity|].
  simpl in *. inversion ND as [|? ? N ND']; subst. f_equal.
  - apply K. simpl. now rewrite key_eqb_refl.
  - apply IH; [exact ND'|]. intros k' p G. apply K. simpl.
    destruct (key_eqb k' k) eqn:E; [|exact G].
    apply key_eqb_true in E. subst k'. exfalso. apply N.
    apply map_get_in_keys. congruence.
Qed.

End StartStates.

(** ** Ordering of a content update (C4) *)

(** C4, as stated, fails: in resume mode a tool call whose payload
    carries no tool name is known to the reconciler, it has a record in
    the map, and the chunk yielded for that update leaves the record
    out: the chunk is the text segment alone. *)
Lemma content_update_omits_nameless_record :
  ~ (forall events u,
        In u
          (yields
             (trace (@run_events sample_externals sample_resume_run events))) ->
        exists seen_updates rest reasoning,
          updates_of events = seen_updates ++ rest
          /\ (reasoning = [] \/ exists t, reasoning = [Reasoning t])
          /\ u
             = reasoning
               ++ map ToolCallPart
                    (map_values
                       (acc_calls
                          (@accumulated_after sample_externals seen_updates)))
               ++ [Text
                     (acc_text
                        (@accumulated_after sample_externals seen_updates))]).
Proof.
  intro C.
  destruct (C [OnUpdate "x" [call_a] ThinkingUndefined; Tick] [Text "x"]
              (or_introl eq_refl))
    as (seen_updates & rest & reasoning & E & _ & U).
  destruct seen_updates as [|u1 [|u2 seen_updates]].
  - apply (f_equal (fun l => last l (Text "?"))) in U.
    simpl in U. rewrite last_last in U. discriminate U.
  - injection E as <- _.
    apply (f_equal (@List.length ContentPart)) in U.
    rewrite !length_app in U. simpl in U. lia.
  - discriminate E.
Qed.

(** C4, amended. Every chunk yielded, at every tick and in both modes,
    is built from the state accumulated after a prefix of the updates
    received: first the reasoning segment, if the thinking is not empty
    (in resume mode: not empty once trimmed); then the tool-call
    records of the map in the order their identifiers were first seen
    (in resume mode: those with an identifier and a tool name); then the
    text segment (in normal mode: if the text is not empty). *)
Theorem content_update_order `{Externals} :
  forall chat rf messages nodes sig events u,
    In u (yields (trace (run_events (run_start chat rf messages nodes sig) events))) ->
    exists seen_updates rest,
      updates_of events = seen_updates ++ rest
      /\ map toolCallId (map_values (acc_calls (accumulated_after seen_updates)))
         = first_seen
             (map call_id
                (applied (List.concat (map update_tool_calls seen_updates))))
      /\ u
         = match resumeSessionRef rf with
           | None =>
               match acc_thinking (accumulated_after seen_updates) with
               | Some t => if truthy t then [Reasoning t] else []
               | None => []
               end
               ++ map ToolCallPart
                    (map_values (acc_calls (accumulated_after seen_updates)))
               ++ (if truthy (acc_text (accumulated_after seen_updates))
                   then [Text (acc_text (accumulated_after seen_updates))]
                   else [])
           | Some _ =>
               match acc_thinking (accumulated_after seen_updates) with
               | Some t => if truthy (trim t) then [Reasoning t] else []
               | None => []
               end
               ++ map ToolCallPart
                    (filter has_id_and_name
                       (map_values (acc_calls (accumulated_after seen_updates))))
               ++ [Text (acc_text (accumulated_after seen_updates))]
           end.
Proof.
  intros chat rf messages nodes sig events u I.
  destruct (yields_are_chunks _ _ _ _ _ _ _ I) as [p [rest [E C]]].
  exists p, rest. split; [exact E|]. split.
  - rewrite accumulated_calls, keyed_values.
    + apply reconcile_keys.
    + rewrite reconcile_applied. apply merge_all_nodup. constructor.
    + rewrite reconcile_applied. apply merge_all_keyed. intros k q G.
      discriminate.
  - rewrite C. destruct (resumeSessionRef rf); reflexivity.
Qed.

Lemma content_update_order_witness :
  exists seen_updates rest,
    updates_of
      [OnUpdate "42"
         [raw "b" "call" None; raw "a" "call" None;
          raw "b" "result" (Some (VStr "ok"))]
         (ThinkingText "plan");
       Tick]
    = seen_updates ++ rest
    /\ map toolCallId
         (map_values
            (acc_calls (@accumulated_after sample_externals seen_updates)))
       = first_seen
           (map call_id
              (@applied sample_externals
                 (List.concat (map update_tool_calls seen_updates))))
    /\ [Reasoning "plan";
        ToolCallPart
          (mkPart (Some "b") (Some "search") (VObj []) "{}"
             (Some (mkResult (Some "result") (Some (VStr "ok")) DUndefined))
             (Some (mkResult (Some "result") (Some (VStr "ok")) DUndefined))
             (Some false));
        ToolCallPart
          (mkPart (Some "a") (Some "search") (VObj []) "{}"
             (Some (mkResult (Some "call") None DUndefined)) None
             (Some false));
        Text "42"]
       = match
           acc_thinking (@accumulated_after sample_externals seen_updates)
         with
         | Some t => if truthy (trim t) then [Reasoning t] else []
         | None => []
         end
         ++ map ToolCallPart
              (filter has_id_and_name
                 (map_values
                    (acc_calls
                       (@accumulated_after sample_externals seen_updates))))
         ++ [Text
               (acc_text (@accumulated_after sample_externals seen_updates))].
Proof.
  exact
    (@content_update_order sample_externals "c1"
       (mkRefs true (mkStreamingState None "0-0" false false 0)
          (Some (mkResumeSessionInfo "s1" "5-0")))
       (user_says "hi") [] false
       [OnUpdate "42"
          [raw "b" "call" None; raw "a" "call" None;
           raw "b" "result" (Some (VStr "ok"))]
          (ThinkingText "plan");
        Tick]
       _ (or_introl eq_refl)).
Defined.

(** ** Presence of the text segment (C9) *)

(** C9, as stated, fails: in normal mode an update that brings a tool
    call while the response text is still empty is yielded without a
    text segment. *)
Lemma empty_text_segment_left_out :
  ~ (forall events u,
        In u (yields (trace (@run_events sample_externals sample_stream_run events))) ->
        exists t, In (Text t) u).
Proof.
  intro C.
  destruct (C [OnUpdate "" [raw "a" "call" None] ThinkingUndefined; Tick]
              _ (or_introl eq_refl))
    as [t [E|[]]].
  discriminate E.
Qed.

Lemma stream_chunk_text (a : Accumulated) (t : string) :
  In (Text t) (stream_chunk a) <-> t = acc_text a /\ acc_text a <> "".
Proof.
  unfold stream_chunk, render_stream. rewrite !in_app_iff. split.
  - intros [I|[I|I]].
    + destruct (acc_thinking a) as [x|]; [destruct (truthy x)|];
        simpl in I; intuition discriminate.
    + apply in_map_iff in I. destruct I as [x [E _]]. discriminate E.
    + unfold truthy in I. destruct (String.eqb (acc_text a) "") eqn:E;
        simpl in I; [destruct I|].
      destruct I as [[= <-]|[]]. split; [reflexivity|].
      now apply String.eqb_neq.
  - intros [-> N]. right. right. unfold truthy.
    apply String.eqb_neq in N. rewrite N. now left.
Qed.

(** C9, amended. In resume mode every chunk ends with the text segment,
    also when the text is empty. In normal mode a chunk holds a text
    segment exactly when the accumulated response text is not empty,
    and that segment carries the accumulated text. *)
Theorem text_segment_presence `{Externals} :
  forall chat rf messages nodes sig events u,
    In u (yields (trace (run_events (run_start chat rf messages nodes sig) events))) ->
    exists seen_updates rest,
      updates_of events = seen_updates ++ rest
      /\ match resumeSessionRef rf with
         | Some _ =>
             exists front,
               u = front ++ [Text (acc_text (accumulated_after seen_updates))]
         | None =>
             forall t,
               In (Text t) u
               <-> t = acc_text (accumulated_after seen_updates)
                   /\ acc_text (accumulated_after seen_updates) <> ""
         end.
Proof.
  intros chat rf messages nodes sig events u I.
  destruct (yields_are_chunks _ _ _ _ _ _ _ I) as [p [rest [E C]]].
  exists p, rest. split; [exact E|].
  destruct (resumeSessionRef rf).
  - rewrite C. unfold resume_chunk, render_resume.
    eexists. rewrite app_assoc. reflexivity.
  - intro t. rewrite C. apply stream_chunk_text.
Qed.

Lemma text_segment_presence_witness :
  exists seen_updates rest,
    updates_of [OnUpdate "" [] ThinkingUndefined; Tick] = seen_updates ++ rest
    /\ exists front,
         [Text ""]
         = front
           ++ [Text (acc_text (@accumulated_after sample_externals seen_updates))].
Proof.
  exact
    (@text_segment_presence sample_externals "c1"
       (mkRefs true (mkStreamingState None "0-0" false false 0)
          (Some (mkResumeSessionInfo "s1" "5-0")))
       (user_says "hi") [] false [OnUpdate "" [] ThinkingUndefined; Tick]
       [Text ""] (or_introl eq_refl)).
Defined.

(** ** The final publish (C5) *)

Section FinalPublish.
Context `{Externals}.

Lemma run_events_cons (r : Run) (e : Event) (events : list Event) :
  run_events r (e :: events) = run_events (step r e) events.
Proof. reflexivity. Qed.

(** Once the generator of normal mode has finished, its turns do
    nothing. *)
Lemma finished_ticks (k : nat) (r : Run) (s : Stream) :
  mode r = Streaming s -> pos s = Finished ->
  run_events r (repeat Tick k) = r.
Proof.
  intros M P. induction k as [|k IH]; [reflexivity|].
  simpl repeat. rewrite run_events_cons.
  assert (S : step r Tick = r).
  { unfold step. rewrite M. unfold stream_tick. rewrite P.
    destruct r; simpl in *. rewrite app_nil_r. now subst. }
  now rewrite S.
Qed.

Lemma progressing_start chat rf messages nodes :
  resumeSessionRef rf = None ->
  mode (run_start chat rf messages nodes false) <> NotRunning ->
  progressing (run_start chat rf messages nodes false).
Proof.
  intros R N. unfold run_start in *. rewrite R in *.
  destruct (isBackgroundTaskActiveRef rf); [now elim N|].
  destruct (last_message messages) as [m|]; [|now elim N].
  destruct (role m); try now elim N.
  destruct (find_text (content m)) as [text|]; [|now elim N].
  simpl. eexists. split; [reflexivity|]. simpl.
  repeat split. right. exists true. now left.
Qed.

Lemma progressing_step (r : Run) (e : Event) :
  is_progress e = true -> progressing r -> progressing (step r e).
Proof.
  intros Pe [s [M [S [A [F [SP [W [P T]]]]]]]].
  destruct s as [text th tcs hu ab fin wait sp lis p]. simpl in *. subst.
  unfold step. rewrite M.
  destruct e as [message tool_calls thinking|session|err| |];
    try discriminate Pe.
  - rewrite S. unfold stream_onUpdate, resolveNext, new_waitForUpdate.
    simpl.
    destruct P as [->|[c [->| ->]]]; simpl;
      try destruct c; simpl;
      (eexists; split; [reflexivity|]; simpl; repeat split; try assumption;
       try (now left); right; eexists; eauto).
  - rewrite S. unfold stream_tick, loop_top, after_loop. simpl.
    destruct P as [->|[c [->| ->]]]; simpl.
    + eexists. split; [reflexivity|]. simpl. rewrite app_nil_r.
      repeat split; try assumption. right. eexists; eauto.
    + eexists. split; [reflexivity|]. simpl. rewrite app_nil_r.
      repeat split; try assumption. right. eexists; eauto.
    + destruct hu; simpl.
      * eexists. split; [reflexivity|]. simpl.
        rewrite forallb_app, T. repeat split; try assumption. now left.
      * eexists. split; [reflexivity|]. simpl. rewrite app_nil_r.
        repeat split; try assumption. right. eexists; eauto.
Qed.

Lemma progressing_events (events : list Event) (r : Run) :
  forallb is_progress events = true ->
  progressing r -> progressing (run_events r events).
Proof.
  revert r. induction events as [|e events IH]; intros r F P; [exact P|].
  simpl in F. apply andb_true_iff in F. destruct F as [Fe F].
  rewrite run_events_cons. apply IH; [exact F|].
  now apply progressing_step.
Qed.

Lemma after_settled_first (t rest : list Obs) :
  forallb is_yield_or_call t = true ->
  after_settled (t ++ BackendSettled :: rest) = rest.
Proof.
  induction t as [|o t IH]; intro F; [reflexivity|].
  simpl in F. apply andb_true_iff in F. destruct F as [Fo F].
  destruct o; try discriminate Fo; simpl; now apply IH.
Qed.

Lemma after_loop_content (rf : Refs) (s : Stream) :
  aborted s = false -> hasContent s = true ->
  after_loop rf s = (rf, set_pos AtFinalYield s, [Yielded (stream_content s)]).
Proof. intros A C. unfold after_loop. now rewrite A, C. Qed.

(** From a run under way with something to show: when the backend call
    is fulfilled and the consumer keeps pulling, the generator yields
    the accumulated state after the settlement and returns. *)
Lemma finish_after_resolve (r : Run) (s : Stream) session (k : nat) :
  progressing r -> mode r = Streaming s -> hasContent s = true ->
  exists before,
    trace (run_events r (Resolve session :: repeat Tick (3 + k)))
    = trace r
      ++ BackendSettled
         :: map Yielded (before ++ [stream_content s]) ++ [Returned].
Proof.
  intros [s0 [M0 [S [A [F [SP [W [P T]]]]]]]] M HC.
  rewrite M in M0. injection M0 as <-.
  destruct r as [chat rf sig tr md]. simpl in *. subst md sig.
  destruct s as [text th tcs hu ab fin wait sp lis p].
  unfold hasContent in HC. simpl in *. subst.
  destruct P as [->|[c [->| ->]]].
  - exists []. cbn.
    rewrite after_loop_content; [|reflexivity|exact HC].
    cbn. erewrite (finished_ticks k); [|reflexivity|reflexivity]. cbn.
    rewrite <- !app_assoc. reflexivity.
  - destruct hu.
    + exists [render_stream th tcs text]. cbn.
      rewrite after_loop_content; [|reflexivity|exact HC].
      cbn. erewrite (finished_ticks k); [|reflexivity|reflexivity]. cbn.
      rewrite <- !app_assoc. reflexivity.
    + exists []. cbn.
      rewrite after_loop_content; [|reflexivity|exact HC].
      cbn. erewrite (finished_ticks k); [|reflexivity|reflexivity]. cbn.
      rewrite <- !app_assoc. reflexivity.
  - destruct hu.
    + exists [render_stream th tcs text]. cbn.
      rewrite after_loop_content; [|reflexivity|exact HC].
      cbn. erewrite (finished_ticks k); [|reflexivity|reflexivity]. cbn.
      rewrite <- !app_assoc. reflexivity.
    + exists []. cbn.
      rewrite after_loop_content; [|reflexivity|exact HC].
      cbn. erewrite (finished_ticks k); [|reflexivity|reflexivity]. cbn.
      rewrite <- !app_assoc. reflexivity.
Qed.

(** Once the loop of resume mode has finished, its turns do nothing. *)
Lemma resume_finished_ticks (k : nat) (r : Run) (q : Resume) :
  mode r = Resuming q -> resumePos q = ResumeFinished ->
  run_events r (repeat Tick k) = r.
Proof.
  intros M P. induction k as [|k IH]; [reflexivity|].
  simpl repeat. rewrite run_events_cons.
  assert (S : step r Tick = r).
  { unfold step. rewrite M. unfold resume_tick. rewrite P.
    destruct r; simpl in *. rewrite app_nil_r. now subst. }
  now rewrite S.
Qed.

Lemma chunks_from_snoc (a : Accumulated) (us : list Update) (u : Update) :
  chunks_from a (us ++ [u])
  = chunks_from a us
    ++ [resume_chunk (accumulate (fold_left accumulate us a) u)].
Proof.
  revert a. induction us as [|v us IH]; intro a; simpl; [reflexivity|].
  now rewrite IH.
Qed.

Lemma chunks_from_length (a : Accumulated) (us : list Update) :
  List.length (chunks_from a us) = List.length us.
Proof.
  revert a. induction us as [|v us IH]; intro a; simpl; [reflexivity|].
  now rewrite IH.
Qed.

End FinalPublish.

Section ResumeProgress.
Context `{Externals}.

Lemma resume_progressing_start chat rf rs messages nodes sig :
  resumeSessionRef rf = Some rs ->
  resume_progressing [] (run_start chat rf messages nodes sig).
Proof.
  intro R. rewrite (run_start_resume _ _ _ _ _ _ R).
  eexists. split; [reflexivity|]. simpl. now repeat split.
Qed.

Lemma resume_progressing_step (us : list Update) (r : Run) (e : Event) :
  is_progress e = true ->
  resume_progressing us r ->
  resume_progressing (us ++ updates_of [e]) (step r e).
Proof.
  intros Pe [q [M [F [C [Th [Y [T P]]]]]]].
  destruct q as [qu rs aw fin tcs th p]. simpl in *. subst.
  unfold step. rewrite M.
  destruct e as [message tool_calls thinking|session|err| |];
    try discriminate Pe; cbn [updates_of flat_map app]; rewrite ?app_nil_r.
  - (* the progress callback *)
    assert (K : render_resume message
                  (applyToolCalls
                     (acc_calls (accumulated_after us)) tool_calls)
                  (update_thinking thinking
                     (acc_thinking (accumulated_after us)))
                = resume_chunk
                    (accumulate (accumulated_after us)
                       (mkUpdate message tool_calls thinking)))
      by reflexivity.
    eexists. split; [reflexivity|].
    rewrite accumulated_after_snoc, chunks_from_snoc.
    fold (accumulated_after us). rewrite <- K, <- Y.
    unfold resume_onUpdate, pushToQueue, resolve_awaited, pending_chunks
      in *.
    simpl in *.
    destruct p; [destruct aw as [[c0|]|]| |]; try contradiction.
    + subst rs. simpl. rewrite <- app_assoc. now repeat split.
    + destruct P as [-> ->]. simpl. rewrite !app_nil_r. now repeat split.
    + subst rs. simpl. rewrite <- app_assoc. now repeat split.
  - (* a turn of the generator *)
    unfold resume_tick, resume_loop, pending_chunks in *. simpl in *.
    destruct p; [destruct aw as [[c0|]|]| |]; try contradiction.
    + subst rs. eexists. split; [reflexivity|]. simpl.
      rewrite yields_app, forallb_app, T. simpl.
      rewrite <- app_assoc. now repeat split.
    + destruct P as [-> ->]. eexists. split; [reflexivity|]. simpl.
      rewrite !app_nil_r in *. now repeat split.
    + subst rs. destruct qu as [|c0 rest].
      * eexists. split; [reflexivity|]. simpl.
        rewrite !app_nil_r in *. now repeat split.
      * eexists. split; [reflexivity|]. simpl.
        rewrite yields_app, forallb_app, T. simpl.
        rewrite <- app_assoc. now repeat split.
Qed.

Lemma resume_progressing_events (events : list Event) (us : list Update)
  (r : Run) :
  forallb is_progress events = true ->
  resume_progressing us r ->
  resume_progressing (us ++ updates_of events) (run_events r events).
Proof.
  revert us r. induction events as [|e events IH]; intros us r F P.
  - simpl. now rewrite app_nil_r.
  - simpl in F. apply andb_true_iff in F. destruct F as [Fe F].
    replace (updates_of (e :: events))
      with (updates_of [e] ++ updates_of events)
      by (rewrite <- updates_of_app; reflexivity).
    rewrite app_assoc. apply (IH _ (step r e) F).
    now apply resume_progressing_step.
Qed.

(** After the backend call has settled, the turns of the resume loop
    yield the chunks held back, one each, and then the loop returns. *)
Lemma resume_drain (k : nat) (r : Run) (q : Resume) :
  mode r = Resuming q ->
  finished q = true ->
  match resumePos q, awaited q with
  | AtWait, None => False
  | AtWait, Some None => queue q = []
  | AtWait, Some (Some _) => True
  | AtQueueYield, _ => True
  | ResumeFinished, _ => False
  end ->
  trace (run_events r (repeat Tick (S (List.length (pending_chunks q)) + k)))
  = trace r ++ map Yielded (pending_chunks q) ++ [Returned].
Proof.
  remember (List.length (pending_chunks q)) as n eqn:L.
  revert r q L. induction n as [|n IH]; intros r q L M F P.
  - (* nothing held back: the next turn returns *)
    cbn [plus repeat]. rewrite run_events_cons.
    destruct q as [qu rs aw fin tcs th p].
    unfold pending_chunks in *. simpl in *. subst fin.
    assert (S : exists q',
               step r Tick
               = mkRun (chatId r) (refs r) (signal r) (trace r ++ [Returned])
                   (Resuming q')
               /\ resumePos q' = ResumeFinished).
    { unfold step. rewrite M. unfold resume_tick, resume_loop. simpl.
      destruct p; [destruct aw as [[c0|]|]| |]; try contradiction;
        try discriminate L.
      - eexists. split; reflexivity.
      - destruct qu; [|discriminate L]. eexists. split; reflexivity. }
    destruct S as [q' [S Pq]]. rewrite S.
    erewrite resume_finished_ticks; [|reflexivity|exact Pq].
    simpl. destruct p; [destruct aw as [[c0|]|]| |]; try contradiction;
      try discriminate L; destruct qu; try discriminate L; reflexivity.
  - (* a chunk is held back: the next turn yields it *)
    cbn [plus repeat]. rewrite run_events_cons.
    destruct q as [qu rs aw fin tcs th p].
    unfold pending_chunks in *. simpl in *. subst fin.
    destruct p; [destruct aw as [[c0|]|]| |]; try contradiction.
    + (* the awaited promise holds the chunk *)
      injection L as L.
      specialize
        (IH (step r Tick) (mkResume qu rs (Some (Some c0)) true tcs th AtQueueYield)).
      unfold step in *. rewrite M in *. unfold resume_tick in *.
      simpl in *. rewrite (IH L eq_refl eq_refl I).
      rewrite <- app_assoc. reflexivity.
    + subst qu. discriminate L.
    + destruct qu as [|c0 rest]; [discriminate L|]. injection L as L.
      specialize
        (IH (step r Tick) (mkResume rest rs aw true tcs th AtQueueYield)).
      unfold step in *. rewrite M in *. unfold resume_tick, resume_loop in *.
      simpl in *. rewrite (IH L eq_refl eq_refl I).
      rewrite <- app_assoc. reflexivity.
Qed.

End ResumeProgress.

Lemma yields_map_Yielded (l : list ContentUpdate) : yields (map Yielded l) = l.
Proof. induction l as [|c l IH]; simpl; [reflexivity | now rewrite IH]. Qed.

Lemma ticks_noop `{Externals} (k : nat) (r : Run) :
  step r Tick = r -> run_events r (repeat Tick k) = r.
Proof.
  intro S. induction k as [|k IH]; [reflexivity|].
  simpl repeat. now rewrite run_events_cons, S.
Qed.

(** C5, as stated, fails when the backend call settles by rejecting:
    in normal mode, after the update ["he"] was yielded, the update
    ["hello"] arrives and the call rejects before the consumer pulls;
    the error is thrown, nothing is yielded after the settlement however
    long the consumer pulls, and ["hello"] is never yielded. *)
Lemma no_final_publish_when_call_rejects :
  ~ (forall events,
        updates_of events <> [] ->
        In BackendSettled
          (trace (@run_events sample_externals sample_stream_run events)) ->
        exists k,
          yields
            (after_settled
               (trace
                  (@run_events sample_externals sample_stream_run
                     (events ++ repeat Tick k))))
          <> []).
Proof.
  intro C.
  destruct (C [OnUpdate "he" [] ThinkingUndefined; Tick;
               OnUpdate "hello" [] ThinkingUndefined;
               Reject (BackendError "network"); Tick; Tick])
    as [k Y].
  - discriminate.
  - vm_compute. tauto.
  - apply Y. rewrite run_events_app.
    rewrite ticks_noop; vm_compute; reflexivity.
Qed.

(** C5, amended. Let a run receive updates while the consumer pulls,
    and let the backend call then settle. In normal mode, when the call
    is fulfilled, the run was not cancelled and the accumulated state
    has content, the chunk of the last accumulated state is yielded
    after the settlement, as the last chunk, and the sequence ends. In
    resume mode nothing is published at the settlement: the chunk of
    every update, the last one included, is yielded in order and the
    sequence ends, whether the call is fulfilled or rejects. *)
Theorem final_publish_after_settlement `{Externals} :
  forall chat rf messages nodes progress (k : nat),
    forallb is_progress progress = true ->
    (forall session,
        resumeSessionRef rf = None ->
        mode (run_start chat rf messages nodes false) <> NotRunning ->
        has_content (accumulated_after (updates_of progress)) = true ->
        (exists before,
            yields
              (after_settled
                 (trace
                    (run_events (run_start chat rf messages nodes false)
                       (progress ++ Resolve session :: repeat Tick (3 + k)))))
            = before
              ++ [stream_chunk (accumulated_after (updates_of progress))])
        /\ last
             (trace
                (run_events (run_start chat rf messages nodes false)
                   (progress ++ Resolve session :: repeat Tick (3 + k))))
             Cancelled
           = Returned)
    /\ (forall rs sig settle,
           resumeSessionRef rf = Some rs ->
           is_settle settle = true ->
           yields
             (trace
                (run_events (run_start chat rf messages nodes sig)
                   (progress
                    ++ settle
                       :: repeat Tick
                            (S (List.length (updates_of progress)) + k))))
           = chunks_from (mkAccumulated "" None []) (updates_of progress)
           /\ last
                (trace
                   (run_events (run_start chat rf messages nodes sig)
                      (progress
                       ++ settle
                          :: repeat Tick
                               (S (List.length (updates_of progress)) + k))))
                Cancelled
              = Returned).
Proof.
  intros chat rf messages nodes progress k Pr. split.
  - intros session R N HC.
    rewrite run_events_app.
    set (r1 := run_events (run_start chat rf messages nodes false) progress).
    assert (P1 : progressing r1).
    { apply progressing_events; [exact Pr|].
      now apply progressing_start. }
    assert (I1 : stream_invariant (updates_of progress) r1).
    { destruct (run_start_normal chat rf messages nodes false R)
        as [[M _]|Inv]; [contradiction|].
      exact (stream_invariant_events progress [] _ Inv). }
    destruct P1 as [s [M [S [A [F [SP [W [P T]]]]]]]].
    destruct I1 as [s' [M' [[p [rest [E [Acc Full]]]] _]]].
    rewrite M in M'. injection M' as <-.
    rewrite (Full S A), app_nil_r in E. subst p.
    destruct (finish_after_resolve r1 s session k) as [before Tr].
    + exists s. now repeat split.
    + exact M.
    + now rewrite hasContent_accumulated, Acc.
    + rewrite Tr, (after_settled_first _ _ T). split.
      * exists before.
        rewrite yields_app, yields_map_Yielded. simpl. rewrite app_nil_r.
        now rewrite stream_content_chunk, Acc.
      * rewrite app_comm_cons, app_assoc. apply last_last.
  - intros rs sig settle R St.
    rewrite run_events_app.
    set (r1 := run_events (run_start chat rf messages nodes sig) progress).
    assert (P1 : resume_progressing (updates_of progress) r1).
    { apply (resume_progressing_events progress [] _ Pr).
      now apply (resume_progressing_start _ _ rs). }
    destruct P1 as [q [M [F [C [Th [Y [T P]]]]]]].
    rewrite run_events_cons.
    assert (Len : List.length (pending_chunks q)
                  <= List.length (updates_of progress)).
    { rewrite <- (chunks_from_length (mkAccumulated "" None [])), <- Y.
      rewrite length_app. lia. }
    destruct q as [qu rv aw fin tcs th p]. simpl in F, C, Th, P. subst fin.
    set (q2 := if rv
               then resolve_awaited None (mkResume qu rv aw true tcs th p)
               else mkResume qu rv aw true tcs th p).
    assert (S2 : step r1 settle
                 = mkRun (chatId r1) (refs r1) (signal r1)
                     (trace r1 ++ [BackendSettled]) (Resuming q2)).
    { unfold step. rewrite M.
      destruct settle; try discriminate St; reflexivity. }
    assert (Pq : pending_chunks q2
                 = pending_chunks (mkResume qu rv aw false tcs th p)).
    { unfold q2, resolve_awaited, pending_chunks. simpl.
      destruct p; [destruct aw as [[c0|]|]| |]; try contradiction.
      - now subst rv.
      - destruct P as [-> ->]. reflexivity.
      - now subst rv. }
    replace (S (List.length (updates_of progress)) + k)
      with (S (List.length (pending_chunks q2))
            + (List.length (updates_of progress)
               - List.length (pending_chunks q2) + k))
      by (rewrite Pq; lia).
    rewrite S2, (resume_drain _ _ q2).
    + cbn [trace]. split.
      * rewrite !yields_app, yields_map_Yielded, Pq.
        cbn [yields flat_map app]. rewrite !app_nil_r. exact Y.
      * rewrite !app_assoc. apply last_last.
    + reflexivity.
    + unfold q2, resolve_awaited. simpl.
      destruct rv; [destruct aw|]; reflexivity.
    + unfold q2, resolve_awaited. simpl.
      destruct p; [destruct aw as [[c0|]|]| |]; try contradiction.
      * now subst rv.
      * now destruct P as [-> ->].
      * now subst rv.
Qed.

Lemma final_publish_after_settlement_witness :
  exists before,
    yields
      (after_settled
         (trace
            (@run_events sample_externals sample_stream_run
               ([OnUpdate "he" [] ThinkingUndefined; Tick;
                 OnUpdate "hello" [] ThinkingUndefined]
                ++ Resolve "s9" :: repeat Tick (3 + 0)))))
    = before
      ++ [stream_chunk
            (@accumulated_after sample_externals
               (updates_of
                  [OnUpdate "he" [] ThinkingUndefined; Tick;
                   OnUpdate "hello" [] ThinkingUndefined]))].
Proof.
  refine
    (proj1
       (proj1
          (@final_publish_after_settlement sample_externals "c1" idle_refs
             (user_says "hi") []
             [OnUpdate "he" [] ThinkingUndefined; Tick;
              OnUpdate "hello" [] ThinkingUndefined]
             0 eq_refl)
          "s9" eq_refl _ eq_refl)).
  simpl. discriminate.
Defined.

(** ** Cancellation in normal mode *)

Section Cancel.
Context `{Externals}.

Lemma step_chatId (r : Run) (e : Event) : chatId (step r e) = chatId r.
Proof.
  unfold step. destruct (mode r) as [|s|q]; destruct e; simpl;
    try reflexivity;
    try (destruct (signal r); [reflexivity|]);
    break_lets; reflexivity.
Qed.

Lemma run_events_chatId (events : list Event) (r : Run) :
  chatId (run_events r events) = chatId r.
Proof.
  revert r. induction events as [|e events IH]; intro r; [reflexivity|].
  simpl. now rewrite IH, step_chatId.
Qed.

(** As long as the signal has not fired, a run in normal mode is not
    aborted and has made no stop call. *)
Lemma not_cancelled_step (r : Run) (e : Event) :
  (signal r = false ->
   (forall s, mode r = Streaming s -> aborted s = false)
   /\ stop_count (trace r) = 0
   /\ ~ In Cancelled (trace r)) ->
  signal (step r e) = false ->
  (forall s, mode (step r e) = Streaming s -> aborted s = false)
  /\ stop_count (trace (step r e)) = 0
  /\ ~ In Cancelled (trace (step r e)).
Proof.
  intros Q S'.
  assert (S : signal r = false).
  { destruct (signal r) eqn:Sg; [|reflexivity]. exfalso.
    unfold step in S'. destruct (mode r) as [|s|q]; destruct e;
      rewrite ?Sg in S'; break_lets; simpl in S'; congruence. }
  destruct (Q S) as [A [C N]]. clear Q.
  unfold step in *. destruct (mode r) as [|s|q] eqn:M.
  - destruct e;
      try (split; [intros s0 E; rewrite M in E; discriminate E | now split]).
    rewrite S in S'. simpl in S'. discriminate S'.
  - specialize (A s eq_refl).
    destruct e as [message tool_calls thinking|session|err| |].
    + cbn [mode trace]. split; [|now split].
      intros s' [= <-].
      now destruct (stream_onUpdate_obs (signal r) message tool_calls thinking s)
        as [-> _].
    + destruct (stream_onResolve session (refs r) s) as [[rf' s'] o] eqn:T.
      destruct (stream_onResolve_obs _ _ _ _ _ _ T)
        as [_ [B [_ [_ [Co [No _]]]]]].
      cbn [mode trace]. split; [intros ? [= <-]; congruence|].
      unfold stop_count in *. rewrite calls_app, Co, app_nil_r.
      split; [exact C|]. rewrite in_app_iff. tauto.
    + destruct (stream_onReject err (refs r) s) as [[rf' s'] o] eqn:T.
      destruct (stream_onReject_obs _ _ _ _ _ _ T)
        as [_ [B [_ [_ [Co [No _]]]]]].
      cbn [mode trace]. split; [intros ? [= <-]; congruence|].
      unfold stop_count in *. rewrite calls_app, Co, app_nil_r.
      split; [exact C|]. rewrite in_app_iff. tauto.
    + rewrite S in S'. destruct (stream_onAbort (chatId r) s).
      simpl in S'. discriminate S'.
    + destruct (stream_tick (signal r) (refs r) s) as [[rf' s'] o] eqn:T.
      destruct (stream_tick_obs _ _ _ _ _ _ T)
        as [_ [B [_ [_ [Co [_ [No _]]]]]]].
      cbn [mode trace]. split; [intros ? [= <-]; congruence|].
      unfold stop_count in *. rewrite calls_app, Co, app_nil_r.
      split; [exact C|]. rewrite in_app_iff. tauto.
  - destruct (resuming_step r q e M) as [q' [M' [_ [_ Cq]]]].
    unfold step in M', Cq. rewrite M in M', Cq.
    split; [intros s E; rewrite E in M'; discriminate M'|].
    split.
    + unfold stop_count in *. now rewrite Cq.
    + destruct e; cbn [trace]; try exact N.
      * destruct (resume_onSettled q) as [q2 o] eqn:T. cbn [trace].
        unfold resume_onSettled in T.
        destruct (finished q); split_pairs; rewrite in_app_iff; simpl;
          intuition discriminate.
      * destruct (resume_onSettled q) as [q2 o] eqn:T. cbn [trace].
        unfold resume_onSettled in T.
        destruct (finished q); split_pairs; rewrite in_app_iff; simpl;
          intuition discriminate.
      * rewrite S in S'. simpl in S'. discriminate S'.
      * destruct (resume_tick q) as [q2 o] eqn:T. cbn [trace].
        unfold resume_tick, resume_loop in T.
        destruct (resumePos q);
          [destruct (awaited q) as [[c0|]|]
          |destruct (queue q); [destruct (finished q)|]
          |];
          split_pairs; rewrite in_app_iff; simpl; intuition discriminate.
Qed.

Lemma not_cancelled_events (events : list Event) (r : Run) :
  (signal r = false ->
   (forall s, mode r = Streaming s -> aborted s = false)
   /\ stop_count (trace r) = 0
   /\ ~ In Cancelled (trace r)) ->
  signal (run_events r events) = false ->
  (forall s, mode (run_events r events) = Streaming s -> aborted s = false)
  /\ stop_count (trace (run_events r events)) = 0
  /\ ~ In Cancelled (trace (run_events r events)).
Proof.
  revert r. induction events as [|e events IH]; intros r Q S.
  - now apply Q.
  - rewrite run_events_cons in *. apply IH; [|exact S].
    intro S1. now apply not_cancelled_step.
Qed.

(** After the signal has fired on a run in normal mode that was
    listening, nothing more is yielded, nothing is thrown and no call
    is made. *)
Lemma cancelled_events (events : list Event) (r : Run) (s : Stream) :
  mode r = Streaming s -> signal r = true -> aborted s = true ->
  exists rest,
    trace (run_events r events) = trace r ++ rest
    /\ yields rest = []
    /\ calls rest = []
    /\ (forall e, ~ In (Threw e) rest).
Proof.
  revert r s. induction events as [|e events IH]; intros r s M S A.
  - exists []. rewrite app_nil_r. now repeat split.
  - rewrite run_events_cons.
    assert (St : exists s' o,
               mode (step r e) = Streaming s'
               /\ signal (step r e) = true
               /\ aborted s' = true
               /\ trace (step r e) = trace r ++ o
               /\ yields o = [] /\ calls o = []
               /\ (forall x, ~ In (Threw x) o)).
    { unfold step. rewrite M.
      destruct e as [message tool_calls thinking|session|err| |].
      - exists (stream_onUpdate (signal r) message tool_calls thinking s), [].
        destruct (stream_onUpdate_obs (signal r) message tool_calls thinking s)
          as [B _].
        cbn [mode signal trace]. rewrite app_nil_r, B.
        now repeat split.
      - destruct (stream_onResolve session (refs r) s) as [[rf' s'] o] eqn:T.
        destruct (stream_onResolve_obs _ _ _ _ _ _ T)
          as [_ [B [_ [Yo [Co [_ No]]]]]].
        exists s', o. cbn [mode signal trace]. rewrite B.
        now repeat split.
      - destruct (stream_onReject err (refs r) s) as [[rf' s'] o] eqn:T.
        destruct (stream_onReject_obs _ _ _ _ _ _ T)
          as [_ [B [_ [Yo [Co [_ No]]]]]].
        exists s', o. cbn [mode signal trace]. rewrite B.
        now repeat split.
      - rewrite S. exists s, []. rewrite M, app_nil_r. now repeat split.
      - destruct (stream_tick (signal r) (refs r) s) as [[rf' s'] o] eqn:T.
        destruct (stream_tick_obs _ _ _ _ _ _ T)
          as [_ [B [_ [Yo [Co [No _]]]]]].
        exists s', o. cbn [mode signal trace]. rewrite B.
        repeat split; try assumption.
        + destruct (yields o) as [|u l] eqn:Y; [reflexivity|].
          destruct (Yo u (or_introl eq_refl)). congruence.
        + intros x I. destruct (No x I). congruence. }
    destruct St as [s' [o [M' [S' [A' [Tr [Yo [Co No]]]]]]]].
    destruct (IH (step r e) s' M' S' A') as [rest [Tr' [Yr [Cr Nr]]]].
    exists (o ++ rest). rewrite Tr', Tr, <- app_assoc.
    split; [reflexivity|]. rewrite yields_app, calls_app, Yo, Yr, Co, Cr.
    repeat split. intros x I. apply in_app_iff in I.
    destruct I as [I|I]; [now apply (No x) | now apply (Nr x)].
Qed.

Lemma after_cancel_first (t rest : list Obs) :
  ~ In Cancelled t -> after_cancel (t ++ Cancelled :: rest) = rest.
Proof.
  induction t as [|o t IH]; intro N; [reflexivity|].
  simpl. destruct o; try (apply IH; intro I; apply N; now right).
  exfalso. apply N. now left.
Qed.

(** X22. Cancellation in normal mode: when the signal fires while the
    generator is alive and listens to it, no chunk is yielded
    afterwards, nothing is thrown to the consumer, whatever the backend
    call does later, and [stopMessage] is called exactly once in the
    whole run, for the chat of the adapter. *)
Lemma stream_cancel_is_clean chat rf messages nodes (before after : list Event)
  (s : Stream) :
  resumeSessionRef rf = None ->
  signal (run_events (run_start chat rf messages nodes false) before) = false ->
  mode (run_events (run_start chat rf messages nodes false) before)
  = Streaming s ->
  listening s = true ->
  yields
    (after_cancel
       (trace
          (run_events (run_start chat rf messages nodes false)
             (before ++ AbortSignal :: after))))
  = []
  /\ (forall e,
         ~ In (Threw e)
             (after_cancel
                (trace
                   (run_events (run_start chat rf messages nodes false)
                      (before ++ AbortSignal :: after)))))
  /\ stop_count
       (trace
          (run_events (run_start chat rf messages nodes false)
             (before ++ AbortSignal :: after)))
     = 1
  /\ In (Called (StopMessage chat))
       (trace
          (run_events (run_start chat rf messages nodes false)
             (before ++ AbortSignal :: after))).
Proof.
  intros R S M L.
  set (r0 := run_start chat rf messages nodes false) in *.
  assert (Q0 : signal r0 = false ->
               (forall s, mode r0 = Streaming s -> aborted s = false)
               /\ stop_count (trace r0) = 0
               /\ ~ In Cancelled (trace r0)).
  { intros _. unfold r0, run_start. rewrite R.
    destruct (isBackgroundTaskActiveRef rf);
      [repeat split; [intros ? [=] | simpl; intuition discriminate]|].
    destruct (last_message messages) as [m|];
      [|repeat split; [intros ? [=] | simpl; intuition discriminate]].
    destruct (role m);
      try (repeat split; [intros ? [=] | simpl; intuition discriminate]).
    destruct (find_text (content m)) as [text|];
      [|repeat split; [intros ? [=] | simpl; intuition discriminate]].
    simpl. repeat split; [intros ? [= <-]; reflexivity|].
    intuition discriminate. }
  destruct (not_cancelled_events before r0 Q0 S) as [A [C N]].
  specialize (A s M).
  rewrite run_events_app, run_events_cons.
  set (r1 := run_events r0 before) in *.
  assert (I1 : chatId r1 = chat).
  { unfold r1. rewrite run_events_chatId. unfold r0, run_start.
    destruct (resumeSessionRef rf); [reflexivity|].
    destruct (isBackgroundTaskActiveRef rf); [reflexivity|].
    destruct (last_message messages) as [m|]; [|reflexivity].
    destruct (role m); try reflexivity.
    destruct (find_text (content m)); [|reflexivity].
    now destruct (stream_start _ _ _ _ _ _). }
  destruct (handleAbort chat s) as [s2 o] eqn:T.
  destruct (handleAbort_obs _ _ _ _ T)
    as [_ [A2 [_ [_ [Yo [So [No _]]]]]]].
  rewrite A in So.
  assert (S2 : step r1 AbortSignal
               = mkRun chat (refs r1) true (trace r1 ++ Cancelled :: o)
                   (Streaming s2)).
  { unfold step. rewrite M, S. unfold stream_onAbort. rewrite L, I1, T.
    reflexivity. }
  destruct (cancelled_events after (step r1 AbortSignal) s2)
    as [rest [Tr [Yr [Cr Nr]]]]; try (rewrite S2; reflexivity); [exact A2|].
  rewrite Tr, S2. cbn [trace]. rewrite <- app_assoc, <- app_comm_cons.
  rewrite after_cancel_first by exact N.
  split; [now rewrite yields_app, Yo, Yr|]. split.
  - intros e I. apply in_app_iff in I.
    destruct I as [I|I]; [now apply (No e) | now apply (Nr e)].
  - split.
    + rewrite !stop_count_app, C. simpl.
      change (stop_count (Cancelled :: o ++ rest)) with (stop_count (o ++ rest)).
      rewrite stop_count_app, So. unfold stop_count. now rewrite Cr.
    + unfold handleAbort in T. rewrite A in T. injection T as _ <-.
      rewrite !in_app_iff. right. simpl. auto.
Qed.

End Cancel.

(** * Further properties of the runtime *)

(** ** The reconciler over a whole stream *)

Section ReconcilerMore.
Context `{Externals}.

Lemma last_for_none (k : option string) (tcs : list ToolCall) :
  last_for k tcs = None -> forall tc, In tc tcs -> call_id tc <> k.
Proof.
  induction tcs as [|t tcs IH]; simpl; [intros _ tc []|].
  destruct (last_for k tcs) eqn:L; [discriminate|].
  destruct (key_eqb (call_id t) k) eqn:E; [discriminate|].
  intros _ tc [<-|I]; [now apply key_eqb_false | now apply IH].
Qed.

Lemma last_for_some (k : option string) (tcs : list ToolCall) (tc : ToolCall) :
  last_for k tcs = Some tc -> In tc tcs /\ call_id tc = k.
Proof.
  induction tcs as [|t tcs IH]; simpl; [discriminate|].
  destruct (last_for k tcs) eqn:L.
  - intros [= <-]. destruct (IH eq_refl). split; [now right | assumption].
  - destruct (key_eqb (call_id t) k) eqn:E; [|discriminate].
    intros [= <-]. split; [now left | now apply key_eqb_true].
Qed.

(** X1. After any sequence of payloads, the record of an identifier
    shows its last payload: the tool name, the state snapshot, the
    terminal result and the error flag are those the last payload for
    that identifier gives, whatever came before. *)
Theorem record_shows_last_payload :
  forall (m : ToolCallMap) (raws : list RawToolCall) k (tc : ToolCall),
    last_for k (applied raws) = Some tc ->
    exists p,
      map_get k (applyToolCalls m raws) = Some p
      /\ toolName p = tool_name tc
      /\ streamState p
         = Some (mkResult (event_type tc) (tool_response tc)
                   (tool_call_details tc))
      /\ result p
         = (if is_result_or_error (event_type tc) then streamState p
            else None)
      /\ isError p
         = Some (if is_result_or_error (event_type tc)
                 then is_error (event_type tc) else false).
Proof.
  intros m raws k tc. rewrite applyToolCalls_applied.
  generalize (applied raws) as tcs. intro tcs. revert m.
  induction tcs as [|t tcs IH]; intros m L; simpl in L; [discriminate|].
  simpl. destruct (last_for k tcs) eqn:Lr.
  - injection L as <-. now apply IH.
  - destruct (key_eqb (call_id t) k) eqn:E; [|discriminate].
    injection L as <-. apply key_eqb_true in E. subst k.
    rewrite merge_all_other by (now apply last_for_none).
    destruct (mergeToolCall_get m t) as [p [G [S [R [Er _]]]]].
    exists p. repeat split; try assumption.
    unfold mergeToolCall in G. rewrite map_get_set_same in G.
    now injection G as <-.
Qed.

(** X2. A payload that cannot be parsed, or is [null], is skipped: the
    map is the one the other payloads of the batch give, in whatever
    place the bad payload stands. *)
Theorem malformed_payload_is_skipped :
  forall (m : ToolCallMap) (before after : list RawToolCall)
         (bad : RawToolCall),
    destructure bad = None ->
    applyToolCalls m (before ++ bad :: after)
    = applyToolCalls m (before ++ after).
Proof.
  intros m before after bad D.
  rewrite !applyToolCalls_applied, !applied_app.
  unfold applied at 2. simpl. rewrite D. reflexivity.
Qed.

Lemma args_of_object (rawArgs : option JsVal) : is_object (args_of rawArgs) = true.
Proof.
  unfold args_of. destruct rawArgs as [v|]; [|reflexivity].
  destruct (is_object v) eqn:O; [exact O | reflexivity].
Qed.

Lemma mergeToolCall_object_args (m : ToolCallMap) (tc : ToolCall) :
  (forall k p, map_get k m = Some p -> has_object_args p = true) ->
  forall k p, map_get k (mergeToolCall m tc) = Some p ->
              has_object_args p = true.
Proof.
  intros A k p G.
  destruct (key_eqb (call_id tc) k) eqn:E.
  - apply key_eqb_true in E. subst k. unfold mergeToolCall in G.
    rewrite map_get_set_same in G. injection G as <-.
    unfold has_object_args. simpl.
    destruct (details_arguments (tool_call_details tc)) eqn:D.
    + apply args_of_object.
    + destruct (map_get (call_id tc) m) eqn:G'.
      * now apply (A (call_id tc)).
      * apply args_of_object.
  - apply key_eqb_false in E. rewrite mergeToolCall_other in G by exact E.
    now apply (A k).
Qed.

(** X3. In the map of a reconciled stream the arguments of every record
    are an object, also when the payloads gave text, [null], a number,
    or nothing as arguments. *)
Theorem reconciled_args_are_objects :
  forall (events : list (list RawToolCall)) k p,
    map_get k (reconcile events) = Some p ->
    is_object (args p) = true.
Proof.
  intros events. rewrite reconcile_applied.
  assert (G : forall tcs (m : ToolCallMap),
             (forall k p, map_get k m = Some p -> has_object_args p = true) ->
             forall k p, map_get k (fold_left mergeToolCall tcs m) = Some p ->
                         has_object_args p = true).
  { induction tcs as [|tc tcs IH]; intros m A; [exact A|].
    simpl. apply IH. now apply mergeToolCall_object_args. }
  apply G. intros k p E. discriminate E.
Qed.

End ReconcilerMore.

Lemma record_shows_last_payload_witness :
  exists p,
    map_get (Some "a")
      (@applyToolCalls sample_externals [] [result_a; call_a]) = Some p
    /\ result p = None.
Proof.
  destruct
    (@record_shows_last_payload sample_externals [] [result_a; call_a]
       (Some "a")
       (mkToolCall (Some "a") None DUndefined (Some "call") None None)
       eq_refl)
    as [p [G [_ [_ [R _]]]]].
  exists p. split; [exact G | exact R].
Defined.

Lemma malformed_payload_is_skipped_witness :
  @applyToolCalls sample_externals []
    ([raw "b" "call" None] ++ RawString "{oops" :: [raw "b" "result" None])
  = @applyToolCalls sample_externals []
      ([raw "b" "call" None] ++ [raw "b" "result" None]).
Proof.
  exact
    (@malformed_payload_is_skipped sample_externals []
       [raw "b" "call" None] [raw "b" "result" None] (RawString "{oops")
       eq_refl).
Defined.

Lemma reconciled_args_are_objects_witness :
  is_object
    (args
       (mkPart (Some "a") (Some "search") (VObj []) "{partial"
          (Some
             (mkResult (Some "call") None
                (DObject [("arguments", VStr "{partial")])))
          None (Some false)))
  = true.
Proof.
  exact
    (@reconciled_args_are_objects sample_externals
       [[RawValue
           (ParsedObject
              (mkToolCall (Some "a") (Some "search")
                 (DObject [("arguments", VStr "{partial")])
                 (Some "call") None None))]]
       (Some "a") _ eq_refl).
Defined.

(** ** [dedupeToolCalls] *)

Lemma key_eqb_sym (a b : option string) : key_eqb a b = key_eqb b a.
Proof.
  destruct (key_eqb b a) eqn:E.
  - apply key_eqb_true in E. subst. apply key_eqb_refl.
  - apply key_eqb_false in E. apply key_eqb_false. congruence.
Qed.

Section FoldKeys.
Variables (V X : Type) (f : JsMap V -> X -> JsMap V) (key : X -> option string).
Hypothesis f_keys :
  forall m x,
    map_keys (f m x)
    = if seen (map_keys m) (key x) then map_keys m
      else map_keys m ++ [key x].

Lemma fold_keys (xs : list X) (m : JsMap V) :
  map_keys (fold_left f xs m)
  = map_keys m
    ++ filter (fun k => negb (seen (map_keys m) k)) (first_seen (map key xs)).
Proof.
  revert m. induction xs as [|x xs IH]; intro m; simpl.
  - now rewrite app_nil_r.
  - rewrite IH, f_keys.
    destruct (seen (map_keys m) (key x)) eqn:S; simpl.
    + apply seen_in in S. now rewrite filter_unseen_present.
    + rewrite <- app_assoc. simpl. now rewrite filter_unseen_absent.
Qed.

End FoldKeys.

Lemma map_set_absent {V : Type} (m : JsMap V) k v :
  ~ In k (map_keys m) -> map_set k v m = m ++ [(k, v)].
Proof.
  induction m as [|[k' v'] m IH]; simpl; [reflexivity|].
  intro N. destruct (key_eqb k k') eqn:E.
  - apply key_eqb_true in E. subst. exfalso. apply N. now left.
  - f_equal. apply IH. intro I. apply N. now right.
Qed.

(** Every entry of [byId] sits under the identifier it carries. *)
Lemma dedupe_step_keyed (m : JsMap ToolCall) (tc : ToolCall) :
  (forall k t, map_get k m = Some t -> call_id t = k) ->
  forall k t, map_get k (dedupe_step m tc) = Some t -> call_id t = k.
Proof.
  intros K k t. unfold dedupe_step.
  destruct (map_get (call_id tc) m) as [existing|] eqn:G.
  - destruct (is_final_event (event_type tc)); [|apply K].
    destruct (key_eqb k (call_id tc)) eqn:E.
    + apply key_eqb_true in E. subst k. rewrite map_get_set_same.
      intros [= <-]. simpl. destruct (call_id tc) eqn:C; [reflexivity|].
      simpl. rewrite <- C. apply K. now rewrite C.
    + apply key_eqb_false in E. rewrite map_get_set_other by exact E.
      apply K.
  - destruct (key_eqb k (call_id tc)) eqn:E.
    + apply key_eqb_true in E. subst k. rewrite map_get_set_same.
      now intros [= <-].
    + apply key_eqb_false in E. rewrite map_get_set_other by exact E.
      apply K.
Qed.

Lemma dedupe_fold_keyed (tcs : list ToolCall) (m : JsMap ToolCall) :
  (forall k t, map_get k m = Some t -> call_id t = k) ->
  forall k t, map_get k (fold_left dedupe_step tcs m) = Some t ->
              call_id t = k.
Proof.
  revert m. induction tcs as [|tc tcs IH]; intros m K; [exact K|].
  simpl. apply IH. now apply dedupe_step_keyed.
Qed.

Lemma dedupe_step_keys (m : JsMap ToolCall) (tc : ToolCall) :
  map_keys (dedupe_step m tc)
  = if seen (map_keys m) (call_id tc) then map_keys m
    else map_keys m ++ [call_id tc].
Proof.
  unfold dedupe_step.
  destruct (map_get (call_id tc) m) as [existing|] eqn:G.
  - assert (I : In (call_id tc) (map_keys m))
      by (apply map_get_in_keys; congruence).
    rewrite (proj2 (seen_in _ _) I).
    destruct (is_final_event (event_type tc)); [|reflexivity].
    now apply map_keys_set_present.
  - apply map_get_none_keys in G.
    rewrite (proj2 (seen_not_in _ _) G).
    now apply map_keys_set_absent.
Qed.

Lemma dedupe_fold_nodup (tcs : list ToolCall) (m : JsMap ToolCall) :
  NoDup (map_keys m) -> NoDup (map_keys (fold_left dedupe_step tcs m)).
Proof.
  revert m. induction tcs as [|tc tcs IH]; intros m ND; [exact ND|].
  simpl. apply IH. rewrite dedupe_step_keys.
  destruct (seen (map_keys m) (call_id tc)) eqn:S; [exact ND|].
  apply seen_not_in in S.
  apply NoDup_app; [exact ND | repeat constructor; auto |].
  intros x Ix [<-|[]]. contradiction.
Qed.

Lemma keyed_values_ids (m : JsMap ToolCall) :
  NoDup (map_keys m) ->
  (forall k t, map_get k m = Some t -> call_id t = k) ->
  map call_id (map_values m) = map_keys m.
Proof.
  induction m as [|[k v] m IH]; intros ND K; [reflexivity|].
  simpl in *. inversion ND as [|? ? N ND']; subst. f_equal.
  - apply K. simpl. now rewrite key_eqb_refl.
  - apply IH; [exact ND'|]. intros k' p G. apply K. simpl.
    destruct (key_eqb k' k) eqn:E; [|exact G].
    apply key_eqb_true in E. subst k'. exfalso. apply N.
    apply map_get_in_keys. congruence.
Qed.

Lemma keyed_find (m : JsMap ToolCall) k :
  NoDup (map_keys m) ->
  (forall k t, map_get k m = Some t -> call_id t = k) ->
  find (carries k) (map_values m) = map_get k m.
Proof.
  induction m as [|[k' v] m IH]; intros ND K; [reflexivity|].
  simpl in *. inversion ND as [|? ? N ND']; subst.
  assert (Kv : call_id v = k').
  { apply K. simpl. now rewrite key_eqb_refl. }
  unfold carries at 1. rewrite Kv.
  destruct (key_eqb k k') eqn:E; [reflexivity|].
  apply IH; [exact ND'|]. intros k0 p G. apply K. simpl.
  destruct (key_eqb k0 k') eqn:E0; [|exact G].
  apply key_eqb_true in E0. subst k0. exfalso. apply N.
  apply map_get_in_keys. congruence.
Qed.

(** X4. [dedupeToolCalls] returns one payload per call identifier, in
    the order the identifiers are first seen in its input. *)
Theorem dedupe_one_per_id_in_first_seen_order :
  forall tcs : list ToolCall,
    map call_id (dedupeToolCalls tcs) = first_seen (map call_id tcs)
    /\ NoDup (map call_id (dedupeToolCalls tcs)).
Proof.
  intro tcs.
  assert (E : map call_id (dedupeToolCalls tcs) = first_seen (map call_id tcs)).
  { unfold dedupeToolCalls. rewrite keyed_values_ids.
    - rewrite (fold_keys _ _ dedupe_step call_id dedupe_step_keys). simpl.
      induction (first_seen _) as [|x l IH]; simpl; [reflexivity|].
      now rewrite IH.
    - apply dedupe_fold_nodup. constructor.
    - apply dedupe_fold_keyed. intros k t G. discriminate G. }
  split; [exact E|]. rewrite E. apply first_seen_nodup.
Qed.

Lemma dedupe_step_other (m : JsMap ToolCall) (tc : ToolCall) k :
  call_id tc <> k -> map_get k (dedupe_step m tc) = map_get k m.
Proof.
  intro N. unfold dedupe_step.
  destruct (map_get (call_id tc) m);
    [destruct (is_final_event (event_type tc)); [|reflexivity]|];
    apply map_get_set_other; congruence.
Qed.

Lemma dedupe_fold_get (tcs : list ToolCall) (m : JsMap ToolCall) k :
  map_get k (fold_left dedupe_step tcs m)
  = match map_get k m with
    | Some current => Some (fold_left absorb (filter (carries k) tcs) current)
    | None =>
        match first_for k tcs with
        | Some (first, later) => Some (fold_left absorb later first)
        | None => None
        end
    end.
Proof.
  revert m. induction tcs as [|tc tcs IH]; intro m; simpl.
  - now destruct (map_get k m).
  - rewrite IH.
    assert (C : carries k tc = key_eqb (call_id tc) k)
      by (unfold carries; apply key_eqb_sym).
    rewrite C.
    destruct (key_eqb (call_id tc) k) eqn:E.
    + apply key_eqb_true in E. subst k. unfold dedupe_step.
      destruct (map_get (call_id tc) m) as [current|] eqn:G.
      * simpl.
        replace (absorb current tc)
          with (if is_final_event (event_type tc)
                then merge_final current tc else current)
          by reflexivity.
        destruct (is_final_event (event_type tc)).
        -- now rewrite map_get_set_same.
        -- now rewrite G.
      * rewrite map_get_set_same. simpl.
        f_equal. f_equal. apply filter_ext. intro t. unfold carries.
        apply key_eqb_sym.
    + apply key_eqb_false in E. rewrite dedupe_step_other by exact E.
      reflexivity.
Qed.

Lemma absorb_not_final (later : list ToolCall) (first : ToolCall) :
  forallb not_final later = true -> fold_left absorb later first = first.
Proof.
  revert first. induction later as [|t later IH]; intros first F;
    [reflexivity|].
  simpl in F. apply andb_true_iff in F. destruct F as [Ft F].
  simpl. unfold absorb at 2. unfold not_final in Ft.
  apply negb_true_iff in Ft. rewrite Ft. now apply IH.
Qed.

Lemma absorb_stays_final (later : list ToolCall) (first : ToolCall) :
  is_final_event (event_type first) = true ->
  is_final_event (event_type (fold_left absorb later first)) = true.
Proof.
  revert first. induction later as [|t later IH]; intros first F; [exact F|].
  simpl. apply IH. unfold absorb.
  destruct (is_final_event (event_type t)) eqn:Ft; [|exact F].
  simpl. destruct (event_type t); [exact Ft | discriminate Ft].
Qed.

(** X5. The payload [dedupeToolCalls] returns for an identifier is its
    first payload, taken over by each later payload of that identifier
    whose type is final (["result"], ["delegation_result"], ["error"]):
    without a later final payload the first one is returned as it is;
    after a later final payload, its response and its type are
    returned unless a still later final payload replaces them; and a
    payload that is final stays final. *)
Theorem dedupe_final_payload_wins :
  forall (tcs : list ToolCall) k (first : ToolCall) (later : list ToolCall),
    first_for k tcs = Some (first, later) ->
    find (carries k) (dedupeToolCalls tcs)
    = Some (fold_left absorb later first)
    /\ (forallb not_final later = true ->
        fold_left absorb later first = first)
    /\ (is_final_event (event_type first) = true ->
        is_final_event (event_type (fold_left absorb later first)) = true)
    /\ (forall l1 final l2,
           later = l1 ++ final :: l2 ->
           is_final_event (event_type final) = true ->
           forallb not_final l2 = true ->
           tool_response (fold_left absorb later first) = tool_response final
           /\ event_type (fold_left absorb later first) = event_type final).
Proof.
  intros tcs k first later F. split; [|split; [|split]].
  - unfold dedupeToolCalls. rewrite keyed_find.
    + now rewrite dedupe_fold_get, F.
    + apply dedupe_fold_nodup. constructor.
    + apply dedupe_fold_keyed. intros k0 t G. discriminate G.
  - apply absorb_not_final.
  - apply absorb_stays_final.
  - intros l1 final l2 -> Ff N2.
    rewrite fold_left_app. simpl. rewrite absorb_not_final by exact N2.
    unfold absorb. rewrite Ff. simpl. split; [reflexivity|].
    destruct (event_type final); [reflexivity | discriminate Ff].
Qed.

Lemma dedupe_final_payload_wins_witness :
  find (carries (Some "a"))
    (dedupeToolCalls
       [payload "a" "result" (Some (VStr "42")); payload "a" "call" None])
  = Some (payload "a" "result" (Some (VStr "42"))).
Proof.
  exact
    (proj1
       (dedupe_final_payload_wins
          [payload "a" "result" (Some (VStr "42")); payload "a" "call" None]
          (Some "a") (payload "a" "result" (Some (VStr "42")))
          [payload "a" "call" None] eq_refl)).
Defined.

Lemma dedupe_distinct (l : list ToolCall) (m : JsMap ToolCall) :
  NoDup (map_keys m ++ map call_id l) ->
  fold_left dedupe_step l m = m ++ map (fun t => (call_id t, t)) l.
Proof.
  revert m. induction l as [|t l IH]; intros m ND; simpl.
  - now rewrite app_nil_r.
  - assert (N : ~ In (call_id t) (map_keys m)).
    { intro I. apply NoDup_remove_2 in ND. apply ND.
      apply in_app_iff. now left. }
    unfold dedupe_step at 2.
    rewrite (proj2 (map_get_none_keys m (call_id t)) N).
    rewrite map_set_absent by exact N.
    rewrite IH.
    + now rewrite <- app_assoc.
    + unfold map_keys in *. rewrite map_app. simpl.
      rewrite <- app_assoc. exact ND.
Qed.

(** X6. [dedupeToolCalls] leaves a list of payloads with distinct
    identifiers as it is, so deduplicating twice gives what
    deduplicating once gives. *)
Theorem dedupe_idempotent :
  forall tcs : list ToolCall,
    dedupeToolCalls (dedupeToolCalls tcs) = dedupeToolCalls tcs.
Proof.
  intro tcs.
  destruct (dedupe_one_per_id_in_first_seen_order tcs) as [_ ND].
  unfold dedupeToolCalls at 1. rewrite dedupe_distinct by exact ND.
  simpl. unfold map_values. rewrite map_map. simpl. apply map_id.
Qed.

(** ** History-loaded messages *)

Lemma obj_get_set_same (k : string) (v : JsVal) (fs : list (string * JsVal)) :
  obj_get k (obj_set k v fs) = Some v.
Proof.
  induction fs as [|[k' v'] fs IH]; simpl.
  - now rewrite String.eqb_refl.
  - destruct (String.eqb k k') eqn:E; simpl.
    + now rewrite String.eqb_refl.
    + now rewrite E.
Qed.

Lemma obj_get_set_other (k k' : string) (v : JsVal)
  (fs : list (string * JsVal)) :
  k <> k' -> obj_get k (obj_set k' v fs) = obj_get k fs.
Proof.
  intro N. induction fs as [|[k0 v0] fs IH]; simpl.
  - apply String.eqb_neq in N. now rewrite N.
  - destruct (String.eqb k' k0) eqn:E; simpl.
    + apply String.eqb_eq in E. subst k0.
      apply String.eqb_neq in N. now rewrite N.
    + now rewrite IH.
Qed.

Lemma obj_set_keys (k : string) (v : JsVal) (fs : list (string * JsVal)) :
  map fst (obj_set k v fs)
  = map fst fs
    ++ match obj_get k fs with
       | Some _ => []
       | None => [k]
       end.
Proof.
  induction fs as [|[k' v'] fs IH]; simpl; [reflexivity|].
  destruct (String.eqb k k') eqn:E; simpl.
  - apply String.eqb_eq in E. subst k'. now rewrite app_nil_r.
  - now rewrite IH.
Qed.

(** X7. A tool call loaded from the history is always shown as
    finished: [apiToolCallToPart] gives it a result, whatever its event
    type, that carries the type and the response of the payload. When
    the details of the payload are an object, the details of the result
    are that object with its [summary] kept, or set to the empty string
    when it is missing or [null]; every other detail reads as before.
    When the payload has no details, they are the object whose only
    property is an empty [summary]. The arguments are those of the
    details when they are an object, and the empty object otherwise. *)
Theorem history_part_has_result_with_summary `{Externals} :
  forall tc : ToolCall,
    exists r fs,
      result (apiToolCallToPart tc) = Some r
      /\ res_event_type r = event_type tc
      /\ res_response r = tool_response tc
      /\ res_details r = DObject fs
      /\ (forall given,
             tool_call_details tc = DObject given ->
             (forall v,
                 obj_get "summary" given = Some v -> v <> VNull ->
                 obj_get "summary" fs = Some v)
             /\ (obj_get "summary" given = None
                 \/ obj_get "summary" given = Some VNull ->
                 obj_get "summary" fs = Some (VStr ""))
             /\ (forall k, k <> "summary" -> obj_get k fs = obj_get k given)
             /\ map fst fs
                = map fst given
                  ++ match obj_get "summary" given with
                     | Some _ => []
                     | None => ["summary"]
                     end)
      /\ ((forall given, tool_call_details tc <> DObject given) ->
          fs = [("summary", VStr "")])
      /\ (forall v,
             details_arguments (tool_call_details tc) = Some v ->
             is_object v = true ->
             args (apiToolCallToPart tc) = v)
      /\ ((forall v,
              details_arguments (tool_call_details tc) = Some v ->
              is_object v = false) ->
          args (apiToolCallToPart tc) = VObj []).
Proof.
  intro tc. unfold apiToolCallToPart. simpl.
  assert (A : (forall v,
                  details_arguments (tool_call_details tc) = Some v ->
                  is_object v = true ->
                  args_of (details_arguments (tool_call_details tc)) = v)
              /\ ((forall v,
                      details_arguments (tool_call_details tc) = Some v ->
                      is_object v = false) ->
                  args_of (details_arguments (tool_call_details tc))
                  = VObj [])).
  { unfold args_of.
    destruct (details_arguments (tool_call_details tc)) as [v|].
    - split.
      + intros w [= <-] O. now rewrite O.
      + intro N. now rewrite (N v eq_refl).
    - split; [discriminate | reflexivity]. }
  destruct A as [A1 A2].
  destruct (tool_call_details tc) as [| |given] eqn:D.
  - eexists. exists [("summary", VStr "")].
    repeat split; try assumption; discriminate.
  - eexists. exists [("summary", VStr "")].
    repeat split; try assumption; discriminate.
  - eexists. eexists. split; [reflexivity|]. simpl.
    split; [reflexivity|]. split; [reflexivity|]. split; [reflexivity|].
    split; [|split; [|split; assumption]].
    + intros g [= <-]. split; [|split; [|split]].
      * intros v G N. rewrite G, obj_get_set_same.
        destruct v; try reflexivity. now elim N.
      * intros [G | G]; rewrite G; apply obj_get_set_same.
      * intros k N. now apply obj_get_set_other.
      * apply obj_set_keys.
    + intro N. now elim (N given).
Qed.

Lemma string_app_cancel (s a b : string) : (s ++ a = s ++ b)%string -> a = b.
Proof.
  induction s as [|c s IH]; simpl; [auto|].
  intros [= E]. now apply IH.
Qed.

Lemma decimal_inj (a b : nat) : decimal a = decimal b -> a = b.
Proof.
  unfold decimal. intro E.
  apply (f_equal NilEmpty.uint_of_string) in E.
  rewrite !NilEmpty.usu in E. injection E as E.
  apply (f_equal Nat.of_uint) in E. now rewrite !Unsigned.of_to in E.
Qed.

Lemma history_image_attachments_ids (id : string) (urls : list string)
  (index : nat) (a : UiAttachment) :
  In a (history_image_attachments id index urls) ->
  exists j, index <= j
            /\ ui_id a = (id ++ "-attachment-" ++ decimal j)%string.
Proof.
  revert index. induction urls as [|u urls IH]; intros index; simpl;
    [intros []|].
  intros [<-|I].
  - exists index. split; [lia | reflexivity].
  - destruct (IH _ I) as [j [L E]]. exists j. split; [lia | exact E].
Qed.

Lemma history_image_attachments_nodup (id : string) (urls : list string)
  (index : nat) :
  NoDup (map ui_id (history_image_attachments id index urls)).
Proof.
  revert index. induction urls as [|u urls IH]; intro index; simpl;
    constructor; [|apply IH].
  intro I. apply in_map_iff in I. destruct I as [a [E I]].
  destruct (history_image_attachments_ids _ _ _ _ I) as [j [L Ej]].
  rewrite Ej in E. apply string_app_cancel in E.
  apply (string_app_cancel "-attachment-" (decimal j) (decimal index)) in E.
  apply decimal_inj in E. lia.
Qed.

Lemma image_urls_filter (atts : list BackendAttachment) :
  map Some (image_urls atts)
  = map download_url
      (filter
         (fun a =>
            (String.eqb (backend_attachment_type a) "image"
             && truthy_opt (download_url a))%bool)
         atts).
Proof.
  induction atts as [|a atts IH]; simpl; [reflexivity|].
  unfold image_url.
  destruct (String.eqb (backend_attachment_type a) "image"); simpl;
    [|exact IH].
  destruct (download_url a) as [u|] eqn:D; simpl; [|exact IH].
  destruct (truthy u); simpl; [|exact IH].
  now rewrite D, IH.
Qed.

Lemma history_image_attachments_length (id : string) (urls : list string)
  (index : nat) :
  List.length (history_image_attachments id index urls) = List.length urls.
Proof.
  revert index. induction urls as [|u urls IH]; intro index; simpl;
    [reflexivity|].
  now rewrite IH.
Qed.

Lemma history_image_attachments_nth (id : string) (urls : list string)
  (index i : nat) (u : string) :
  nth_error urls i = Some u ->
  nth_error (history_image_attachments id index urls) i
  = Some
      {| ui_id := id ++ "-attachment-" ++ decimal (index + i);
         ui_type := "image";
         ui_name := "Image " ++ decimal (index + i + 1);
         ui_contentType := "image/*";
         ui_status := Complete;
         ui_file := None;
         ui_content := Some [PartImage u] |}.
Proof.
  revert index i. induction urls as [|v urls IH]; intros index i N.
  - destruct i; discriminate N.
  - destruct i as [|i]; simpl in *.
    + injection N as ->. now rewrite Nat.add_0_r.
    + rewrite (IH (S index) i N).
      now rewrite <- !plus_n_Sm.
Qed.

(** X8. A message whose sender is ["user"] becomes a user message: its
    content is the text segment (empty when the message has no text)
    followed by the images. With multimodal support on and a message
    that says it has attachments and has them, the images are the
    download URLs of the attachments whose type is ["image"] and whose
    download URL is there and not empty, all of them, in the order of
    the attachments; in every other case there is no image. The
    message has one attachment per image, in the same order: the one at
    index [i] has the identifier [<message id>-attachment-<i>], the name
    [Image <i+1>] and the image as its content. *)
Theorem history_user_message `{Externals} :
  forall msg : BackendMessage,
    sender msg = "user" ->
    exists urls,
      history_role (convertToThreadMessage msg) = User
      /\ history_content (convertToThreadMessage msg)
         = PartText (or_empty (message_text msg)) :: map PartImage urls
      /\ (forall atts,
             isMultimodalEnabled = true ->
             has_attachments msg = true ->
             message_attachments msg = Some atts ->
             map Some urls
             = map download_url
                 (filter
                    (fun a =>
                       (String.eqb (backend_attachment_type a) "image"
                        && truthy_opt (download_url a))%bool)
                    atts))
      /\ ((isMultimodalEnabled && has_attachments msg)%bool = false
          \/ message_attachments msg = None ->
          urls = [])
      /\ List.length (history_attachments (convertToThreadMessage msg))
         = List.length urls
      /\ (forall i u,
             nth_error urls i = Some u ->
             nth_error (history_attachments (convertToThreadMessage msg)) i
             = Some
                 {| ui_id := message_id msg ++ "-attachment-" ++ decimal i;
                    ui_type := "image";
                    ui_name := "Image " ++ decimal (i + 1);
                    ui_contentType := "image/*";
                    ui_status := Complete;
                    ui_file := None;
                    ui_content := Some [PartImage u] |})
      /\ NoDup (map ui_id (history_attachments (convertToThreadMessage msg))).
Proof.
  intros msg S. unfold convertToThreadMessage. rewrite S. simpl.
  eexists. split; [reflexivity|]. split; [reflexivity|].
  split; [|split; [|split; [|split]]].
  - intros atts M A E. rewrite E, M, A. simpl.
    destruct atts as [|a atts]; [reflexivity|].
    apply image_urls_filter.
  - intros [F | N].
    + destruct (message_attachments msg) as [atts|]; [|reflexivity].
      now rewrite F.
    + now rewrite N.
  - apply history_image_attachments_length.
  - intros i u N. apply (history_image_attachments_nth _ _ 0 i u N).
  - apply history_image_attachments_nodup.
Qed.

Lemma history_user_message_witness :
  history_content
    (@convertToThreadMessage
       (Build_Externals (fun _ => None) (fun _ => "{}") true)
       (mkBackendMessage "m1" "user" (Some "look") true
          (Some [mkBackendAttachment "image" (Some "https://x/1.png");
                 mkBackendAttachment "pdf" (Some "https://x/2.pdf");
                 mkBackendAttachment "image" None;
                 mkBackendAttachment "image" (Some "https://x/4.png")])
          None None None))
  = [PartText "look"; PartImage "https://x/1.png";
     PartImage "https://x/4.png"]
  /\ nth_error
       (history_attachments
          (@convertToThreadMessage
             (Build_Externals (fun _ => None) (fun _ => "{}") true)
             (mkBackendMessage "m1" "user" (Some "look") true
                (Some [mkBackendAttachment "image" (Some "https://x/1.png");
                       mkBackendAttachment "pdf" (Some "https://x/2.pdf");
                       mkBackendAttachment "image" None;
                       mkBackendAttachment "image" (Some "https://x/4.png")])
                None None None)))
       1
     = Some
         (mkUiAttachment "m1-attachment-1" "image" "Image 2" "image/*"
            Complete None (Some [PartImage "https://x/4.png"])).
Proof.
  destruct
    (@history_user_message
       (Build_Externals (fun _ => None) (fun _ => "{}") true)
       (mkBackendMessage "m1" "user" (Some "look") true
          (Some [mkBackendAttachment "image" (Some "https://x/1.png");
                 mkBackendAttachment "pdf" (Some "https://x/2.pdf");
                 mkBackendAttachment "image" None;
                 mkBackendAttachment "image" (Some "https://x/4.png")])
          None None None)
       eq_refl)
    as (urls & _ & C & F & _ & _ & N & _).
  specialize (F _ eq_refl eq_refl eq_refl). simpl in F.
  destruct urls as [|u1 [|u2 [|u3 urls]]]; try discriminate F.
  injection F as -> ->.
  split; [exact C|].
  exact (N 1 "https://x/4.png" eq_refl).
Defined.

(** X9. A message of any other sender becomes an assistant message,
    complete, whose content is ordered like a streamed chunk: the
    reasoning segment, there exactly when the message has thinking
    that is not white space only; then the parts [apiToolCallToPart]
    makes of the deduplicated tool calls, one per call identifier in
    first-seen order, each with a result and the error flag off; then
    the text segment, always there and empty when the message has no
    text. *)
Theorem history_assistant_message `{Externals} :
  forall msg : BackendMessage,
    sender msg <> "user" ->
    exists reasoning tools,
      history_role (convertToThreadMessage msg) = Assistant
      /\ history_complete (convertToThreadMessage msg) = true
      /\ history_content (convertToThreadMessage msg)
         = reasoning ++ map PartToolCall tools
           ++ [PartText (or_empty (message_text msg))]
      /\ (forall t,
             message_thinking msg = Some t -> ~ blank t ->
             reasoning = [PartReasoning t])
      /\ (message_thinking msg = None
          \/ (exists t, message_thinking msg = Some t /\ blank t) ->
          reasoning = [])
      /\ tools
         = map apiToolCallToPart
             (dedupeToolCalls
                match message_tool_calls msg with
                | Some tcs => tcs
                | None => []
                end)
      /\ map toolCallId tools
         = first_seen
             (map call_id
                match message_tool_calls msg with
                | Some tcs => tcs
                | None => []
                end)
      /\ Forall (fun p => result p <> None /\ isError p = Some false) tools.
Proof.
  intros msg S. unfold convertToThreadMessage.
  apply String.eqb_neq in S. rewrite S. simpl.
  eexists. exists (map apiToolCallToPart
                     (dedupeToolCalls
                        match message_tool_calls msg with
                        | Some tcs => tcs
                        | None => []
                        end)).
  split; [reflexivity|]. split; [reflexivity|].
  split; [|split; [|split; [|split; [|split]]]].
  - f_equal. f_equal. rewrite map_map.
    destruct (message_tool_calls msg) as [[|tc tcs]|]; reflexivity.
  - intros t E B. rewrite E.
    destruct (truthy (trim t)) eqn:T; [reflexivity|].
    now apply truthy_trim in T.
  - intros [E | [t [E B]]]; rewrite E; [reflexivity|].
    apply truthy_trim in B. now rewrite B.
  - reflexivity.
  - rewrite map_map. simpl.
    apply (proj1 (dedupe_one_per_id_in_first_seen_order _)).
  - apply Forall_forall. intros p I. apply in_map_iff in I.
    destruct I as [tc [<- _]]. split; [discriminate | reflexivity].
Qed.

Lemma history_assistant_message_witness :
  exists tools,
    history_content
      (@convertToThreadMessage sample_externals
         (mkBackendMessage "m2" "agent" (Some "done") false None
            (Some "plan")
            (Some [payload "a" "call" None;
                   payload "a" "result" (Some (VStr "42"))])
            None))
    = PartReasoning "plan" :: map PartToolCall tools ++ [PartText "done"]
    /\ map toolCallId tools = [Some "a"]
    /\ map (fun p => option_map res_response (result p)) tools
       = [Some (Some (VStr "42"))].
Proof.
  destruct
    (@history_assistant_message sample_externals
       (mkBackendMessage "m2" "agent" (Some "done") false None (Some "plan")
          (Some [payload "a" "call" None;
                 payload "a" "result" (Some (VStr "42"))])
          None))
    as (reasoning & tools & _ & _ & C & R & _ & T & I & _).
  - discriminate.
  - exists tools. rewrite (R "plan" eq_refl) in C.
    + split; [exact C|]. split; [exact I|]. rewrite T. reflexivity.
    + intro B. apply trim_blank in B. discriminate B.
Defined.

Lemma with_parents_ids `{Externals} (converted : list HistoryMessage)
  (previous : option string) :
  map (fun x => history_id (fst x)) (with_parents previous converted)
  = map history_id converted
  /\ map snd (with_parents previous converted)
     = match converted with
       | [] => []
       | _ :: _ => previous :: map Some (removelast (map history_id converted))
       end.
Proof.
  revert previous. induction converted as [|m rest IH]; intro previous;
    [now split|].
  destruct (IH (Some (history_id m))) as [I P]. split.
  - simpl. now rewrite I.
  - simpl with_parents. simpl map at 1. rewrite P.
    destruct rest as [|m' rest]; reflexivity.
Qed.

Lemma convert_keeps_id `{Externals} (msg : BackendMessage) :
  history_id (convertToThreadMessage msg) = message_id msg.
Proof.
  unfold convertToThreadMessage.
  now destruct (String.eqb (sender msg) "user").
Qed.

(** X10. The history adapter loads a linear thread: the messages keep
    the order and the identifiers the backend gave, the first one has
    no parent and every other one has the message just before it as
    parent. Without a chat identifier, or when loading fails, the
    history is empty. *)
Theorem history_is_a_chain `{Externals} :
  forall (chatId : string) (messages : list BackendMessage),
    (chatId <> "" ->
     map (fun x => history_id (fst x)) (history_load chatId (Some messages))
     = map message_id messages
     /\ map snd (history_load chatId (Some messages))
        = match messages with
          | [] => []
          | _ :: _ => None :: map Some (removelast (map message_id messages))
          end)
    /\ history_load "" (Some messages) = []
    /\ history_load chatId None = [].
Proof.
  intros chatId messages. split; [|split].
  - intro N. unfold history_load, truthy.
    apply String.eqb_neq in N. rewrite N. simpl.
    destruct (with_parents_ids (map convertToThreadMessage messages) None)
      as [I P].
    assert (E : map history_id (map convertToThreadMessage messages)
                = map message_id messages).
    { rewrite map_map. apply map_ext. apply convert_keeps_id. }
    rewrite <- E. split; [exact I|]. rewrite P.
    destruct messages; reflexivity.
  - reflexivity.
  - unfold history_load. now destruct (truthy chatId).
Qed.

Lemma history_is_a_chain_witness :
  map snd
    (@history_load sample_externals "c1"
       (Some [mkBackendMessage "m1" "user" (Some "hi") false None None None None;
              mkBackendMessage "m2" "agent" (Some "yo") false None None None None;
              mkBackendMessage "m3" "user" (Some "ok") false None None None None]))
  = [None; Some "m1"; Some "m2"].
Proof.
  refine
    (proj2
       (proj1
          (@history_is_a_chain sample_externals "c1"
             [mkBackendMessage "m1" "user" (Some "hi") false None None None None;
              mkBackendMessage "m2" "agent" (Some "yo") false None None None None;
              mkBackendMessage "m3" "user" (Some "ok") false None None None None])
          _)).
  discriminate.
Defined.

(** ** The attachments adapter *)

Lemma NoDup_app_disjoint {A : Type} (l l' : list A) :
  NoDup (l ++ l') -> forall a, In a l -> ~ In a l'.
Proof.
  induction l as [|x l IH]; simpl; intros ND a; [intros []|].
  inversion ND as [|? ? N ND']; subst.
  intros [<-|I] I'.
  - apply N. apply in_app_iff. now right.
  - now apply (IH ND' a).
Qed.

Lemma map_get_split {V : Type} (m : JsMap V) k v :
  map_get k m = Some v ->
  exists m1 m2,
    m = m1 ++ (k, v) :: m2 /\ map_delete k m = m1 ++ m2.
Proof.
  induction m as [|[k' v'] m IH]; simpl; [discriminate|].
  destruct (key_eqb k k') eqn:E.
  - apply key_eqb_true in E. subst k'. intros [= ->].
    exists [], m. now split.
  - intro G. destruct (IH G) as [m1 [m2 [-> D]]].
    exists ((k', v') :: m1), m2. simpl. now rewrite D.
Qed.

Lemma map_get_delete_same {V : Type} (m : JsMap V) k :
  NoDup (map_keys m) -> map_get k (map_delete k m) = None.
Proof.
  induction m as [|[k' v'] m IH]; intro ND; simpl; [reflexivity|].
  inversion ND as [|? ? N ND']; subst.
  destruct (key_eqb k k') eqn:E.
  - apply key_eqb_true in E. subst k'. now apply map_get_none_keys.
  - simpl. rewrite E. now apply IH.
Qed.

(** What holds of a store after calls with the URLs [urls] and the
    identifiers [ids] made so far. *)
Lemma attachment_store_step (st : AttachmentStore) (urls ids : list string)
  (op : AttachmentOp) :
  NoDup (map_keys (objectUrls st))
  /\ NoDup (map_values (objectUrls st))
  /\ NoDup (revoked st)
  /\ (forall u, In u (map_values (objectUrls st)) -> ~ In u (revoked st))
  /\ (forall u, In u urls
                <-> In u (map_values (objectUrls st)) \/ In u (revoked st))
  /\ (forall k, In k (map_keys (objectUrls st)) ->
                exists i, k = Some i /\ In i ids) ->
  (forall u, In u (created_urls [op]) -> ~ In u urls) ->
  (forall i, In i (created_ids [op]) -> ~ In i ids) ->
  NoDup (map_keys (objectUrls (attachment_op st op)))
  /\ NoDup (map_values (objectUrls (attachment_op st op)))
  /\ NoDup (revoked (attachment_op st op))
  /\ (forall u, In u (map_values (objectUrls (attachment_op st op))) ->
                ~ In u (revoked (attachment_op st op)))
  /\ (forall u, In u (urls ++ created_urls [op])
                <-> In u (map_values (objectUrls (attachment_op st op)))
                    \/ In u (revoked (attachment_op st op)))
  /\ (forall k, In k (map_keys (objectUrls (attachment_op st op))) ->
                exists i, k = Some i /\ In i (ids ++ created_ids [op])).
Proof.
  intros [NK [NV [NR [D [C K]]]]] FU FI.
  assert (Revoke : forall id,
             let st' := revoke_url id st in
             NoDup (map_keys (objectUrls st'))
             /\ NoDup (map_values (objectUrls st'))
             /\ NoDup (revoked st')
             /\ (forall u, In u (map_values (objectUrls st')) ->
                           ~ In u (revoked st'))
             /\ (forall u, In u (urls ++ [])
                           <-> In u (map_values (objectUrls st'))
                               \/ In u (revoked st'))
             /\ (forall k, In k (map_keys (objectUrls st')) ->
                           exists i, k = Some i /\ In i (ids ++ []))).
  { intro id. unfold revoke_url. rewrite !app_nil_r.
    destruct (map_get (Some id) (objectUrls st)) as [url|] eqn:G;
      [|exact (conj NK (conj NV (conj NR (conj D (conj C K)))))].
    destruct (truthy url);
      [|exact (conj NK (conj NV (conj NR (conj D (conj C K)))))].
    destruct (map_get_split _ _ _ G) as [m1 [m2 [E Del]]].
    simpl. rewrite Del. rewrite E in *. clear E Del G.
    unfold map_keys, map_values in *. rewrite !map_app in *. simpl in *.
    split; [now apply NoDup_remove_1 in NK|].
    split; [now apply NoDup_remove_1 in NV|].
    assert (Nu : ~ In url (map snd m1 ++ map snd m2))
      by now apply NoDup_remove_2 in NV.
    split.
    { apply NoDup_app; [exact NR | repeat constructor; auto |].
      intros x Ix [E|[]]. subst x. apply (D url); [|exact Ix].
      apply in_app_iff. right. now left. }
    split.
    { intros u Iu Ir. apply in_app_iff in Ir. destruct Ir as [Ir|[<-|[]]].
      - apply (D u); [|exact Ir]. apply in_app_iff in Iu.
        apply in_app_iff. destruct Iu; [now left | right; now right].
      - contradiction. }
    split.
    { intro u. rewrite C, !in_app_iff. simpl. tauto. }
    intros k Ik. apply K. apply in_app_iff in Ik. apply in_app_iff.
    destruct Ik; [now left | right; now right]. }
  destruct op as [file name ct u i|a|a]; simpl attachment_op.
  - (* add *)
    simpl in FU, FI. simpl created_urls. simpl created_ids.
    unfold attachment_add. simpl.
    assert (Ni : ~ In (Some i) (map_keys (objectUrls st))).
    { intro I. destruct (K _ I) as [j [[= <-] Ij]].
      apply (FI i); [now left | exact Ij]. }
    assert (Nu : ~ In u (map_values (objectUrls st)) /\ ~ In u (revoked st)).
    { split; intro I; apply (FU u); try (now left); apply C; auto. }
    rewrite map_set_absent by exact Ni.
    unfold map_keys, map_values in *. rewrite !map_app. simpl.
    split.
    { apply NoDup_app; [exact NK | repeat constructor; auto |].
      intros x Ix [<-|[]]. contradiction. }
    split.
    { apply NoDup_app; [exact NV | repeat constructor; auto |].
      intros x Ix [<-|[]]. now destruct Nu. }
    split; [exact NR|]. split.
    { intros x Ix. apply in_app_iff in Ix. destruct Ix as [Ix|[<-|[]]].
      - now apply D.
      - now destruct Nu. }
    split.
    { intro x. rewrite !in_app_iff, C. simpl. tauto. }
    intros k Ik. apply in_app_iff in Ik. destruct Ik as [Ik|[<-|[]]].
    + destruct (K _ Ik) as [j [-> Ij]]. exists j. split; [reflexivity|].
      apply in_app_iff. now left.
    + exists i. split; [reflexivity|]. apply in_app_iff. right. now left.
  - exact (Revoke (ui_id a)).
  - exact (Revoke (ui_id a)).
Qed.

Lemma created_urls_app (a b : list AttachmentOp) :
  created_urls (a ++ b) = created_urls a ++ created_urls b.
Proof. apply flat_map_app. Qed.

Lemma created_ids_app (a b : list AttachmentOp) :
  created_ids (a ++ b) = created_ids a ++ created_ids b.
Proof. apply flat_map_app. Qed.

Lemma attachment_store_invariant (ops : list AttachmentOp) :
  NoDup (created_ids ops) ->
  NoDup (created_urls ops) ->
  let st := fold_left attachment_op ops (mkAttachmentStore [] []) in
  NoDup (map_keys (objectUrls st))
  /\ NoDup (map_values (objectUrls st))
  /\ NoDup (revoked st)
  /\ (forall u, In u (map_values (objectUrls st)) -> ~ In u (revoked st))
  /\ (forall u, In u (created_urls ops)
                <-> In u (map_values (objectUrls st)) \/ In u (revoked st))
  /\ (forall k, In k (map_keys (objectUrls st)) ->
                exists i, k = Some i /\ In i (created_ids ops)).
Proof.
  induction ops as [|op ops IH] using rev_ind; intros NI NU.
  - simpl. repeat split; try constructor; simpl; tauto.
  - rewrite created_ids_app in NI. rewrite created_urls_app in NU.
    rewrite fold_left_app. simpl fold_left.
    rewrite created_urls_app, created_ids_app.
    apply attachment_store_step.
    + apply IH; [now apply NoDup_app_remove_r in NI
                | now apply NoDup_app_remove_r in NU].
    + intros u Iu I. now apply (NoDup_app_disjoint _ _ NU u).
    + intros i Ii I. now apply (NoDup_app_disjoint _ _ NI i).
Qed.

(** X11. Whatever calls are made on the attachments adapter, with the
    identifiers and the object URLs of its [add] calls all distinct, no
    URL is revoked twice, only URLs made by [add] are revoked, and every
    URL made is either still tracked by the adapter or revoked, never
    both and never lost. *)
Theorem attachment_urls_revoked_at_most_once :
  forall ops : list AttachmentOp,
    NoDup (created_ids ops) ->
    NoDup (created_urls ops) ->
    NoDup (revoked (fold_left attachment_op ops (mkAttachmentStore [] [])))
    /\ (forall u,
           In u (created_urls ops)
           <-> In u (map_values
                       (objectUrls
                          (fold_left attachment_op ops
                             (mkAttachmentStore [] []))))
               \/ In u (revoked
                          (fold_left attachment_op ops
                             (mkAttachmentStore [] []))))
    /\ (forall u,
           In u (map_values
                   (objectUrls
                      (fold_left attachment_op ops (mkAttachmentStore [] [])))) ->
           ~ In u (revoked
                     (fold_left attachment_op ops (mkAttachmentStore [] [])))).
Proof.
  intros ops NI NU.
  destruct (attachment_store_invariant ops NI NU) as [_ [_ [NR [D [C _]]]]].
  split; [exact NR|]. split; [exact C | exact D].
Qed.

Lemma attachment_urls_revoked_at_most_once_witness :
  revoked
    (fold_left attachment_op
       [OpAdd "f1" "a.png" "image/png" "blob:1" "id-1";
        OpAdd "f2" "b.png" "image/png" "blob:2" "id-2";
        OpSend (mkUiAttachment "id-1" "image" "a.png" "image/png"
                  RequiresAction (Some "f1") None);
        OpRemove (mkUiAttachment "id-1" "image" "a.png" "image/png"
                    Complete (Some "f1") None)]
       (mkAttachmentStore [] []))
  = ["blob:1"]
  /\ NoDup ["blob:1"].
Proof.
  split; [reflexivity|].
  refine
    (proj1
       (attachment_urls_revoked_at_most_once
          [OpAdd "f1" "a.png" "image/png" "blob:1" "id-1";
           OpAdd "f2" "b.png" "image/png" "blob:2" "id-2";
           OpSend (mkUiAttachment "id-1" "image" "a.png" "image/png"
                     RequiresAction (Some "f1") None);
           OpRemove (mkUiAttachment "id-1" "image" "a.png" "image/png"
                       Complete (Some "f1") None)]
          _ _)).
  - simpl. repeat constructor; simpl; intuition discriminate.
  - simpl. repeat constructor; simpl; intuition discriminate.
Defined.

Lemma revoke_url_twice (id : string) (st : AttachmentStore) :
  NoDup (map_keys (objectUrls st)) ->
  revoke_url id (revoke_url id st) = revoke_url id st.
Proof.
  intro ND. unfold revoke_url.
  destruct (map_get (Some id) (objectUrls st)) as [url|] eqn:G.
  - destruct (truthy url) eqn:T.
    + simpl. now rewrite map_get_delete_same.
    + now rewrite G, T.
  - now rewrite G.
Qed.

(** X12. Sending an attachment keeps its identifier, name, types and
    file and marks it complete; the URL the adapter tracked for it is
    revoked and forgotten; and removing or sending the same attachment
    afterwards revokes nothing more. *)
Theorem attachment_send_then_remove :
  forall (ops : list AttachmentOp) (a : UiAttachment),
    NoDup (created_ids ops) ->
    NoDup (created_urls ops) ->
    let st := fold_left attachment_op ops (mkAttachmentStore [] []) in
    let sent := snd (attachment_send a st) in
    let st' := fst (attachment_send a st) in
    (ui_id sent = ui_id a /\ ui_name sent = ui_name a
     /\ ui_type sent = ui_type a /\ ui_contentType sent = ui_contentType a
     /\ ui_file sent = ui_file a /\ ui_status sent = Complete)
    /\ (forall url,
           map_get (Some (ui_id a)) (objectUrls st) = Some url ->
           url <> "" ->
           revoked st' = revoked st ++ [url]
           /\ map_get (Some (ui_id a)) (objectUrls st') = None)
    /\ attachment_remove sent st' = st'
    /\ fst (attachment_send sent st') = st'.
Proof.
  intros ops a NI NU st sent st'.
  destruct (attachment_store_invariant ops NI NU) as [NK _].
  fold st in NK.
  split; [now repeat split|]. split; [|split].
  - intros url G N. unfold st', attachment_send, revoke_url. simpl.
    rewrite G. unfold truthy. apply String.eqb_neq in N. rewrite N. simpl.
    split; [reflexivity | now apply map_get_delete_same].
  - unfold attachment_remove, sent, st'. simpl. now apply revoke_url_twice.
  - unfold sent, st'. simpl. now apply revoke_url_twice.
Qed.

Lemma attachment_send_then_remove_witness :
  attachment_remove
    (snd
       (attachment_send
          (mkUiAttachment "id-1" "image" "a.png" "image/png" RequiresAction
             (Some "f1") None)
          (fold_left attachment_op
             [OpAdd "f1" "a.png" "image/png" "blob:1" "id-1"]
             (mkAttachmentStore [] []))))
    (fst
       (attachment_send
          (mkUiAttachment "id-1" "image" "a.png" "image/png" RequiresAction
             (Some "f1") None)
          (fold_left attachment_op
             [OpAdd "f1" "a.png" "image/png" "blob:1" "id-1"]
             (mkAttachmentStore [] []))))
  = mkAttachmentStore [] ["blob:1"].
Proof.
  refine
    (proj1
       (proj2
          (proj2
             (attachment_send_then_remove
                [OpAdd "f1" "a.png" "image/png" "blob:1" "id-1"]
                (mkUiAttachment "id-1" "image" "a.png" "image/png"
                   RequiresAction (Some "f1") None)
                _ _)))).
  - simpl. repeat constructor; simpl; intuition discriminate.
  - simpl. repeat constructor; simpl; intuition discriminate.
Defined.

(** ** Dispatch of a new turn *)

Section Dispatch.
Context `{Externals}.

(** X13. Input validation: with no resume request pending and no
    background task, a turn whose last message is missing or is not a
    user message is refused with "No user message found", and a last
    user message without a text part with "Message must contain text";
    in both cases no backend call is ever made and the shared
    references are left untouched. *)
Theorem run_refuses_malformed_turn :
  forall chat rf messages nodes sig events,
    resumeSessionRef rf = None ->
    isBackgroundTaskActiveRef rf = false ->
    (forall m text,
        last_message messages = Some m -> role m = User ->
        find_text (content m) = Some text -> False) ->
    trace (run_start chat rf messages nodes sig)
    = [Threw
         match last_message messages with
         | Some m =>
             match role m with
             | User => MessageMustContainText
             | _ => NoUserMessage
             end
         | None => NoUserMessage
         end]
    /\ calls (trace (run_events (run_start chat rf messages nodes sig) events))
       = []
    /\ refs (run_events (run_start chat rf messages nodes sig) events) = rf.
Proof.
  intros chat rf messages nodes sig events R B Bad.
  assert (S : exists e,
             run_start chat rf messages nodes sig
             = mkRun chat rf sig [Threw e] NotRunning
             /\ e = match last_message messages with
                    | Some m =>
                        match role m with
                        | User => MessageMustContainText
                        | _ => NoUserMessage
                        end
                    | None => NoUserMessage
                    end).
  { unfold run_start. rewrite R, B.
    destruct (last_message messages) as [m|]; [|eexists; now split].
    destruct (role m) eqn:Ro; try (eexists; now split).
    destruct (find_text (content m)) as [text|] eqn:F;
      [|eexists; now split].
    exfalso. exact (Bad m text eq_refl Ro F). }
  destruct S as [e [S ->]].
  destruct (not_running_events events (run_start chat rf messages nodes sig))
    as [_ [Rf C]].
  { now rewrite S. }
  rewrite Rf, C, S. now repeat split.
Qed.


End Dispatch.

Lemma run_refuses_malformed_turn_witness :
  trace
    (@run_start sample_externals "c1" idle_refs
       [mkMessage User [ImagePart "https://x/1.png"] []] [] false)
  = [Threw MessageMustContainText].
Proof.
  refine
    (proj1
       (@run_refuses_malformed_turn sample_externals "c1" idle_refs
          [mkMessage User [ImagePart "https://x/1.png"] []] [] false [Tick]
          eq_refl eq_refl _)).
  intros m text [= <-] _ F. discriminate F.
Defined.


(** ** Every run, every schedule *)

Section AllRuns.
Context `{Externals}.

Lemma stream_tick_shape (sig : bool) (rf rf' : Refs) (s s' : Stream)
  (o : list Obs) :
  stream_tick sig rf s = (rf', s', o) ->
  (is_finished (pos s) = true -> s' = s /\ o = [] /\ rf' = rf)
  /\ (o = []
      \/ (exists u, o = [Yielded u])
      \/ ((o = [Returned] \/ exists e, o = [Threw e])
          /\ pos s' = Finished /\ listening s' = false
          /\ isStreaming (streamingStateRef rf') = false))
  /\ List.length (yields o) + owed s' + final_allowance s
     <= owed s + final_allowance s'.
Proof.
  destruct s as [text th tcs hu ab fin wait sp lis p].
  unfold stream_tick, loop_top, after_loop, stream_finally, owed,
    final_allowance.
  simpl. intro T.
  destruct p as [c [[e|]|]| | |]; destruct ab, hu, fin, sig; simpl in T;
    repeat match type of T with
           | context [if ?b then _ else _] => destruct b eqn:?
           end;
    injection T as <- <- <-; simpl;
    (split; [intro F; try discriminate F; now repeat split|]);
    (split; [|destruct sp; simpl; lia]);
    try (now left);
    try (right; left; eexists; reflexivity);
    try (right; right; repeat split; try (now left);
         right; eexists; reflexivity).
Qed.

Lemma stream_handlers_keep_pos (sig : bool) message tool_calls thinking
  session err chat (rf : Refs) (s : Stream) :
  (in_loop (pos (stream_onUpdate sig message tool_calls thinking s))
   = in_loop (pos s)
   /\ is_finished (pos (stream_onUpdate sig message tool_calls thinking s))
      = is_finished (pos s))
  /\ (in_loop (pos (snd (fst (stream_onResolve session rf s))))
      = in_loop (pos s)
      /\ is_finished (pos (snd (fst (stream_onResolve session rf s))))
         = is_finished (pos s)
      /\ hasUpdate (snd (fst (stream_onResolve session rf s))) = hasUpdate s)
  /\ (in_loop (pos (snd (fst (stream_onReject err rf s)))) = in_loop (pos s)
      /\ is_finished (pos (snd (fst (stream_onReject err rf s))))
         = is_finished (pos s)
      /\ hasUpdate (snd (fst (stream_onReject err rf s))) = hasUpdate s)
  /\ (in_loop (pos (fst (handleAbort chat s))) = in_loop (pos s)
      /\ is_finished (pos (fst (handleAbort chat s))) = is_finished (pos s)
      /\ hasUpdate (fst (handleAbort chat s)) = hasUpdate s).
Proof.
  destruct s as [text th tcs hu ab fin wait sp lis p].
  unfold stream_onUpdate, stream_onResolve, stream_onReject, handleAbort,
    resolveNext, rejectStream, new_waitForUpdate.
  simpl.
  destruct p as [[|] [[e|]|]| | |]; destruct sig, ab, wait, sp; simpl;
    repeat split.
Qed.

Lemma stream_settle_shape session err (rf : Refs) (s : Stream) :
  (snd (stream_onResolve session rf s) = []
   \/ snd (stream_onResolve session rf s) = [BackendSettled])
  /\ (snd (stream_onReject err rf s) = []
      \/ snd (stream_onReject err rf s) = [BackendSettled]).
Proof.
  unfold stream_onResolve, stream_onReject.
  destruct (streamPromise s); simpl; auto.
Qed.

Lemma resume_tick_shape (q q' : Resume) (o : list Obs) :
  resume_tick q = (q', o) ->
  (resumePos q = ResumeFinished -> q' = q /\ o = [])
  /\ (o = []
      \/ (exists u, o = [Yielded u])
      \/ (o = [Returned] /\ resumePos q' = ResumeFinished))
  /\ List.length (yields o) + held q' <= held q.
Proof.
  destruct q as [qu rs aw fin tcs th p].
  unfold resume_tick, resume_loop, held. simpl. intro T.
  destruct p; [destruct aw as [[c|]|]|destruct qu as [|c rest]; [destruct fin|]|];
    injection T as <- <-; simpl;
    (split; [intro F; try discriminate F; now split|]);
    (split; [|try destruct aw as [[?|]|]; simpl; lia]);
    try (now left);
    try (right; left; eexists; reflexivity);
    try (right; right; now split).
Qed.

Lemma resume_handlers_shape message tool_calls thinking (q : Resume) :
  (resumePos (resume_onUpdate message tool_calls thinking q) = resumePos q
   /\ held (resume_onUpdate message tool_calls thinking q) <= held q + 1)
  /\ (resumePos (fst (resume_onSettled q)) = resumePos q
      /\ held (fst (resume_onSettled q)) = held q
      /\ (snd (resume_onSettled q) = []
          \/ snd (resume_onSettled q) = [BackendSettled])).
Proof.
  destruct q as [qu rs aw fin tcs th p].
  unfold resume_onUpdate, resume_onSettled, pushToQueue, resolve_awaited, held.
  simpl.
  destruct rs, fin, aw as [[c|]|], p; simpl;
    rewrite ?length_app; simpl; repeat split; auto; lia.
Qed.

Lemma after_end_app (a b : list Obs) :
  after_end (a ++ b)
  = if has_ended a then after_end a ++ b else after_end b.
Proof.
  induction a as [|o a IH]; simpl; [reflexivity|].
  destruct (is_end o); simpl; [reflexivity|exact IH].
Qed.

Lemma ends_once_extend (t o : list Obs) :
  forallb is_mark (after_end t) = true ->
  (has_ended t = true -> forallb is_mark o = true) ->
  forallb is_mark (after_end o) = true ->
  forallb is_mark (after_end (t ++ o)) = true.
Proof.
  intros A B C. rewrite after_end_app.
  destruct (has_ended t); [|exact C].
  rewrite forallb_app, A. simpl. now apply B.
Qed.

(** What one event adds to the trace of a run in normal mode. *)
Lemma streaming_step (r : Run) (s : Stream) (e : Event) :
  mode r = Streaming s ->
  exists s' o,
    mode (step r e) = Streaming s'
    /\ trace (step r e) = trace r ++ o
    /\ ((is_finished (pos s) && negb (listening s))%bool = true ->
        forallb is_mark o = true
        /\ (is_finished (pos s') && negb (listening s'))%bool = true)
    /\ forallb is_mark (after_end o) = true
    /\ (has_ended o = true ->
        (is_finished (pos s') && negb (listening s'))%bool = true)
    /\ stop_count o + (if aborted s then 1 else 0)
       = (if aborted s' then 1 else 0)
    /\ List.length (yields o) + owed s' + final_allowance s
       <= owed s + final_allowance s' + (if is_update e then 1 else 0).
Proof.
  intro M. destruct r as [c rf sg t m]. simpl in M. subst m.
  destruct e as [message tool_calls thinking|session|err| |]; unfold step; simpl.
  - exists (stream_onUpdate sg message tool_calls thinking s), [].
    destruct (stream_handlers_keep_pos sg message tool_calls thinking
                "" AbortError c rf s) as [[L F] _].
    destruct (stream_onUpdate_obs sg message tool_calls thinking s)
      as (A & _ & Li & _).
    rewrite app_nil_r, A, Li, F. unfold owed, final_allowance.
    rewrite L. simpl.
    repeat split; auto; try discriminate.
    destruct (in_loop (pos s)), (hasUpdate s),
      (hasUpdate (stream_onUpdate sg message tool_calls thinking s));
      simpl; lia.
  - destruct (stream_handlers_keep_pos sg "" [] ThinkingUndefined
                session AbortError c rf s) as (_ & (L & F & U) & _).
    destruct (stream_settle_shape session AbortError rf s) as [O _].
    destruct (stream_onResolve session rf s) as [[rf' s'] o] eqn:T.
    destruct (stream_onResolve_obs _ _ _ _ _ _ T) as (_ & A & Li & _).
    simpl in L, F, U, O. exists s', o. simpl.
    rewrite A, Li, F. unfold owed, final_allowance. rewrite L, U.
    destruct O as [-> | ->]; simpl; repeat split; auto; try discriminate;
      destruct (aborted s); simpl; lia.
  - destruct (stream_handlers_keep_pos sg "" [] ThinkingUndefined
                "" err c rf s) as (_ & _ & (L & F & U) & _).
    destruct (stream_settle_shape "" err rf s) as [_ O].
    destruct (stream_onReject err rf s) as [[rf' s'] o] eqn:T.
    destruct (stream_onReject_obs _ _ _ _ _ _ T) as (_ & A & Li & _).
    simpl in L, F, U, O. exists s', o. simpl.
    rewrite A, Li, F. unfold owed, final_allowance. rewrite L, U.
    destruct O as [-> | ->]; simpl; repeat split; auto; try discriminate;
      destruct (aborted s); simpl; lia.
  - destruct sg; simpl.
    + exists s, []. rewrite app_nil_r. simpl.
      repeat split; auto; try discriminate; lia.
    + unfold stream_onAbort. destruct (listening s) eqn:Li.
      * destruct (stream_handlers_keep_pos false "" [] ThinkingUndefined
                    "" AbortError c rf s) as (_ & _ & _ & (L & F & U)).
        destruct (handleAbort c s) as [s' o] eqn:T.
        destruct (handleAbort_obs _ _ _ _ T) as (_ & A & Li' & _ & Y & S & _).
        simpl in L, F, U. exists s', (Cancelled :: o). simpl.
        rewrite A, Li', Li, F. unfold owed, final_allowance. rewrite L, U.
        assert (O : o = [] \/ o = [Called (StopMessage c)]).
        { unfold handleAbort in T. destruct (aborted s);
            injection T as _ <-; auto. }
        rewrite !andb_false_r.
        destruct O as [-> | ->]; simpl; repeat split; auto; try discriminate;
          destruct (aborted s); simpl in *; try discriminate; lia.
      * exists s, [Cancelled]. simpl. rewrite Li.
        repeat split; auto; try discriminate; lia.
  - destruct (stream_tick sg rf s) as [[rf' s'] o] eqn:T.
    destruct (stream_tick_shape _ _ _ _ _ _ T) as (Fi & Sh & Ch).
    destruct (stream_tick_obs _ _ _ _ _ _ T) as (_ & A & _ & _ & Ca & _).
    exists s', o. simpl. rewrite A.
    assert (St : stop_count o = 0) by (unfold stop_count; now rewrite Ca).
    rewrite St.
    split; [reflexivity|]. split; [reflexivity|].
    split.
    { intro E. apply andb_prop in E as E'. destruct E' as [E1 E2].
      destruct (Fi E1) as (-> & -> & _). now split. }
    split.
    { destruct Sh as [-> | [[u ->] | [[-> | [e ->]] _]]]; reflexivity. }
    split.
    { destruct Sh as [-> | [[u ->] | [_ (P & Li & _)]]];
        try discriminate.
      intros _. now rewrite P, Li. }
    split; [reflexivity|lia].
Qed.

(** The same for a run in resume mode. *)
Lemma resuming_step_shape (r : Run) (q : Resume) (e : Event) :
  mode r = Resuming q ->
  exists q' o,
    mode (step r e) = Resuming q'
    /\ trace (step r e) = trace r ++ o
    /\ (resumePos q = ResumeFinished ->
        forallb is_mark o = true /\ resumePos q' = ResumeFinished)
    /\ forallb is_mark (after_end o) = true
    /\ (has_ended o = true -> resumePos q' = ResumeFinished)
    /\ calls o = []
    /\ (forall err, ~ In (Threw err) o)
    /\ List.length (yields o) + held q'
       <= held q + (if is_update e then 1 else 0).
Proof.
  intro M. destruct r as [c rf sg t m]. simpl in M. subst m.
  destruct e as [message tool_calls thinking|session|err| |]; unfold step; simpl.
  - destruct (resume_handlers_shape message tool_calls thinking q)
      as [[P Hd] _].
    exists (resume_onUpdate message tool_calls thinking q), [].
    rewrite app_nil_r, P. simpl. repeat split; auto; try discriminate.
  - destruct (resume_handlers_shape "" [] ThinkingUndefined q)
      as [_ (P & Hd & O)].
    destruct (resume_onSettled q) as [q' o]. simpl in P, Hd, O.
    exists q', o. simpl. rewrite P, Hd.
    destruct O as [-> | ->]; simpl; repeat split; auto; try discriminate;
      try lia; intros ? [F|[]]; discriminate F.
  - destruct (resume_handlers_shape "" [] ThinkingUndefined q)
      as [_ (P & Hd & O)].
    destruct (resume_onSettled q) as [q' o]. simpl in P, Hd, O.
    exists q', o. simpl. rewrite P, Hd.
    destruct O as [-> | ->]; simpl; repeat split; auto; try discriminate;
      try lia; intros ? [F|[]]; discriminate F.
  - destruct sg; simpl.
    + exists q, []. rewrite app_nil_r. simpl.
      repeat split; auto; try discriminate. lia.
    + exists q, [Cancelled]. simpl. repeat split; auto; try discriminate;
        try lia.
      intros ? [F|[]]; discriminate F.
  - destruct (resume_tick q) as [q' o] eqn:T.
    destruct (resume_tick_shape _ _ _ T) as (Fi & Sh & Ch).
    exists q', o. simpl.
    split; [reflexivity|]. split; [reflexivity|].
    split.
    { intro E. destruct (Fi E) as [-> ->]. now split. }
    destruct Sh as [-> | [[u ->] | [-> P]]]; simpl in *;
      repeat split; auto; try discriminate; try lia;
      intros ? [F|[]]; discriminate F.
Qed.

Lemma stops_match_step (r : Run) (e : Event) :
  stops_match r -> stops_match (step r e).
Proof.
  unfold stops_match. destruct (mode r) as [|s|q] eqn:M.
  - intro S.
    destruct (not_running_events [e] r M) as (M' & _ & C).
    unfold run_events in M', C. simpl in M', C. rewrite M'.
    unfold stop_count in *. now rewrite C.
  - intro S.
    destruct (streaming_step r s e M) as (s' & o & M' & T & _ & _ & _ & St & _).
    rewrite M', T, stop_count_app, S. lia.
  - intro S.
    destruct (resuming_step_shape r q e M) as (q' & o & M' & T & _ & _ & _ & C & _).
    rewrite M', T, stop_count_app, S. unfold stop_count. now rewrite C.
Qed.

Lemma ends_once_step (r : Run) (e : Event) :
  ends_once r -> ends_once (step r e).
Proof.
  unfold ends_once, generator_ended. intros [A G].
  destruct (mode r) as [|s|q] eqn:M.
  - destruct r as [c rf sg t m]. simpl in *. subst m.
    unfold step, has_ended. simpl.
    destruct e; try (now split); destruct sg; simpl; try (now split).
    split; [|reflexivity].
    apply ends_once_extend; auto.
  - destruct (streaming_step r s e M) as (s' & o & M' & T & E1 & E2 & E3 & _).
    rewrite M', T. split.
    + apply ends_once_extend; auto.
      intro En. now apply E1, G.
    + unfold has_ended in *. rewrite existsb_app.
      intro En. apply orb_prop in En. destruct En as [En | En].
      * now apply E1, G.
      * now apply E3.
  - destruct (resuming_step_shape r q e M)
      as (q' & o & M' & T & E1 & E2 & E3 & _).
    rewrite M', T.
    assert (P : has_ended (trace r) = true -> resumePos q = ResumeFinished).
    { intro En. specialize (G En). now destruct (resumePos q). }
    split.
    + apply ends_once_extend; auto.
      intro En. now apply E1, P.
    + unfold has_ended in *. rewrite existsb_app.
      intro En. apply orb_prop in En. destruct En as [En | En].
      * destruct (E1 (P En)) as [_ ->]. reflexivity.
      * now rewrite (E3 En).
Qed.

Lemma chunks_bounded_step (n : nat) (r : Run) (e : Event) :
  chunks_bounded n r ->
  chunks_bounded (n + (if is_update e then 1 else 0)) (step r e).
Proof.
  unfold chunks_bounded. destruct (mode r) as [|s|q] eqn:M.
  - intro Y. destruct r as [c rf sg t m]. simpl in *. subst m.
    unfold step. simpl.
    destruct e; try exact Y; destruct sg; simpl; try exact Y.
    rewrite yields_app, Y. reflexivity.
  - intro Y.
    destruct (streaming_step r s e M) as (s' & o & M' & T & _ & _ & _ & _ & Ch).
    rewrite M', T, yields_app, length_app. lia.
  - intro Y.
    destruct (resuming_step_shape r q e M)
      as (q' & o & M' & T & _ & _ & _ & _ & _ & Ch).
    rewrite M', T, yields_app, length_app. lia.
Qed.

Lemma run_start_sound chat rf messages nodes sig :
  stops_match (run_start chat rf messages nodes sig)
  /\ ends_once (run_start chat rf messages nodes sig)
  /\ chunks_bounded 0 (run_start chat rf messages nodes sig).
Proof.
  unfold run_start, stops_match, ends_once, chunks_bounded, generator_ended.
  destruct (resumeSessionRef rf) as [rs|];
    [simpl; repeat split; auto; discriminate|].
  destruct (isBackgroundTaskActiveRef rf); [simpl; now repeat split|].
  destruct (last_message messages) as [m|]; [|simpl; now repeat split].
  destruct (role m); try (simpl; now repeat split).
  destruct (find_text (content m)) as [text|]; [|simpl; now repeat split].
  unfold stream_start, handleAbort.
  destruct sig; simpl; (split; [reflexivity|]); (split; [now split|]);
    vm_compute; lia.
Qed.

Lemma length_updates_of (events : list Event) (e : Event) :
  List.length (updates_of (events ++ [e]))
  = List.length (updates_of events) + (if is_update e then 1 else 0).
Proof.
  unfold updates_of. rewrite flat_map_app, length_app.
  destruct e; simpl; lia.
Qed.

Lemma run_events_sound chat rf messages nodes sig (events : list Event) :
  stops_match (run_events (run_start chat rf messages nodes sig) events)
  /\ ends_once (run_events (run_start chat rf messages nodes sig) events)
  /\ chunks_bounded (List.length (updates_of events))
       (run_events (run_start chat rf messages nodes sig) events).
Proof.
  induction events as [|e events IH] using rev_ind.
  - apply run_start_sound.
  - rewrite run_events_app, length_updates_of.
    destruct IH as (S & E & C).
    change (run_events ?r [e]) with (step r e).
    split; [now apply stops_match_step|].
    split; [now apply ends_once_step|now apply chunks_bounded_step].
Qed.

End AllRuns.

Section RunLaws.
Context `{Externals}.

(** X15. Whatever the references, the thread and the schedule, a run
    calls [ChatService.stopMessage] at most once: [handleAbort] guards
    the call with [aborted], and resume mode never makes it. *)
Theorem backend_stopped_at_most_once chat rf messages nodes sig
  (events : list Event) :
  stop_count (trace (run_events (run_start chat rf messages nodes sig) events))
  <= 1.
Proof.
  destruct (run_events_sound chat rf messages nodes sig events) as [S _].
  unfold stops_match in S.
  destruct (mode (run_events (run_start chat rf messages nodes sig) events))
    as [|s|q]; try lia.
  destruct (aborted s); lia.
Qed.

(** X16. Once the sequence of a run has ended, by returning or by
    throwing, the run does nothing more, whatever happens later: no
    chunk, no backend call and no second end follow; only the marks of
    what is done to it, a cancellation or the settlement of the backend
    call. *)
Theorem nothing_after_the_end chat rf messages nodes sig
  (events : list Event) :
  forallb is_mark
    (after_end
       (trace (run_events (run_start chat rf messages nodes sig) events)))
  = true.
Proof.
  destruct (run_events_sound chat rf messages nodes sig events)
    as (_ & E & _).
  unfold ends_once in E.
  exact (proj1 E).
Qed.

(** X17. A run yields at most one chunk for each call of the progress
    callback, and one more: the final chunk of normal mode. *)
Theorem chunks_at_most_updates_plus_one chat rf messages nodes sig
  (events : list Event) :
  List.length
    (yields (trace (run_events (run_start chat rf messages nodes sig) events)))
  <= List.length (updates_of events) + 1.
Proof.
  destruct (run_events_sound chat rf messages nodes sig events)
    as (_ & _ & C).
  unfold chunks_bounded in C.
  destruct (mode (run_events (run_start chat rf messages nodes sig) events))
    as [|s|q].
  - rewrite C. simpl. lia.
  - unfold final_allowance in C. destruct (in_loop (pos s)); lia.
  - lia.
Qed.

Lemma resuming_events_shape (events : list Event) (r : Run) (q : Resume)
  (n : nat) :
  mode r = Resuming q ->
  (forall e, ~ In (Threw e) (trace r)) ->
  List.length (yields (trace r)) + held q <= n ->
  (forall e, ~ In (Threw e) (trace (run_events r events)))
  /\ List.length (yields (trace (run_events r events)))
     <= n + List.length (updates_of events).
Proof.
  revert r q n. induction events as [|e events IH]; intros r q n M T Y.
  - simpl. split; [exact T|]. lia.
  - rewrite run_events_cons.
    destruct (resuming_step_shape r q e M)
      as (q' & o & M' & Tr & _ & _ & _ & _ & NT & Ch).
    destruct (IH (step r e) q' (n + (if is_update e then 1 else 0)) M')
      as [T' Y'].
    + intros err I. rewrite Tr in I. apply in_app_or in I.
      destruct I as [I | I]; [now apply (T err)|now apply (NT err)].
    + rewrite Tr, yields_app, length_app. lia.
    + split; [exact T'|].
      assert (L : List.length (updates_of (e :: events))
                  = (if is_update e then 1 else 0)
                    + List.length (updates_of events)).
      { unfold updates_of. simpl. rewrite length_app. now destruct e. }
      lia.
Qed.

(** X18. A run that resumes a session never throws to its consumer,
    whether the backend call is fulfilled or rejects and whatever else
    happens, and it yields at most one chunk for each call of the
    progress callback. *)
Theorem resumed_run_never_throws chat rf rs messages nodes sig
  (events : list Event) :
  resumeSessionRef rf = Some rs ->
  (forall e,
      ~ In (Threw e)
          (trace (run_events (run_start chat rf messages nodes sig) events)))
  /\ List.length
       (yields
          (trace (run_events (run_start chat rf messages nodes sig) events)))
     <= List.length (updates_of events).
Proof.
  intro R. rewrite (run_start_resume _ _ _ _ _ _ R).
  apply (resuming_events_shape events _ resume_start 0).
  - reflexivity.
  - intros e [F|[]]. discriminate F.
  - simpl. vm_compute. lia.
Qed.

End RunLaws.

Lemma resumed_run_never_throws_witness :
  (forall e,
      ~ In (Threw e)
          (trace
             (@run_events sample_externals sample_resume_run
                [OnUpdate "he" [] ThinkingUndefined; Reject AbortError; Tick;
                 Tick])))
  /\ List.length
       (yields
          (trace
             (@run_events sample_externals sample_resume_run
                [OnUpdate "he" [] ThinkingUndefined; Reject AbortError; Tick;
                 Tick])))
     <= List.length
          (updates_of
             [OnUpdate "he" [] ThinkingUndefined; Reject AbortError; Tick;
              Tick]).
Proof.
  exact
    (@resumed_run_never_throws sample_externals "c1"
       (mkRefs true (mkStreamingState None "0-0" false false 0)
          (Some (mkResumeSessionInfo "s1" "5-0")))
       (mkResumeSessionInfo "s1" "5-0") (user_says "hi") [] false
       [OnUpdate "he" [] ThinkingUndefined; Reject AbortError; Tick; Tick]
       eq_refl).
Defined.

Section Settlement.
Context `{Externals}.

Lemma progressing_refs (r : Run) (e : Event) :
  is_progress e = true -> progressing r -> refs (step r e) = refs r.
Proof.
  intros Pe [s [M [S [A [F [SP [W [P T]]]]]]]].
  destruct s as [text th tcs hu ab fin wait sp lis p]. simpl in *. subst.
  unfold step. rewrite M.
  destruct e as [message tool_calls thinking|session|err| |];
    try discriminate Pe; [reflexivity|].
  rewrite S. unfold stream_tick, loop_top, after_loop. simpl.
  destruct P as [->|[c [->| ->]]]; simpl; try reflexivity.
  destruct hu; reflexivity.
Qed.

Lemma progressing_events_refs (events : list Event) (r : Run) :
  forallb is_progress events = true ->
  progressing r -> refs (run_events r events) = refs r.
Proof.
  revert r. induction events as [|e events IH]; intros r F P; [reflexivity|].
  simpl in F. apply andb_true_iff in F. destruct F as [Fe F].
  rewrite run_events_cons, IH; [|exact F|now apply progressing_step].
  now apply progressing_refs.
Qed.

Lemma stream_tick_refs (sig : bool) (rf rf' : Refs) (s s' : Stream)
  (o : list Obs) :
  stream_tick sig rf s = (rf', s', o) ->
  rf' = rf \/ rf' = set_isStreaming false rf.
Proof.
  unfold stream_tick, loop_top, after_loop, stream_finally. intro T.
  destruct (pos s) as [c [[e|]|]| | |];
    repeat match type of T with
           | context [if ?b then _ else _] => destruct b
           end;
    injection T as <- _ _; auto.
Qed.

(** Once the backend call has settled, the session the references hold
    stays, and [isStreaming] stays off. *)
Lemma settled_refs_events (events : list Event) (r : Run) (s : Stream) :
  mode r = Streaming s ->
  streamPromise s <> StreamPending ->
  isStreaming (streamingStateRef (refs r)) = false ->
  sessionId (streamingStateRef (refs (run_events r events)))
  = sessionId (streamingStateRef (refs r))
  /\ isStreaming (streamingStateRef (refs (run_events r events))) = false.
Proof.
  revert r s. induction events as [|e events IH]; intros r s M SP I.
  - now split.
  - rewrite run_events_cons.
    destruct r as [c rf sg t m]. simpl in M, I. subst m.
    assert (St : exists s' rf' sg' t',
               step (mkRun c rf sg t (Streaming s)) e
               = mkRun c rf' sg' t' (Streaming s')
               /\ streamPromise s' = streamPromise s
               /\ sessionId (streamingStateRef rf')
                  = sessionId (streamingStateRef rf)
               /\ isStreaming (streamingStateRef rf') = false).
    { destruct e as [message tool_calls thinking|session|err| |];
        unfold step; simpl.
      - destruct (stream_onUpdate_obs sg message tool_calls thinking s)
          as (_ & P & _).
        do 4 eexists. repeat split; eauto.
      - unfold stream_onResolve.
        destruct (streamPromise s) eqn:E; [now elim SP| |];
          do 4 eexists; repeat split; eauto.
      - unfold stream_onReject.
        destruct (streamPromise s) eqn:E; [now elim SP| |];
          do 4 eexists; repeat split; eauto.
      - destruct sg; simpl.
        + do 4 eexists. repeat split; eauto.
        + unfold stream_onAbort. destruct (listening s).
          * destruct (handleAbort c s) as [s' o] eqn:T.
            destruct (handleAbort_obs _ _ _ _ T) as (_ & _ & _ & P & _).
            do 4 eexists. repeat split; eauto.
          * do 4 eexists. repeat split; eauto.
      - destruct (stream_tick sg rf s) as [[rf' s'] o] eqn:T.
        destruct (stream_tick_obs _ _ _ _ _ _ T) as (_ & _ & P & _).
        destruct (stream_tick_refs _ _ _ _ _ _ T) as [-> | ->];
          do 4 eexists; repeat split; eauto. }
    destruct St as (s' & rf' & sg' & t' & -> & P & Se & Is).
    destruct (IH (mkRun c rf' sg' t' (Streaming s')) s' eq_refl) as [A B].
    + now rewrite P.
    + exact Is.
    + simpl in *. split; [now rewrite A|exact B].
Qed.

(** From a run under way: when the backend call rejects and the
    consumer keeps pulling, the generator yields at most the chunk it
    owes and then throws the error of the backend. *)
Lemma fail_after_reject (r : Run) err (k : nat) :
  progressing r ->
  exists before,
    trace (run_events r (Reject err :: repeat Tick (3 + k)))
    = trace r ++ BackendSettled :: map Yielded before ++ [Threw err]
    /\ List.length before <= 1.
Proof.
  intros [s [M [S [A [F [SP [W [P T]]]]]]]].
  destruct r as [chat rf sig tr md]. simpl in *. subst md sig.
  destruct s as [text th tcs hu ab fin wait sp lis p].
  simpl in *. subst.
  destruct P as [->|[c [->| ->]]].
  - exists []. cbn.
    erewrite (finished_ticks k); [|reflexivity|reflexivity]. cbn.
    rewrite <- !app_assoc. split; [reflexivity|lia].
  - exists []. destruct c; cbn;
      (erewrite (finished_ticks k); [|reflexivity|reflexivity]); cbn;
      rewrite <- !app_assoc; (split; [reflexivity|lia]).
  - destruct hu.
    + exists [render_stream th tcs text]. destruct c; cbn;
        (erewrite (finished_ticks k); [|reflexivity|reflexivity]); cbn;
        rewrite <- !app_assoc; (split; [reflexivity|simpl; lia]).
    + exists []. destruct c; cbn;
        (erewrite (finished_ticks k); [|reflexivity|reflexivity]); cbn;
        rewrite <- !app_assoc; (split; [reflexivity|lia]).
Qed.

(** X19. Normal mode, nobody cancels: when the backend call rejects,
    the consumer is given at most the one chunk still owed and then the
    error of the backend, thrown as the end of the sequence; no final
    chunk is published. *)
Theorem backend_rejection_reaches_consumer chat rf messages nodes
  (progress : list Event) err (k : nat) :
  resumeSessionRef rf = None ->
  mode (run_start chat rf messages nodes false) <> NotRunning ->
  forallb is_progress progress = true ->
  exists before,
    trace
      (run_events (run_start chat rf messages nodes false)
         (progress ++ Reject err :: repeat Tick (3 + k)))
    = trace (run_events (run_start chat rf messages nodes false) progress)
      ++ BackendSettled :: map Yielded before ++ [Threw err]
    /\ List.length before <= 1.
Proof.
  intros R N P. rewrite run_events_app.
  apply fail_after_reject.
  apply progressing_events; [exact P|].
  now apply progressing_start.
Qed.

(** X20. Normal mode, a run under way that nobody has cancelled: as
    long as the backend call has not settled and the signal has not
    fired, the shared streaming state holds no session and says the run
    is streaming. When the call is then fulfilled, it holds the session
    the backend gave and [isStreaming] is off, and both stay so
    whatever happens later, a cancellation included. *)
Theorem session_stored_on_fulfilment chat rf messages nodes
  (progress later : list Event) session :
  resumeSessionRef rf = None ->
  mode (run_start chat rf messages nodes false) <> NotRunning ->
  forallb is_progress progress = true ->
  (sessionId
     (streamingStateRef
        (refs (run_events (run_start chat rf messages nodes false) progress)))
   = None
   /\ isStreaming
        (streamingStateRef
           (refs (run_events (run_start chat rf messages nodes false) progress)))
      = true)
  /\ (sessionId
        (streamingStateRef
           (refs
              (run_events (run_start chat rf messages nodes false)
                 (progress ++ Resolve session :: later))))
      = Some session
      /\ isStreaming
           (streamingStateRef
              (refs
                 (run_events (run_start chat rf messages nodes false)
                    (progress ++ Resolve session :: later))))
         = false).
Proof.
  intros R N P.
  pose proof (progressing_start chat rf messages nodes R N) as P0.
  pose proof (progressing_events progress _ P P0) as P1.
  pose proof (progressing_events_refs progress _ P P0) as Rf.
  assert (S0 : sessionId
                 (streamingStateRef
                    (refs (run_start chat rf messages nodes false))) = None
               /\ isStreaming
                    (streamingStateRef
                       (refs (run_start chat rf messages nodes false)))
                  = true).
  { clear P0 P1 Rf. unfold run_start in *. rewrite R in *.
    destruct (isBackgroundTaskActiveRef rf); [now elim N|].
    destruct (last_message messages) as [m|]; [|now elim N].
    destruct (role m); try now elim N.
    destruct (find_text (content m)) as [text|]; [|now elim N].
    simpl. now split. }
  rewrite <- Rf in S0. split; [exact S0|].
  rewrite run_events_app, run_events_cons.
  destruct P1 as [s [M [Sg [A [F [SP [W [Po T]]]]]]]].
  remember (run_events (run_start chat rf messages nodes false) progress)
    as r eqn:Er.
  clear Er S0 Rf P0.
  destruct r as [c rf1 sg t m]. simpl in *. subst m sg.
  unfold step. simpl. unfold stream_onResolve. rewrite SP.
  match goal with
  | |- context [run_events (mkRun ?c ?rf ?sg ?t (Streaming ?s)) later] =>
      destruct (settled_refs_events later (mkRun c rf sg t (Streaming s)) s
                  eq_refl) as [A1 B1]
  end.
  - simpl. discriminate.
  - reflexivity.
  - split; [now rewrite A1|exact B1].
Qed.

End Settlement.

Lemma backend_rejection_reaches_consumer_witness :
  exists before,
    trace
      (@run_events sample_externals sample_stream_run
         ([OnUpdate "he" [] ThinkingUndefined]
          ++ Reject (BackendError "boom") :: repeat Tick (3 + 0)))
    = trace
        (@run_events sample_externals sample_stream_run
           [OnUpdate "he" [] ThinkingUndefined])
      ++ BackendSettled :: map Yielded before ++ [Threw (BackendError "boom")]
    /\ List.length before <= 1.
Proof.
  refine
    (@backend_rejection_reaches_consumer sample_externals "c1" idle_refs
       (user_says "hi") [] [OnUpdate "he" [] ThinkingUndefined]
       (BackendError "boom") 0 eq_refl _ eq_refl).
  simpl. discriminate.
Defined.

Lemma session_stored_on_fulfilment_witness :
  (sessionId
     (streamingStateRef
        (refs
           (@run_events sample_externals sample_stream_run
              [OnUpdate "he" [] ThinkingUndefined; Tick])))
   = None
   /\ isStreaming
        (streamingStateRef
           (refs
              (@run_events sample_externals sample_stream_run
                 [OnUpdate "he" [] ThinkingUndefined; Tick])))
      = true)
  /\ (sessionId
        (streamingStateRef
           (refs
              (@run_events sample_externals sample_stream_run
                 ([OnUpdate "he" [] ThinkingUndefined; Tick]
                  ++ Resolve "s9" :: [Tick; AbortSignal; Tick]))))
      = Some "s9"
      /\ isStreaming
           (streamingStateRef
              (refs
                 (@run_events sample_externals sample_stream_run
                    ([OnUpdate "he" [] ThinkingUndefined; Tick]
                     ++ Resolve "s9" :: [Tick; AbortSignal; Tick]))))
         = false).
Proof.
  refine
    (@session_stored_on_fulfilment sample_externals "c1" idle_refs
       (user_says "hi") [] [OnUpdate "he" [] ThinkingUndefined; Tick]
       [Tick; AbortSignal; Tick] "s9" eq_refl _ eq_refl).
  simpl. discriminate.
Defined.

Section LateStart.
Context `{Externals}.

(** X21. A run of normal mode that is started with its signal already
    fired never calls [ChatService.streamMessage]: it tells the backend
    to stop, once, and its sequence ends without a chunk. No backend
    call is made, so none settles; whatever else happens, the run does
    nothing more. It returns before the [try] whose [finally] turns
    [isStreaming] off, so the shared streaming state keeps saying that
    a run is streaming. *)
Theorem run_started_after_cancel chat rf messages nodes m text
  (events : list Event) :
  resumeSessionRef rf = None ->
  isBackgroundTaskActiveRef rf = false ->
  last_message messages = Some m ->
  role m = User ->
  find_text (content m) = Some text ->
  forallb (fun e => negb (is_settle e)) events = true ->
  trace (run_events (run_start chat rf messages nodes true) events)
  = [Called (StopMessage chat); Returned]
  /\ isStreaming
       (streamingStateRef
          (refs (run_events (run_start chat rf messages nodes true) events)))
     = true.
Proof.
  intros R B L U T E.
  unfold run_start. rewrite R, B, L, U, T. simpl.
  match goal with
  | |- context [run_events ?r events] => set (r0 := r)
  end.
  assert (N : run_events r0 events = r0).
  { induction events as [|e events IH]; [reflexivity|].
    simpl in E. apply andb_true_iff in E. destruct E as [Ee E].
    rewrite run_events_cons.
    assert (S : step r0 e = r0) by (destruct e; try discriminate Ee; reflexivity).
    rewrite S. now apply IH. }
  rewrite N. now split.
Qed.

End LateStart.

Lemma run_started_after_cancel_witness :
  trace
    (@run_events sample_externals
       (@run_start sample_externals "c1" idle_refs (user_says "hi") [] true)
       [Tick; OnUpdate "he" [] ThinkingUndefined; AbortSignal; Tick])
  = [Called (StopMessage "c1"); Returned]
  /\ isStreaming
       (streamingStateRef
          (refs
             (@run_events sample_externals
                (@run_start sample_externals "c1" idle_refs (user_says "hi")
                   [] true)
                [Tick; OnUpdate "he" [] ThinkingUndefined; AbortSignal; Tick])))
     = true.
Proof.
  exact
    (@run_started_after_cancel sample_externals "c1" idle_refs
       (user_says "hi") [] (mkMessage User [TextPart "hi"] []) "hi"
       [Tick; OnUpdate "he" [] ThinkingUndefined; AbortSignal; Tick]
       eq_refl eq_refl eq_refl eq_refl eq_refl eq_refl).
Defined.

Lemma stream_cancel_is_clean_witness :
  yields
    (after_cancel
       (trace
          (@run_events sample_externals sample_stream_run
             ([OnUpdate "he" [] ThinkingUndefined; Tick]
              ++ AbortSignal
                 :: [OnUpdate "hello" [] ThinkingUndefined; Tick;
                     Reject AbortError; Tick]))))
  = []
  /\ (forall e,
         ~ In (Threw e)
             (after_cancel
                (trace
                   (@run_events sample_externals sample_stream_run
                      ([OnUpdate "he" [] ThinkingUndefined; Tick]
                       ++ AbortSignal
                          :: [OnUpdate "hello" [] ThinkingUndefined; Tick;
                              Reject AbortError; Tick])))))
  /\ stop_count
       (trace
          (@run_events sample_externals sample_stream_run
             ([OnUpdate "he" [] ThinkingUndefined; Tick]
              ++ AbortSignal
                 :: [OnUpdate "hello" [] ThinkingUndefined; Tick;
                     Reject AbortError; Tick])))
     = 1
  /\ In (Called (StopMessage "c1"))
       (trace
          (@run_events sample_externals sample_stream_run
             ([OnUpdate "he" [] ThinkingUndefined; Tick]
              ++ AbortSignal
                 :: [OnUpdate "hello" [] ThinkingUndefined; Tick;
                     Reject AbortError; Tick]))).
Proof.
  exact
    (@stream_cancel_is_clean sample_externals "c1" idle_refs (user_says "hi")
       [] [OnUpdate "he" [] ThinkingUndefined; Tick]
       [OnUpdate "hello" [] ThinkingUndefined; Tick; Reject AbortError; Tick]
       _ eq_refl eq_refl eq_refl eq_refl).
Defined.

(** ** The two renderers *)

Lemma filter_all {A : Type} (f : A -> bool) (l : list A) :
  forallb f l = true -> filter f l = l.
Proof.
  induction l as [|x l IH]; simpl; [reflexivity|].
  intro F. apply andb_true_iff in F. destruct F as [Fx F].
  now rewrite Fx, IH.
Qed.

(** X23. For an accumulated state whose text is not empty and whose
    records all have an identifier and a name, the chunk a resumed run
    builds and the chunk normal mode yields are the same exactly when
    the thinking, if there is any, is not white space only: thinking
    made of white space, such as a single no-break space, is a
    reasoning segment in normal mode and is left out of the chunk of a
    resumed run. *)
Theorem renderers_agree (a : Accumulated) :
  truthy (acc_text a) = true ->
  forallb has_id_and_name (map_values (acc_calls a)) = true ->
  resume_chunk a = stream_chunk a
  <-> (forall t, acc_thinking a = Some t -> blank t -> t = "").
Proof.
  intros T C.
  unfold resume_chunk, stream_chunk, render_resume, render_stream.
  rewrite (filter_all _ _ C), T.
  destruct (acc_thinking a) as [t|]; [|split; [discriminate|reflexivity]].
  destruct (truthy (trim t)) eqn:Tr.
  - assert (N : truthy t = true).
    { destruct t; [discriminate Tr|reflexivity]. }
    rewrite N. split; [|reflexivity].
    intros _ x [= <-] B. apply truthy_trim in B. congruence.
  - apply truthy_trim in Tr. destruct (truthy t) eqn:N.
    + split.
      * intro E. apply (f_equal (@List.length ContentPart)) in E.
        simpl in E. lia.
      * intro B. rewrite (B t eq_refl Tr) in N. discriminate N.
    + split; [|reflexivity].
      intros _ x [= <-] _. now destruct t.
Qed.

Lemma renderers_agree_witness :
  resume_chunk
    (mkAccumulated "hello" (Some "hm")
       [(Some "a",
         mkPart (Some "a") (Some "search") (VObj []) "{}" None None
           (Some false))])
  = stream_chunk
      (mkAccumulated "hello" (Some "hm")
         [(Some "a",
           mkPart (Some "a") (Some "search") (VObj []) "{}" None None
             (Some false))]).
Proof.
  refine
    (proj2
       (renderers_agree
          (mkAccumulated "hello" (Some "hm")
             [(Some "a",
               mkPart (Some "a") (Some "search") (VObj []) "{}" None None
                 (Some false))])
          eq_refl eq_refl)
       _).
  intros t E B. injection E as <-. apply trim_blank in B. discriminate B.
Defined.

(** ** Resume detection *)

Section Detector.
Context `{Externals}.

(** X24. When [resumeActiveSession] is done, for a chat that has an
    identifier, the background-task flag is off again on every path:
    the thread missing, no user message to answer, [startRun] resolving
    or rejecting. It starts at most one run, it leaves the streaming
    state alone, and when [startRun] rejects it takes back the resume
    request it wrote. *)
Theorem resume_detector_settles chatId sessionInfo thread startRunOk
  (rf : Refs) :
  truthy chatId = true ->
  isBackgroundTaskActiveRef
    (fold_left detector_apply
       (resumeActiveSession chatId sessionInfo thread startRunOk) rf)
  = false
  /\ streamingStateRef
       (fold_left detector_apply
          (resumeActiveSession chatId sessionInfo thread startRunOk) rf)
     = streamingStateRef rf
  /\ List.length
       (filter is_start_run
          (resumeActiveSession chatId sessionInfo thread startRunOk))
     <= 1
  /\ (startRunOk = false ->
      existsb is_start_run
        (resumeActiveSession chatId sessionInfo thread startRunOk)
      = true ->
      resumeSessionRef
        (fold_left detector_apply
           (resumeActiveSession chatId sessionInfo thread startRunOk) rf)
      = None).
Proof.
  intro C. unfold resumeActiveSession. rewrite C.
  destruct thread as [messages|]; simpl.
  - destruct (last (map Some messages) None) as [lastMsg|]; simpl.
    + destruct (role (item_message lastMsg)); simpl;
        try (repeat split; auto; intros; discriminate).
      destruct startRunOk; simpl; repeat split; auto; intros; discriminate.
    + repeat split; auto; intros; discriminate.
  - repeat split; auto; intros; discriminate.
Qed.

(** X25. When [resumeActiveSession] starts no run (the thread is
    missing or empty, or its last message is not the user's), the
    resume request it wrote stays behind. The next run of the adapter,
    whatever the thread then holds, takes it: the only backend call of
    that run resumes the detected session, at the detected cursor or at
    ["0-0"], and the text of the user's message is sent nowhere. *)
Theorem stale_resume_request_takes_next_run chatId sessionInfo thread
  startRunOk (rf : Refs) messages nodes sig (events : list Event) :
  truthy chatId = true ->
  existsb is_start_run
    (resumeActiveSession chatId sessionInfo thread startRunOk)
  = false ->
  calls
    (trace
       (run_events
          (run_start chatId
             (fold_left detector_apply
                (resumeActiveSession chatId sessionInfo thread startRunOk) rf)
             messages nodes sig)
          events))
  = [ResumeWithCursor chatId (info_sessionId sessionInfo)
       (match info_cursor sessionInfo with
        | Some c => if truthy c then c else "0-0"
        | None => "0-0"
        end)].
Proof.
  intros C N.
  set (request :=
         {| resume_sessionId := info_sessionId sessionInfo;
            resume_cursor :=
              match info_cursor sessionInfo with
              | Some c => if truthy c then c else "0-0"
              | None => "0-0"
              end |}).
  assert (R : resumeSessionRef
                (fold_left detector_apply
                   (resumeActiveSession chatId sessionInfo thread startRunOk)
                   rf)
              = Some request).
  { unfold resumeActiveSession in *. rewrite C in *.
    destruct thread as [msgs|]; simpl in *; [|reflexivity].
    destruct (last (map Some msgs) None) as [lastMsg|]; simpl in *;
      [|reflexivity].
    destruct (role (item_message lastMsg)); simpl in *; try reflexivity.
    destruct startRunOk; discriminate N. }
  rewrite (run_start_resume _ _ _ _ _ _ R).
  match goal with
  | |- context [run_events ?r events] =>
      destruct (resuming_events events r resume_start eq_refl)
        as (q' & _ & _ & _ & Ca)
  end.
  rewrite Ca. reflexivity.
Qed.

(** X26. [checkAndResume] starts a run only when every guard holds: the
    chat has an identifier, the backend reports a session whose status
    is ["active"], the component is still mounted after the detection
    and after the wait for the history, and the last message of the
    thread is the user's; the run it starts answers that message. *)
Theorem run_started_only_for_active_session chatId detected mounted thread
  mountedLater startRunOk messageId :
  In (StartRun messageId)
    (checkAndResume chatId detected mounted thread mountedLater startRunOk) ->
  truthy chatId = true
  /\ mounted = true
  /\ mountedLater = true
  /\ (exists session,
         detected = Some (Some session) /\ info_status session = "active")
  /\ (exists messages lastMsg,
         thread = Some messages
         /\ last (map Some messages) None = Some lastMsg
         /\ role (item_message lastMsg) = User
         /\ item_id lastMsg = messageId).
Proof.
  unfold checkAndResume, resumeActiveSession.
  destruct (truthy chatId); [|intros []].
  intros [F | I]; [discriminate F|].
  destruct detected as [[session|]|]; try now elim I.
  destruct mounted; [|now elim I].
  destruct (String.eqb (info_status session) "active") eqn:A; [|now elim I].
  apply String.eqb_eq in A.
  destruct thread as [messages|]; [|now elim I].
  destruct mountedLater; [|now elim I].
  destruct I as [F | [F | I]]; try discriminate F.
  destruct (last (map Some messages) None) as [lastMsg|] eqn:L;
    [|destruct I as [F|[]]; discriminate F].
  destruct (role (item_message lastMsg)) eqn:Ro;
    try (destruct I as [F|[]]; discriminate F).
  assert (E : item_id lastMsg = messageId).
  { destruct startRunOk; simpl in I.
    - destruct I as [F | [F | []]]; [now injection F|discriminate F].
    - destruct I as [F | [F | [F | []]]];
        [now injection F|discriminate F|discriminate F]. }
  split; [reflexivity|]. split; [reflexivity|]. split; [reflexivity|].
  split.
  - exists session. now split.
  - exists messages, lastMsg. now repeat split.
Qed.

End Detector.

Lemma resume_detector_settles_witness :
  isBackgroundTaskActiveRef
    (fold_left detector_apply
       (resumeActiveSession "c1" (mkSessionInfo "s1" None "active")
          (Some [mkThreadItem "m1" (mkMessage User [TextPart "hi"] [])])
          false)
       idle_refs)
  = false
  /\ streamingStateRef
       (fold_left detector_apply
          (resumeActiveSession "c1" (mkSessionInfo "s1" None "active")
             (Some [mkThreadItem "m1" (mkMessage User [TextPart "hi"] [])])
             false)
          idle_refs)
     = streamingStateRef idle_refs
  /\ List.length
       (filter is_start_run
          (resumeActiveSession "c1" (mkSessionInfo "s1" None "active")
             (Some [mkThreadItem "m1" (mkMessage User [TextPart "hi"] [])])
             false))
     <= 1
  /\ (false = false ->
      existsb is_start_run
        (resumeActiveSession "c1" (mkSessionInfo "s1" None "active")
           (Some [mkThreadItem "m1" (mkMessage User [TextPart "hi"] [])])
           false)
      = true ->
      resumeSessionRef
        (fold_left detector_apply
           (resumeActiveSession "c1" (mkSessionInfo "s1" None "active")
              (Some [mkThreadItem "m1" (mkMessage User [TextPart "hi"] [])])
              false)
           idle_refs)
      = None).
Proof.
  exact
    (resume_detector_settles "c1" (mkSessionInfo "s1" None "active")
       (Some [mkThreadItem "m1" (mkMessage User [TextPart "hi"] [])])
       false idle_refs eq_refl).
Defined.

Lemma stale_resume_request_takes_next_run_witness :
  calls
    (trace
       (@run_events sample_externals
          (@run_start sample_externals "c1"
             (fold_left detector_apply
                (resumeActiveSession "c1" (mkSessionInfo "s1" None "active")
                   (Some []) true)
                idle_refs)
             (user_says "next question") [] false)
          [OnUpdate "old answer" [] ThinkingUndefined; Tick; Resolve "s1";
           Tick]))
  = [ResumeWithCursor "c1" "s1" "0-0"].
Proof.
  exact
    (@stale_resume_request_takes_next_run sample_externals "c1"
       (mkSessionInfo "s1" None "active") (Some []) true idle_refs
       (user_says "next question") [] false
       [OnUpdate "old answer" [] ThinkingUndefined; Tick; Resolve "s1"; Tick]
       eq_refl eq_refl).
Defined.

Lemma run_started_only_for_active_session_witness :
  truthy "c1" = true
  /\ true = true
  /\ true = true
  /\ (exists session,
         Some (Some (mkSessionInfo "s1" (Some "7-0") "active"))
         = Some (Some session)
         /\ info_status session = "active")
  /\ (exists messages lastMsg,
         Some [mkThreadItem "m1" (mkMessage User [TextPart "hi"] [])]
         = Some messages
         /\ last (map Some messages) None = Some lastMsg
         /\ role (item_message lastMsg) = User
         /\ item_id lastMsg = "m1").
Proof.
  refine
    (run_started_only_for_active_session "c1"
       (Some (Some (mkSessionInfo "s1" (Some "7-0") "active"))) true
       (Some [mkThreadItem "m1" (mkMessage User [TextPart "hi"] [])]) true
       true "m1" _).
  simpl. auto.
Defined.

(** ** The pending message *)

(** X27. When a pending message is there, the chat has an identifier
    and the handler has not run yet, the effect marks the message as
    sent at once and, however the send goes (no thread, no composer,
    [setText] throwing, [send] rejecting or resolving), clears the
    pending message exactly once, as the last thing it does; it sends
    at most once, after setting the text of the composer to the pending
    message. Any later run of the effect does nothing. *)
Theorem pending_message_handled_once text chatId thread composer outcome :
  truthy text = true ->
  truthy chatId = true ->
  fst (pending_message_effect (Some text) chatId false thread composer outcome)
  = true
  /\ last
       (snd
          (pending_message_effect (Some text) chatId false thread composer
             outcome))
       ToastError
     = ClearPendingMessage
  /\ List.length
       (filter is_clear
          (snd
             (pending_message_effect (Some text) chatId false thread composer
                outcome)))
     = 1
  /\ List.length
       (filter is_send
          (snd
             (pending_message_effect (Some text) chatId false thread composer
                outcome)))
     <= 1
  /\ (In ComposerSend
        (snd
           (pending_message_effect (Some text) chatId false thread composer
              outcome)) ->
      exists rest,
        snd
          (pending_message_effect (Some text) chatId false thread composer
             outcome)
        = ComposerSetText text :: ComposerSend :: rest)
  /\ (forall pendingMessage' chatId' thread' composer' outcome',
         pending_message_effect pendingMessage' chatId'
           (fst
              (pending_message_effect (Some text) chatId false thread
                 composer outcome))
           thread' composer' outcome'
         = (true, [])).
Proof.
  intros T C. unfold pending_message_effect at 1 2 3 4 5 6 7.
  rewrite T, C. simpl.
  assert (Again : forall pendingMessage' chatId' thread' composer' outcome',
             pending_message_effect pendingMessage' chatId' true thread'
               composer' outcome'
             = (true, [])).
  { intros pm c' th' co' out'. unfold pending_message_effect.
    destruct pm as [t|]; [|reflexivity].
    now rewrite andb_false_r. }
  destruct thread, composer, outcome; simpl;
    repeat split; auto; try lia;
    try (intros [F | [F | [F | [F | []]]]]; discriminate F);
    try (intros [F | [F | [F | []]]]; discriminate F);
    try (intros [F | []]; discriminate F);
    try (intros _; eexists; reflexivity);
    try (unfold pending_message_effect; rewrite T, C; simpl; apply Again).
Qed.

Lemma pending_message_handled_once_witness :
  fst (pending_message_effect (Some "hi") "c1" false true true SendRejects)
  = true
  /\ last
       (snd (pending_message_effect (Some "hi") "c1" false true true SendRejects))
       ToastError
     = ClearPendingMessage
  /\ List.length
       (filter is_clear
          (snd
             (pending_message_effect (Some "hi") "c1" false true true
                SendRejects)))
     = 1
  /\ List.length
       (filter is_send
          (snd
             (pending_message_effect (Some "hi") "c1" false true true
                SendRejects)))
     <= 1
  /\ (In ComposerSend
        (snd
           (pending_message_effect (Some "hi") "c1" false true true
              SendRejects)) ->
      exists rest,
        snd
          (pending_message_effect (Some "hi") "c1" false true true SendRejects)
        = ComposerSetText "hi" :: ComposerSend :: rest)
  /\ (forall pendingMessage' chatId' thread' composer' outcome',
         pending_message_effect pendingMessage' chatId'
           (fst
              (pending_message_effect (Some "hi") "c1" false true true
                 SendRejects))
           thread' composer' outcome'
         = (true, [])).
Proof.
  exact
    (pending_message_handled_once "hi" "c1" true true SendRejects
       eq_refl eq_refl).
Defined.
